(** * Session/room orchestration of the live-streaming backend

    A shallow embedding of [src/services/MediaService.js] (worker pool, room
    registry, participant sessions), of the [StreamService] orchestrator and
    of the parts of [CacheService] and [MessageQueue] they call, followed by
    the properties of the orchestration layer.

    Conventions of the embedding.
    - A JavaScript [Map] is an insertion-ordered association list ([JsMap]):
      the source iterates over [values()] and takes the first match.
    - Objects that are shared by reference (participants captured by event
      listeners, media-engine transports, producers and consumers) live in
      stores keyed by an address; the maps of the source hold addresses.
    - An [async] method is one atomic step: a function from the state before
      the call to the outcome ([Ok] or [Throw]) and the state after it.
    - The media engine (mediasoup) is a collaborator.  Its calls succeed and
      hand out fresh identifiers; closing a transport notifies the producers
      and consumers carried by it, closing a producer notifies its consumers.
    - Redis hashes and Mongo documents are finite maps from field names to
      JSON values; a value is read back as it was written.  Redis commands
      succeed; persistence and the event bus fail when the environment of
      the call says so.
    - What a call reads from outside (the clock, the identifier drawn by
      [uuidv4()], the number of cores) is an argument or part of [Env]. *)

From stdpp Require Import base decidable option list gmap strings.
From Stdlib Require Import ZArith Lia.

Local Open Scope string_scope.
Local Open Scope list_scope.
Local Open Scope Z_scope.

(** ** Insertion-ordered maps (the JavaScript [Map]) *)

Module JsMap.
Section Defs.
Context {K V : Type} `{EqDecision K}.

Fixpoint get (k : K) (m : list (K * V)) : option V :=
  match m with
  | [] => None
  | (k', v) :: m' => if decide (k' = k) then Some v else get k m'
  end.

Definition has (k : K) (m : list (K * V)) : bool :=
  match get k m with Some _ => true | None => false end.

(** [set] on a key that is present keeps its place in the order. *)
Fixpoint set (k : K) (v : V) (m : list (K * V)) : list (K * V) :=
  match m with
  | [] => [(k, v)]
  | (k', v') :: m' =>
      if decide (k' = k) then (k, v) :: m' else (k', v') :: set k v m'
  end.

Fixpoint delete (k : K) (m : list (K * V)) : list (K * V) :=
  match m with
  | [] => []
  | (k', v') :: m' =>
      if decide (k' = k) then delete k m' else (k', v') :: delete k m'
  end.

Definition values (m : list (K * V)) : list V := map snd m.
Definition keys (m : list (K * V)) : list K := map fst m.
Definition size (m : list (K * V)) : nat := length m.

End Defs.
End JsMap.

(** ** Outcomes, log and the effect monad *)

Inductive JsError :=
| Error (msg : string)
| TypeError (msg : string).

Inductive Result (A : Type) :=
| Ok (a : A)
| Throw (e : JsError).
Arguments Ok {A} a.
Arguments Throw {A} e.

Definition is_ok {A} (r : Result A) : bool :=
  match r with Ok _ => true | Throw _ => false end.

Inductive Level := LInfo | LDebug | LWarn | LError.

(** One constructor per message text of the source; the interpolated values
    are the arguments. *)
Inductive LogMsg :=
| MsgCreatingWorkers (n : nat)
| MsgInitialized (n : nat)
| MsgRoomCreated (roomId : string) (workerIndex : Z)
| MsgFailedTransport (userId : string) (e : JsError)
| MsgTransportConnected (transportId : nat) (userId : string)
| MsgProducerCreated (producerId : nat) (kind : string) (userId : string)
| MsgConsumerCreated (consumerId : nat) (userId : string)
| MsgConsumerResumed (consumerId : nat) (userId : string)
| MsgParticipantRemoved (userId roomId : string)
| MsgRoomClosedEmpty (roomId : string)
| MsgText (text : string)
| MsgFailure (text : string) (e : JsError).

Abbreviation LogEntry := (Level * LogMsg)%type (only parsing).
Abbreviation Log := (list (Level * LogMsg)) (only parsing).

(** What an operation reads from its surroundings: the clock, and whether
    the persistence and event-bus collaborators fail when called. *)
Record Env := mkEnv {
  now : Z;
  db_fails : bool;
  mq_fails : bool
}.

Definition Eff (S A : Type) : Type := Env → S * Log → Result A * (S * Log).

Definition ret {S A} (a : A) : Eff S A := λ _ s, (Ok a, s).
Definition throw {S A} (e : JsError) : Eff S A := λ _ s, (Throw e, s).

Definition bind {S A B} (m : Eff S A) (k : A → Eff S B) : Eff S B :=
  λ env s,
    match m env s with
    | (Ok a, s') => k a env s'
    | (Throw e, s') => (Throw e, s')
    end.

(** [try { m } catch (e) { h e }] *)
Definition try_catch {S A} (m : Eff S A) (h : JsError → Eff S A) : Eff S A :=
  λ env s,
    match m env s with
    | (Ok a, s') => (Ok a, s')
    | (Throw e, s') => h e env s'
    end.

Definition get_state {S} : Eff S S := λ _ s, (Ok (fst s), s).
Definition put_state {S} (x : S) : Eff S unit := λ _ s, (Ok tt, (x, snd s)).
Definition modify {S} (f : S → S) : Eff S unit :=
  λ _ s, (Ok tt, (f (fst s), snd s)).
Definition date_now {S} : Eff S Z := λ env s, (Ok (now env), s).
Definition log {S} (l : Level) (m : LogMsg) : Eff S unit :=
  λ _ s, (Ok tt, (fst s, snd s ++ [(l, m)])).

(** Run an operation of a component on the component's part of the state. *)
Definition lift {S T A} (proj : T → S) (inj : S → T → T) (m : Eff S A) : Eff T A :=
  λ env t,
    match m env (proj (fst t), snd t) with
    | (r, (s', l')) => (r, (inj s' (fst t), l'))
    end.

Notation "'do' x <- m ; k" := (bind m (λ x, k))
  (at level 10, x name, m at level 100, k at level 200, only parsing).
Notation "'do' ' p <- m ; k" := (bind m (λ x, match x with p => k end))
  (at level 10, p pattern, m at level 100, k at level 200, only parsing).
Notation "'run' m ; k" := (bind m (λ _, k))
  (at level 10, m at level 100, k at level 200, only parsing).

(** ** The media engine (mediasoup), as far as the service drives it

    Engine objects live in append-only arenas; the identifier the engine
    hands out for an object is its index, so it is fresh by construction.
    An event listener of the source is a closure over a participant
    object; it is represented by the address of that participant. *)

Abbreviation RtpParameters := string (only parsing).
Abbreviation RtpCapabilities := (list string) (only parsing).

Record RouterObj := mkRouter {
  ro_worker : nat;
  ro_closed : bool
}.

Record TransportObj := mkTransport {
  tr_router : nat;
  tr_userId : string;
  tr_direction : string;
  tr_connected : bool;
  tr_closed : bool
}.

Record ProducerObj := mkProducer {
  pr_router : nat;
  pr_transport : nat;
  pr_kind : string;
  pr_rtpParameters : RtpParameters;
  pr_closed : bool;
  pr_on_transportclose : option nat
}.

Record ConsumerObj := mkConsumer {
  co_transport : nat;
  co_producer : nat;
  co_kind : string;
  co_rtpParameters : RtpParameters;
  co_paused : bool;
  co_closed : bool;
  co_on_transportclose : option nat;
  co_on_producerclose : option nat
}.

Record Engine := mkEngine {
  e_workers : nat;
  e_routers : list RouterObj;
  e_transports : list TransportObj;
  e_producers : list ProducerObj;
  e_consumers : list ConsumerObj
}.

Definition engine0 : Engine := mkEngine 0 [] [] [] [].

Definition set_e_consumers (f : list ConsumerObj → list ConsumerObj) (e : Engine) : Engine :=
  mkEngine (e_workers e) (e_routers e) (e_transports e) (e_producers e) (f (e_consumers e)).
Definition set_e_producers (f : list ProducerObj → list ProducerObj) (e : Engine) : Engine :=
  mkEngine (e_workers e) (e_routers e) (e_transports e) (f (e_producers e)) (e_consumers e).
Definition set_e_transports (f : list TransportObj → list TransportObj) (e : Engine) : Engine :=
  mkEngine (e_workers e) (e_routers e) (f (e_transports e)) (e_producers e) (e_consumers e).
Definition set_e_routers (f : list RouterObj → list RouterObj) (e : Engine) : Engine :=
  mkEngine (e_workers e) (f (e_routers e)) (e_transports e) (e_producers e) (e_consumers e).
Definition set_e_workers (n : nat) (e : Engine) : Engine :=
  mkEngine n (e_routers e) (e_transports e) (e_producers e) (e_consumers e).

Definition co_mark_closed (c : ConsumerObj) : ConsumerObj :=
  mkConsumer (co_transport c) (co_producer c) (co_kind c) (co_rtpParameters c)
    (co_paused c) true (co_on_transportclose c) (co_on_producerclose c).
Definition co_set_paused (b : bool) (c : ConsumerObj) : ConsumerObj :=
  mkConsumer (co_transport c) (co_producer c) (co_kind c) (co_rtpParameters c)
    b (co_closed c) (co_on_transportclose c) (co_on_producerclose c).
Definition co_set_listeners (a : nat) (c : ConsumerObj) : ConsumerObj :=
  mkConsumer (co_transport c) (co_producer c) (co_kind c) (co_rtpParameters c)
    (co_paused c) (co_closed c) (Some a) (Some a).
Definition pr_mark_closed (p : ProducerObj) : ProducerObj :=
  mkProducer (pr_router p) (pr_transport p) (pr_kind p) (pr_rtpParameters p)
    true (pr_on_transportclose p).
Definition pr_set_listener (a : nat) (p : ProducerObj) : ProducerObj :=
  mkProducer (pr_router p) (pr_transport p) (pr_kind p) (pr_rtpParameters p)
    (pr_closed p) (Some a).
Definition tr_mark_closed (t : TransportObj) : TransportObj :=
  mkTransport (tr_router t) (tr_userId t) (tr_direction t) (tr_connected t) true.
Definition tr_mark_connected (t : TransportObj) : TransportObj :=
  mkTransport (tr_router t) (tr_userId t) (tr_direction t) true (tr_closed t).
Definition ro_mark_closed (r : RouterObj) : RouterObj :=
  mkRouter (ro_worker r) true.

(** [arr !! i], then [f] applied in place. *)
Definition arena_alter {A} (i : nat) (f : A → A) (l : list A) : list A :=
  match l !! i with
  | Some x => <[i := f x]> l
  | None => l
  end.

(** [router.canConsume({ producerId, rtpCapabilities })]: the producer is
    open on this router and the receiver supports its format. *)
Definition canConsume (e : Engine) (router producerId : nat)
    (caps : RtpCapabilities) : bool :=
  match e_producers e !! producerId with
  | Some p =>
      negb (pr_closed p) && bool_decide (pr_router p = router)
        && bool_decide (pr_rtpParameters p ∈ caps)
  | None => false
  end.

(** ** The state of [MediaService] *)

Record Participant := mkParticipant {
  p_id : string;
  p_transports : list (nat * nat);
  p_producers : list (nat * nat);
  p_consumers : list (nat * nat);
  p_joinedAt : Z
}.

Record Room := mkRoom {
  r_id : string;
  r_router : nat;
  r_participants : list (string * nat);
  r_createdAt : Z;
  r_workerIndex : Z
}.

(** [this.workerIndex] is a JavaScript number: [x % 0] is [NaN]. *)
Inductive JsIndex :=
| Idx (i : nat)
| NaN.

Record MState := mkMState {
  workers : list (option nat);
  workerIndex : JsIndex;
  rooms : list (string * Room);
  heap : list Participant;
  engine : Engine
}.

(** The constructor of [MediaService]. *)
Definition mstate0 : MState := mkMState [] (Idx 0) [] [] engine0.

Definition set_workers (f : list (option nat) → list (option nat)) (s : MState) :=
  mkMState (f (workers s)) (workerIndex s) (rooms s) (heap s) (engine s).
Definition set_workerIndex (i : JsIndex) (s : MState) :=
  mkMState (workers s) i (rooms s) (heap s) (engine s).
Definition set_rooms (f : list (string * Room) → list (string * Room)) (s : MState) :=
  mkMState (workers s) (workerIndex s) (f (rooms s)) (heap s) (engine s).
Definition set_heap (f : list Participant → list Participant) (s : MState) :=
  mkMState (workers s) (workerIndex s) (rooms s) (f (heap s)) (engine s).
Definition set_engine (f : Engine → Engine) (s : MState) :=
  mkMState (workers s) (workerIndex s) (rooms s) (heap s) (f (engine s)).

Definition p_set_transports (f : list (nat * nat) → list (nat * nat)) (p : Participant) :=
  mkParticipant (p_id p) (f (p_transports p)) (p_producers p) (p_consumers p) (p_joinedAt p).
Definition p_set_producers (f : list (nat * nat) → list (nat * nat)) (p : Participant) :=
  mkParticipant (p_id p) (p_transports p) (f (p_producers p)) (p_consumers p) (p_joinedAt p).
Definition p_set_consumers (f : list (nat * nat) → list (nat * nat)) (p : Participant) :=
  mkParticipant (p_id p) (p_transports p) (p_producers p) (f (p_consumers p)) (p_joinedAt p).
Definition r_set_participants (f : list (string * nat) → list (string * nat)) (r : Room) :=
  mkRoom (r_id r) (r_router r) (f (r_participants r)) (r_createdAt r) (r_workerIndex r).

(** Mutation of the room object registered under [roomId]. *)
Definition update_room (roomId : string) (f : Room → Room) (s : MState) : MState :=
  match JsMap.get roomId (rooms s) with
  | Some r => set_rooms (JsMap.set roomId (f r)) s
  | None => s
  end.

(** ** Closing engine objects and the listeners of the service *)

Definition heap_alter (a : nat) (f : Participant → Participant) (s : MState) : MState :=
  set_heap (arena_alter a f) s.

(** [consumer.close()]: idempotent. *)
Definition consumer_close (c : nat) (s : MState) : MState :=
  set_engine (set_e_consumers (arena_alter c co_mark_closed)) s.

(** The body of both listeners registered in [consume]:
    [consumer.close(); participant.consumers.delete(consumer.id)],
    where [participant] is the object at address [a]. *)
Definition consumer_listener (a c : nat) (s : MState) : MState :=
  heap_alter a (p_set_consumers (JsMap.delete c)) (consumer_close c s).

Inductive ConsumerEvent := EvTransportClose | EvProducerClose.

Definition co_listener (ev : ConsumerEvent) (co : ConsumerObj) : option nat :=
  match ev with
  | EvTransportClose => co_on_transportclose co
  | EvProducerClose => co_on_producerclose co
  end.

(** The engine tells an open consumer that its transport or its producer is
    gone: the consumer becomes closed, then its listener runs. *)
Definition notify_consumer (ev : ConsumerEvent) (s : MState) (c : nat) : MState :=
  match e_consumers (engine s) !! c with
  | Some co =>
      if co_closed co then s
      else
        let s1 := set_engine (set_e_consumers (arena_alter c co_mark_closed)) s in
        match co_listener ev co with
        | Some a => consumer_listener a c s1
        | None => s1
        end
  | None => s
  end.

Definition consumers_of_producer (p : nat) (s : MState) : list nat :=
  List.filter
    (λ c, match e_consumers (engine s) !! c with
          | Some co => bool_decide (co_producer co = p)
          | None => false
          end)
    (seq 0 (length (e_consumers (engine s)))).

Definition consumers_of_transport (t : nat) (s : MState) : list nat :=
  List.filter
    (λ c, match e_consumers (engine s) !! c with
          | Some co => bool_decide (co_transport co = t)
          | None => false
          end)
    (seq 0 (length (e_consumers (engine s)))).

Definition producers_of_transport (t : nat) (s : MState) : list nat :=
  List.filter
    (λ p, match e_producers (engine s) !! p with
          | Some po => bool_decide (pr_transport po = t)
          | None => false
          end)
    (seq 0 (length (e_producers (engine s)))).

Definition transports_of_router (r : nat) (s : MState) : list nat :=
  List.filter
    (λ t, match e_transports (engine s) !! t with
          | Some tr => bool_decide (tr_router tr = r)
          | None => false
          end)
    (seq 0 (length (e_transports (engine s)))).

(** [producer.close()]: idempotent; every consumer of the producer receives
    [producerclose]. *)
Definition producer_close (p : nat) (s : MState) : MState :=
  match e_producers (engine s) !! p with
  | Some po =>
      if pr_closed po then s
      else
        let s1 := set_engine (set_e_producers (arena_alter p pr_mark_closed)) s in
        foldl (notify_consumer EvProducerClose) s1 (consumers_of_producer p s1)
  | None => s
  end.

(** The listener registered in [produce]:
    [producer.close(); participant.producers.delete(producer.id)]. *)
Definition producer_listener (a p : nat) (s : MState) : MState :=
  heap_alter a (p_set_producers (JsMap.delete p)) (producer_close p s).

(** The engine tells an open producer that its transport is gone: the
    producer becomes closed, its listener runs, and its consumers receive
    [producerclose]. *)
Definition notify_producer (s : MState) (p : nat) : MState :=
  match e_producers (engine s) !! p with
  | Some po =>
      if pr_closed po then s
      else
        let s1 := set_engine (set_e_producers (arena_alter p pr_mark_closed)) s in
        let s2 := match pr_on_transportclose po with
                  | Some a => producer_listener a p s1
                  | None => s1
                  end in
        foldl (notify_consumer EvProducerClose) s2 (consumers_of_producer p s2)
  | None => s
  end.

(** [transport.close()]: idempotent; the producers and the consumers carried
    by the transport receive [transportclose]. *)
Definition transport_close (s : MState) (t : nat) : MState :=
  match e_transports (engine s) !! t with
  | Some tr =>
      if tr_closed tr then s
      else
        let s1 := set_engine (set_e_transports (arena_alter t tr_mark_closed)) s in
        let s2 := foldl notify_producer s1 (producers_of_transport t s1) in
        foldl (notify_consumer EvTransportClose) s2 (consumers_of_transport t s2)
  | None => s
  end.

(** [router.close()]: every transport of the router is closed with it. *)
Definition router_close (r : nat) (s : MState) : MState :=
  let s1 := set_engine (set_e_routers (arena_alter r ro_mark_closed)) s in
  foldl transport_close s1 (transports_of_router r s1).

(** ** Engine calls made by the service *)

Definition engine_createWorker : Eff MState nat :=
  do s <- get_state;
  let w := e_workers (engine s) in
  run modify (set_engine (set_e_workers (S w)));
  ret w.

Definition engine_createRouter (worker : nat) : Eff MState nat :=
  do s <- get_state;
  let r := length (e_routers (engine s)) in
  run modify (set_engine (set_e_routers (λ l, l ++ [mkRouter worker false])));
  ret r.

Definition engine_createWebRtcTransport (router : nat) (userId direction : string)
    : Eff MState nat :=
  do s <- get_state;
  let t := length (e_transports (engine s)) in
  run modify (set_engine (set_e_transports
                (λ l, l ++ [mkTransport router userId direction false false])));
  ret t.

Definition engine_connect (t : nat) : Eff MState unit :=
  modify (set_engine (set_e_transports (arena_alter t tr_mark_connected))).

Definition engine_produce (t : nat) (kind : string) (rtp : RtpParameters)
    : Eff MState nat :=
  do s <- get_state;
  let p := length (e_producers (engine s)) in
  let router := match e_transports (engine s) !! t with
                | Some tr => tr_router tr
                | None => 0%nat
                end in
  run modify (set_engine (set_e_producers
                (λ l, l ++ [mkProducer router t kind rtp false None])));
  ret p.

(** [transport.consume({ producerId, rtpCapabilities, paused: true, ... })]:
    the consumer takes its kind and format from the producer. *)
Definition new_consumer (e : Engine) (t producerId : nat) : ConsumerObj :=
  match e_producers e !! producerId with
  | Some po =>
      mkConsumer t producerId (pr_kind po) (pr_rtpParameters po) true false None None
  | None => mkConsumer t producerId "" "" true false None None
  end.

Definition engine_consume (t producerId : nat) : Eff MState (nat * ConsumerObj) :=
  do s <- get_state;
  let c := length (e_consumers (engine s)) in
  let co := new_consumer (engine s) t producerId in
  run modify (set_engine (set_e_consumers (λ l, l ++ [co])));
  ret (c, co).

Definition engine_resume (c : nat) : Eff MState unit :=
  modify (set_engine (set_e_consumers (arena_alter c (co_set_paused false)))).

(** ** [MediaService]: the worker pool *)

(** [arr[i] = x] on a JavaScript array: past the end the array grows and the
    skipped slots stay empty. *)
Definition array_set {A} (i : nat) (x : A) (l : list (option A)) : list (option A) :=
  if decide (i < length l)%nat then <[i := Some x]> l
  else l ++ replicate (i - length l)%nat None ++ [Some x].

(** [arr[i]], [undefined] being [None]. *)
Definition array_get {A} (i : nat) (l : list (option A)) : option A :=
  mjoin (l !! i).

Fixpoint indexOf_from (i : nat) (w : nat) (l : list (option nat)) : Z :=
  match l with
  | [] => -1
  | x :: l' => if decide (x = Some w) then Z.of_nat i else indexOf_from (S i) w l'
  end.

Definition indexOf (w : nat) (l : list (option nat)) : Z := indexOf_from 0 w l.

Fixpoint for_each {S A} (l : list A) (body : A → Eff S unit) : Eff S unit :=
  match l with
  | [] => ret tt
  | x :: l' => run body x; for_each l' body
  end.

Definition createWorker (index : nat) : Eff MState nat :=
  try_catch
    (do worker <- engine_createWorker;
     run modify (set_workers (array_set index worker));
     ret worker)
    (λ e, run log LError (MsgFailure "Failed to create worker" e); throw e).

Definition initialize (cpus : nat) : Eff MState unit :=
  let numWorkers := Nat.min cpus 8 in
  run log LInfo (MsgCreatingWorkers numWorkers);
  run for_each (seq 0 numWorkers) (λ i, run createWorker i; ret tt);
  do s <- get_state;
  log LInfo (MsgInitialized (length (workers s))).

(** [(this.workerIndex + 1) % this.workers.length] *)
Definition next_index (i : JsIndex) (len : nat) : JsIndex :=
  match i with
  | Idx n => if decide (len = 0%nat) then NaN else Idx (S n mod len)
  | NaN => NaN
  end.

Definition getNextWorker : Eff MState (option nat) :=
  do s <- get_state;
  let worker := match workerIndex s with
                | Idx i => array_get i (workers s)
                | NaN => None
                end in
  run modify (set_workerIndex (next_index (workerIndex s) (length (workers s))));
  ret worker.

(** ** [MediaService]: rooms, transports, producers, consumers *)

Definition createRoom (roomId : string) : Eff MState Room :=
  do s <- get_state;
  match JsMap.get roomId (rooms s) with
  | Some room => ret room
  | None =>
      do worker <- getNextWorker;
      match worker with
      | None =>
          throw (TypeError "Cannot read properties of undefined (reading 'createRouter')")
      | Some w =>
          do router <- engine_createRouter w;
          do t <- date_now;
          do s' <- get_state;
          let room := mkRoom roomId router [] t (indexOf w (workers s')) in
          run modify (set_rooms (JsMap.set roomId room));
          run log LInfo (MsgRoomCreated roomId (r_workerIndex room));
          ret room
      end
  end.

Record TransportData := mkTransportData { td_id : nat }.

Definition heap_alloc (p : Participant) : Eff MState nat :=
  do s <- get_state;
  let a := length (heap s) in
  run modify (set_heap (λ h, h ++ [p]));
  ret a.

Definition createWebRtcTransport (roomId userId direction : string)
    : Eff MState TransportData :=
  try_catch
    (do room <- createRoom roomId;
     do transport <- engine_createWebRtcTransport (r_router room) userId direction;
     do participant <-
       match JsMap.get userId (r_participants room) with
       | Some a => ret a
       | None =>
           do t <- date_now;
           do a <- heap_alloc (mkParticipant userId [] [] [] t);
           run modify (update_room roomId (r_set_participants (JsMap.set userId a)));
           ret a
       end;
     run modify (heap_alter participant (p_set_transports (JsMap.set transport transport)));
     ret (mkTransportData transport))
    (λ e, run log LError (MsgFailedTransport userId e); throw e).

(** The look-ups that open most operations.  A participant entry of a room
    holds the address of the participant object; the object is always in
    the store, the last branch of [lookup_participant] is never taken from
    a reachable state (see [well_formed_reachable]). *)
Definition lookup_room (roomId : string) : Eff MState Room :=
  do s <- get_state;
  match JsMap.get roomId (rooms s) with
  | Some room => ret room
  | None => throw (Error "Room not found")
  end.

Definition lookup_participant (room : Room) (userId : string)
    : Eff MState (nat * Participant) :=
  do s <- get_state;
  match JsMap.get userId (r_participants room) with
  | Some a =>
      match heap s !! a with
      | Some p => ret (a, p)
      | None => throw (Error "Participant not found")
      end
  | None => throw (Error "Participant not found")
  end.

Definition connectTransport (roomId userId : string) (transportId : nat)
    : Eff MState unit :=
  do room <- lookup_room roomId;
  do '(a, participant) <- lookup_participant room userId;
  match JsMap.get transportId (p_transports participant) with
  | None => throw (Error "Transport not found")
  | Some transport =>
      run engine_connect transport;
      log LInfo (MsgTransportConnected transportId userId)
  end.

Definition produce (roomId userId : string) (transportId : nat)
    (rtpParameters : RtpParameters) (kind : string) : Eff MState nat :=
  do room <- lookup_room roomId;
  do '(a, participant) <- lookup_participant room userId;
  match JsMap.get transportId (p_transports participant) with
  | None => throw (Error "Transport not found")
  | Some transport =>
      do producer <- engine_produce transport kind rtpParameters;
      run modify (heap_alter a (p_set_producers (JsMap.set producer producer)));
      run modify (set_engine (set_e_producers (arena_alter producer (pr_set_listener a))));
      run log LInfo (MsgProducerCreated producer kind userId);
      ret producer
  end.

(** [for (const p of room.participants.values())
       if (p.producers.has(producerId)) { producer = ...; break }] *)
Fixpoint find_producer (h : list Participant) (producerId : nat)
    (ps : list nat) : option nat :=
  match ps with
  | [] => None
  | a :: ps' =>
      match h !! a with
      | Some p =>
          if JsMap.has producerId (p_producers p)
          then JsMap.get producerId (p_producers p)
          else find_producer h producerId ps'
      | None => find_producer h producerId ps'
      end
  end.

(** [for (const transport of participant.transports.values())
       if (transport.appData.direction === 'recv') { ...; break }] *)
Fixpoint find_recv (e : Engine) (ts : list nat) : option nat :=
  match ts with
  | [] => None
  | t :: ts' =>
      match e_transports e !! t with
      | Some tr => if decide (tr_direction tr = "recv") then Some t else find_recv e ts'
      | None => find_recv e ts'
      end
  end.

Record ConsumerData := mkConsumerData {
  cd_id : nat;
  cd_kind : string;
  cd_rtpParameters : RtpParameters;
  cd_producerId : nat
}.

Definition consume (roomId userId : string) (producerId : nat)
    (rtpCapabilities : RtpCapabilities) : Eff MState ConsumerData :=
  do room <- lookup_room roomId;
  do '(a, participant) <- lookup_participant room userId;
  do s <- get_state;
  match find_producer (heap s) producerId (JsMap.values (r_participants room)) with
  | None => throw (Error "Producer not found")
  | Some producer =>
      if negb (canConsume (engine s) (r_router room) producerId rtpCapabilities)
      then throw (Error "Cannot consume this producer")
      else
        match find_recv (engine s) (JsMap.values (p_transports participant)) with
        | None => throw (Error "No receive transport found")
        | Some recvTransport =>
            do '(consumer, co) <- engine_consume recvTransport producerId;
            run modify (heap_alter a (p_set_consumers (JsMap.set consumer consumer)));
            run modify (set_engine
                          (set_e_consumers (arena_alter consumer (co_set_listeners a))));
            run log LInfo (MsgConsumerCreated consumer userId);
            ret (mkConsumerData consumer (co_kind co) (co_rtpParameters co)
                   (co_producer co))
        end
  end.

Definition resumeConsumer (roomId userId : string) (consumerId : nat)
    : Eff MState unit :=
  do room <- lookup_room roomId;
  do '(a, participant) <- lookup_participant room userId;
  match JsMap.get consumerId (p_consumers participant) with
  | None => throw (Error "Consumer not found")
  | Some consumer =>
      run engine_resume consumer;
      log LInfo (MsgConsumerResumed consumerId userId)
  end.

Definition closeParticipant (roomId userId : string) : Eff MState unit :=
  do s <- get_state;
  match JsMap.get roomId (rooms s) with
  | None => ret tt
  | Some room =>
      match JsMap.get userId (r_participants room) with
      | None => ret tt
      | Some a =>
          let transports := match heap s !! a with
                            | Some p => JsMap.values (p_transports p)
                            | None => []
                            end in
          run modify (λ s, foldl transport_close s transports);
          run modify (update_room roomId (r_set_participants (JsMap.delete userId)));
          run log LInfo (MsgParticipantRemoved userId roomId);
          if decide (JsMap.size (JsMap.delete userId (r_participants room)) = 0%nat)
          then
            run modify (router_close (r_router room));
            run modify (set_rooms (JsMap.delete roomId));
            log LInfo (MsgRoomClosedEmpty roomId)
          else ret tt
      end
  end.

(** * The orchestrator: [StreamService] and its collaborators *)

(** ** JSON values and objects *)

Inductive JVal :=
| JUndefined
| JNull
| JBool (b : bool)
| JNum (n : Z)
| JNaN
| JStr (s : string)
| JIso (ms : Z)      (* [new Date(ms).toISOString()] *)
| JDate (ms : Z).    (* [new Date(ms)] *)

#[local] Instance JVal_eq_dec : EqDecision JVal.
Proof. solve_decision. Defined.

Abbreviation JObject := (gmap string JVal) (only parsing).

Definition truthy (v : JVal) : bool :=
  match v with
  | JUndefined | JNull | JNaN => false
  | JBool b => b
  | JNum n => negb (n =? 0)
  | JStr s => negb (bool_decide (s = ""))
  | JIso _ | JDate _ => true
  end.

(** [a || b] *)
Definition js_or (a b : JVal) : JVal := if truthy a then a else b.

(** [o.k] *)
Definition field (o : gmap string JVal) (k : string) : JVal :=
  default JUndefined (o !! k).

(** [parseInt(v)] of what Redis returns for a counter. *)
Definition parseInt (v : JVal) : JVal :=
  match v with
  | JNum n => JNum n
  | _ => JNaN
  end.

(** [Date.now() - new Date(v).getTime()] *)
Definition elapsed_since (t : Z) (v : JVal) : JVal :=
  match v with
  | JIso ms | JDate ms | JNum ms => JNum (t - ms)
  | _ => JNaN
  end.

(** ** [CacheService] over Redis *)

Record Cache := mkCache {
  c_hashes : gmap string (gmap string JVal);
  c_sets : gmap string (gset string);
  c_lists : gmap string (list string);
  c_published : list (string * gmap string JVal)
}.

Definition set_c_hashes (f : gmap string (gmap string JVal) → gmap string (gmap string JVal))
    (c : Cache) : Cache :=
  mkCache (f (c_hashes c)) (c_sets c) (c_lists c) (c_published c).
Definition set_c_sets (f : gmap string (gset string) → gmap string (gset string))
    (c : Cache) : Cache :=
  mkCache (c_hashes c) (f (c_sets c)) (c_lists c) (c_published c).
Definition set_c_lists (f : gmap string (list string) → gmap string (list string))
    (c : Cache) : Cache :=
  mkCache (c_hashes c) (c_sets c) (f (c_lists c)) (c_published c).
Definition set_c_published
    (f : list (string * gmap string JVal) → list (string * gmap string JVal))
    (c : Cache) : Cache :=
  mkCache (c_hashes c) (c_sets c) (c_lists c) (f (c_published c)).

Definition stream_key (streamId : string) : string := String.append "stream:" streamId.
Definition viewers_key (streamId : string) : string :=
  String.append (stream_key streamId) ":viewers".
Definition chat_key (streamId : string) : string :=
  String.append (stream_key streamId) ":chat".
Definition stats_key (streamId : string) : string :=
  String.append (stream_key streamId) ":stats".
Definition views_key (streamId : string) : string :=
  String.append "analytics:views:" streamId.

(** [hgetall key]: the hash, empty when the key is absent. *)
Definition hgetall (c : Cache) (key : string) : gmap string JVal :=
  default ∅ (c_hashes c !! key).

Definition cache_getStream (streamId : string) : Eff Cache (option (gmap string JVal)) :=
  do c <- get_state;
  let streamData := hgetall c (stream_key streamId) in
  if decide (size streamData = 0%nat) then ret None else ret (Some streamData).

(** One [hset] per entry of [streamData]. *)
Definition cache_updateStream (streamId : string) (streamData : gmap string JVal)
    : Eff Cache unit :=
  run modify (set_c_hashes
                (λ h, <[stream_key streamId := streamData ∪ default ∅ (h !! stream_key streamId)]> h));
  log LDebug (MsgText "Stream updated").

Definition cache_deleteStream (streamId : string) : Eff Cache unit :=
  run modify (set_c_hashes (delete (stream_key streamId)));
  run modify (set_c_sets (delete (viewers_key streamId)));
  run modify (set_c_lists (delete (chat_key streamId)));
  run modify (set_c_hashes (delete (stats_key streamId)));
  run modify (set_c_sets
                (λ m, match m !! "active:streams" with
                      | Some act => <["active:streams" := act ∖ {[streamId]}]> m
                      | None => m
                      end));
  log LDebug (MsgText "Stream deleted").

Definition scard (c : Cache) (key : string) : Z :=
  Z.of_nat (size (default ∅ (c_sets c !! key))).

Definition cache_getStreamStats (streamId : string) : Eff Cache (gmap string JVal) :=
  do c <- get_state;
  let viewers := JNum (scard c (viewers_key streamId)) in
  let views := default JNull (hgetall c (views_key streamId) !! "count") in
  let chatCount := JNum (Z.of_nat (length (default [] (c_lists c !! chat_key streamId)))) in
  let stats := hgetall c (stats_key streamId) in
  ret (stats ∪ <["viewers" := parseInt viewers]>
                 (<["views" := parseInt views]>
                    (<["chatCount" := parseInt chatCount]> ∅))).

Definition cache_removeViewer (streamId userId : string) : Eff Cache Z :=
  run modify (set_c_sets
                (λ m, match m !! viewers_key streamId with
                      | Some vs => <[viewers_key streamId := vs ∖ {[userId]}]> m
                      | None => m
                      end));
  do c <- get_state;
  let count := scard c (viewers_key streamId) in
  do t <- date_now;
  run modify (set_c_published
                (λ l, l ++ [("viewer.count",
                             <["streamId" := JStr streamId]>
                               (<["count" := JNum count]>
                                  (<["action" := JStr "left"]>
                                     (<["userId" := JStr userId]>
                                        (<["timestamp" := JNum t]> ∅)))))]));
  run log LDebug (MsgText "Viewer removed");
  ret count.

(** ** The persistence collaborator (the [Stream] collection) *)

Abbreviation Db := (gmap string (gmap string JVal)) (only parsing).

(** [new Stream(doc).save()] *)
Definition db_save (id : string) (doc : gmap string JVal) : Eff Db unit :=
  λ env st,
    if db_fails env then (Throw (Error "persistence failure"), st)
    else (Ok tt, (<[id := doc]> (fst st), snd st)).

(** [Stream.updateOne({ id }, update)] *)
Definition db_updateOne (id : string) (update : gmap string JVal) : Eff Db unit :=
  λ env st,
    if db_fails env then (Throw (Error "persistence failure"), st)
    else (Ok tt,
          (match fst st !! id with
           | Some doc => <[id := update ∪ doc]> (fst st)
           | None => fst st
           end, snd st)).

(** ** [MessageQueue] over the event bus *)

Record Mq := mkMq {
  mq_channel : bool;
  mq_published : list (string * string * gmap string JVal)
}.

(** [this.channel.publish(exchange, routingKey, message)] *)
Definition channel_publish (exchange routingKey : string) (message : gmap string JVal)
    : Eff Mq unit :=
  λ env st,
    if mq_fails env then (Throw (Error "event bus failure"), st)
    else (Ok tt,
          (mkMq (mq_channel (fst st))
             (mq_published (fst st) ++ [(exchange, routingKey, message)]),
           snd st)).

(** The three publish methods of [MessageQueue] differ in the exchange, the
    routing key, the field added to the message and the texts they log. *)
Definition publish_via (exchange routingKey : string) (extraKey : string)
    (extra : JVal) (data : gmap string JVal)
    (noChannel done failed : string) : Eff Mq unit :=
  do q <- get_state;
  if negb (mq_channel q)
  then log LError (MsgText noChannel)
  else
    try_catch
      (do t <- date_now;
       let message := <[extraKey := extra]> (<["timestamp" := JIso t]> data) in
       run channel_publish exchange routingKey message;
       log LDebug (MsgText done))
      (λ e, log LError (MsgFailure failed e)).

Definition publishStreamEvent (event : string) (data : gmap string JVal) : Eff Mq unit :=
  publish_via "stream.events" (String.append "stream." event) "eventType" (JStr event)
    data "RabbitMQ channel not initialized" "Stream event published"
    "Error publishing stream event".

Definition publishAnalyticsEvent (event : string) (data : gmap string JVal) : Eff Mq unit :=
  publish_via "analytics.events" event "eventType" (JStr event)
    data "Cannot publish: RabbitMQ channel not available" "Analytics event published"
    "Error publishing analytics event:".

Definition publishUserPresence (action : string) (data : gmap string JVal) : Eff Mq unit :=
  publish_via "user.presence" (String.append "user." action) "action" (JStr action)
    data "Cannot publish: RabbitMQ channel not available" "User presence published"
    "Error publishing user presence:".

(** ** The state of the whole service *)

Record World := mkWorld {
  w_media : MState;
  w_cache : Cache;
  w_db : gmap string (gmap string JVal);
  w_mq : Mq;
  (** pending [setTimeout] callbacks of [endStream]: due time and stream *)
  w_timers : list (Z * string)
}.

Definition set_w_media (m : MState) (w : World) : World :=
  mkWorld m (w_cache w) (w_db w) (w_mq w) (w_timers w).
Definition set_w_cache (c : Cache) (w : World) : World :=
  mkWorld (w_media w) c (w_db w) (w_mq w) (w_timers w).
Definition set_w_db (d : gmap string (gmap string JVal)) (w : World) : World :=
  mkWorld (w_media w) (w_cache w) d (w_mq w) (w_timers w).
Definition set_w_mq (q : Mq) (w : World) : World :=
  mkWorld (w_media w) (w_cache w) (w_db w) q (w_timers w).
Definition set_w_timers (f : list (Z * string) → list (Z * string)) (w : World) : World :=
  mkWorld (w_media w) (w_cache w) (w_db w) (w_mq w) (f (w_timers w)).

Definition mediaService {A} (m : Eff MState A) : Eff World A := lift w_media set_w_media m.
Definition cacheService {A} (m : Eff Cache A) : Eff World A := lift w_cache set_w_cache m.
Definition database {A} (m : Eff Db A) : Eff World A := lift w_db set_w_db m.
Definition messageQueue {A} (m : Eff Mq A) : Eff World A := lift w_mq set_w_mq m.

(** [setTimeout(() => cacheService.deleteStream(streamId), delay)] *)
Definition setTimeout_deleteStream (streamId : string) (delay : Z) : Eff World unit :=
  do t <- date_now;
  modify (set_w_timers (λ l, l ++ [(t + delay, streamId)])).

(** The event loop runs every callback that is due at the current time. *)
Fixpoint run_due (t : Z) (timers : list (Z * string)) : Eff World unit :=
  match timers with
  | [] => ret tt
  | (due, streamId) :: rest =>
      if due <=? t
      then run cacheService (cache_deleteStream streamId); run_due t rest
      else run_due t rest
  end.

Definition run_timers : Eff World unit :=
  λ env st,
    let t := now env in
    let timers := w_timers (fst st) in
    run_due t timers env
      (set_w_timers (λ _, List.filter (λ d, negb (fst d <=? t)) timers) (fst st), snd st).

(** ** [StreamService] *)

Definition js_obj (l : list (string * JVal)) : gmap string JVal := list_to_map l.

Section StreamService.

(** [CacheService] as it stands under [src/] has no method [createStream],
    although [StreamService.createStream] calls it; the call is kept as a
    parameter.  It sees the clock and the cache, nothing else. *)
Variable cache_createStream :
  string → gmap string JVal → Z → Cache → Result unit * Cache * Log.

(** [uuidv4()] is the argument [streamId]. *)
Definition createStream (streamId userId : string) (streamData : gmap string JVal)
    : Eff World (gmap string JVal) :=
  try_catch
    (do t <- date_now;
     let stream :=
       js_obj [("id", JStr streamId);
               ("userId", JStr userId);
               ("title", field streamData "title");
               ("description", js_or (field streamData "description") (JStr ""));
               ("category", js_or (field streamData "category") (JStr ""));
               ("isLive", JBool false);
               ("isPrivate", js_or (field streamData "isPrivate") (JBool false));
               ("createdAt", JIso t);
               ("viewers", JNum 0);
               ("maxViewers", JNum 0);
               ("totalViews", JNum 0);
               ("chatEnabled",
                JBool (negb (bool_decide (field streamData "chatEnabled" = JBool false))));
               ("recordingEnabled",
                js_or (field streamData "recordingEnabled") (JBool false))] in
     run mediaService (createRoom streamId);
     run cacheService
           (λ env st,
              match cache_createStream streamId stream (now env) (fst st) with
              | (r, c, out) => (r, (c, snd st ++ out))
              end);
     run try_catch
           (database (db_save streamId stream))
           (λ dbError, log LWarn (MsgFailure "Database save failed, continuing with cache:" dbError));
     run messageQueue (publishStreamEvent "create" stream);
     run log LInfo (MsgText "Stream created");
     ret stream)
    (λ error, run log LError (MsgFailure "Error creating stream:" error); throw error).

End StreamService.

(** What the call does with the class as it stands: calling a method that
    does not exist throws a [TypeError]. *)
Definition cache_createStream_missing (streamId : string) (stream : gmap string JVal)
    (t : Z) (c : Cache) : Result unit * Cache * Log :=
  (Throw (TypeError "this.cacheService.createStream is not a function"), c, []).

Definition createTransport (roomId userId direction : string) : Eff World TransportData :=
  try_catch
    (if negb (bool_decide (direction ∈ ["send"; "recv"]))
     then throw (Error "Invalid transport direction")
     else
       do transportData <- mediaService (createWebRtcTransport roomId userId direction);
       run log LDebug (MsgText "Transport created");
       ret transportData)
    (λ error, run log LError (MsgFailure "Error creating transport:" error); throw error).

(** [StreamService.produce] *)
Definition stream_produce (roomId userId : string) (transportId : nat)
    (rtpParameters : RtpParameters) (kind : string) : Eff World nat :=
  try_catch
    (do producer <- mediaService (produce roomId userId transportId rtpParameters kind);
     do stream <- cacheService (cache_getStream roomId);
     do t <- date_now;
     run match stream with
         | Some str =>
             if negb (truthy (field str "isLive"))
             then cacheService
                    (cache_updateStream roomId
                       (js_obj [("isLive", JBool true); ("startedAt", JIso t)]))
             else ret tt
         | None => ret tt
         end;
     run try_catch
           (database (db_updateOne roomId
                        (js_obj [("isLive", JBool true); ("startedAt", JDate t)])))
           (λ dbError, log LWarn (MsgFailure "Database update failed:" dbError));
     run messageQueue
           (publishStreamEvent "started"
              (js_obj [("streamId", JStr roomId); ("userId", JStr userId);
                       ("timestamp", JNum t)]));
     run messageQueue
           (publishAnalyticsEvent "producer.created"
              (js_obj [("streamId", JStr roomId); ("userId", JStr userId);
                       ("kind", JStr kind); ("producerId", JNum (Z.of_nat producer));
                       ("timestamp", JNum t)]));
     run log LInfo (MsgProducerCreated producer kind userId);
     ret producer)
    (λ error, run log LError (MsgFailure "Error creating producer:" error); throw error).

(** [StreamService.consume] *)
Definition stream_consume (roomId userId : string) (producerId : nat)
    (rtpCapabilities : RtpCapabilities) : Eff World ConsumerData :=
  try_catch
    (do consumerData <- mediaService (consume roomId userId producerId rtpCapabilities);
     do t <- date_now;
     run messageQueue
           (publishAnalyticsEvent "consumer.created"
              (js_obj [("streamId", JStr roomId); ("userId", JStr userId);
                       ("producerId", JNum (Z.of_nat producerId));
                       ("consumerId", JNum (Z.of_nat (cd_id consumerData)));
                       ("timestamp", JNum t)]));
     run log LDebug (MsgConsumerCreated (cd_id consumerData) userId);
     ret consumerData)
    (λ error, run log LError (MsgFailure "Error creating consumer" error); throw error).

Definition endStream (streamId userId : string) : Eff World (gmap string JVal) :=
  try_catch
    (do stream <- cacheService (cache_getStream streamId);
     match stream with
     | None => throw (Error "Stream not found")
     | Some str =>
         run mediaService (closeParticipant streamId userId);
         do finalStats <- cacheService (cache_getStreamStats streamId);
         do t <- date_now;
         let duration := if truthy (field str "startedAt")
                         then elapsed_since t (field str "startedAt")
                         else JNum 0 in
         let streamUpdate :=
           js_obj [("isLive", JBool false);
                   ("endedAt", JIso t);
                   ("duration", duration);
                   ("maxViewers", js_or (field finalStats "maxViewers") (JNum 0));
                   ("totalViews", js_or (field finalStats "views") (JNum 0));
                   ("totalChatMessages",
                    js_or (field finalStats "chatMessages") (JNum 0))] in
         run cacheService (cache_updateStream streamId streamUpdate);
         run try_catch
               (database (db_updateOne streamId
                            (<["duration" := duration]>
                               (<["endedAt" := JDate t]> streamUpdate))))
               (λ dbError, log LWarn (MsgFailure "Database update failed:" dbError));
         run messageQueue
               (publishStreamEvent "ended"
                  (js_obj [("streamId", JStr streamId); ("userId", JStr userId);
                           ("duration", duration);
                           ("maxViewers", field finalStats "maxViewers");
                           ("totalViews", field finalStats "views");
                           ("timestamp", JNum t)]));
         run messageQueue
               (publishAnalyticsEvent "stream.ended"
                  (<["timestamp" := JNum t]>
                     (<["duration" := duration]>
                        (finalStats ∪ js_obj [("streamId", JStr streamId);
                                              ("userId", JStr userId)]))));
         run log LInfo (MsgText "Stream ended");
         run setTimeout_deleteStream streamId 30000;
         ret streamUpdate
     end)
    (λ error, run log LError (MsgFailure "Error ending stream:" error); throw error).

Definition handleUserDisconnect (streamId userId : string) : Eff World unit :=
  try_catch
    (run cacheService (cache_removeViewer streamId userId);
     run mediaService (closeParticipant streamId userId);
     do t <- date_now;
     run messageQueue
           (publishUserPresence "left"
              (js_obj [("userId", JStr userId); ("streamId", JStr streamId);
                       ("timestamp", JNum t)]));
     log LDebug (MsgText "User disconnected"))
    (λ error, log LError (MsgFailure "Error handling user disconnect" error)).

(** * The rest of the services *)

(** ** [MediaService]: workers that die, shutdown, statistics *)

Definition routers_of_worker (w : nat) (s : MState) : list nat :=
  List.filter
    (λ r, match e_routers (engine s) !! r with
          | Some ro => bool_decide (ro_worker ro = w)
          | None => false
          end)
    (seq 0 (length (e_routers (engine s)))).

(** [worker.close()]: every router of the worker is closed with it. *)
Definition worker_close (s : MState) (w : nat) : MState :=
  foldl (λ s r, router_close r s) s (routers_of_worker w s).

Definition respawnWorker (index : nat) : Eff MState unit :=
  try_catch
    (do s <- get_state;
     run match array_get index (workers s) with
         | Some w => modify (λ s, worker_close s w)
         | None => ret tt
         end;
     run createWorker index;
     log LInfo (MsgText "Worker respawned successfully"))
    (λ e, log LError (MsgFailure "Failed to respawn worker" e)).

(** The listener [createWorker] puts on the worker's [died] event. *)
Definition on_worker_died (index : nat) : Eff MState unit :=
  run log LError (MsgText "Worker died, respawning...");
  respawnWorker index.

Record RoomStats := mkRoomStats {
  rs_id : string;
  rs_participants : nat;
  rs_createdAt : Z;
  rs_uptime : Z;
  rs_workerIndex : Z
}.

Definition getRoomStats (roomId : string) : Eff MState (option RoomStats) :=
  do s <- get_state;
  match JsMap.get roomId (rooms s) with
  | None => ret None
  | Some room =>
      do t <- date_now;
      ret (Some (mkRoomStats roomId (JsMap.size (r_participants room))
                   (r_createdAt room) (t - r_createdAt room) (r_workerIndex room)))
  end.

(** [for (const x of xs) out.push(f(x))] *)
Fixpoint collect {S A B} (l : list A) (f : A → Eff S B) : Eff S (list B) :=
  match l with
  | [] => ret []
  | x :: l' => do y <- f x; do ys <- collect l' f; ret (y :: ys)
  end.

Definition getAllRoomStats : Eff MState (list (option RoomStats)) :=
  do s <- get_state;
  collect (JsMap.keys (rooms s)) getRoomStats.

(** [cleanup()] *)
Definition cleanup : Eff MState unit :=
  run log LInfo (MsgText "Cleaning up MediaService...");
  do s <- get_state;
  run for_each (JsMap.values (rooms s)) (λ room, modify (router_close (r_router room)));
  run modify (set_rooms (λ _, []));
  do s' <- get_state;
  run for_each (workers s')
        (λ worker,
           match worker with
           | Some w => modify (λ s, worker_close s w)
           | None =>
               log LError
                 (MsgFailure "Error closing worker:"
                    (TypeError "Cannot read properties of undefined (reading 'close')"))
           end);
  modify (set_workers (λ _, [])).

(** [getOptimizedCodecs()] *)
Record Codec := mkCodec {
  codec_kind : string;
  codec_mimeType : string;
  codec_preferredPayloadType : Z;
  codec_clockRate : Z;
  codec_channels : option Z;
  codec_parameters : list (string * JVal)
}.

Definition getOptimizedCodecs : list Codec :=
  [mkCodec "audio" "audio/opus" 111 48000 (Some 2)
     [("sprop-stereo", JNum 1); ("useinbandfec", JNum 1)];
   mkCodec "video" "video/VP8" 96 90000 None [];
   mkCodec "video" "video/h264" 102 90000 None
     [("packetization-mode", JNum 1); ("profile-level-id", JStr "42e01f")]].

Record HeaderExtension := mkHeaderExtension {
  he_kind : string;
  he_uri : string;
  he_preferredId : Z;
  he_preferredEncrypt : bool;
  he_direction : string
}.

Record RouterCapabilities := mkRouterCapabilities {
  rc_codecs : list Codec;
  rc_headerExtensions : list HeaderExtension
}.

Definition getRouterCapabilities : Eff MState RouterCapabilities :=
  do s <- get_state;
  if decide (length (workers s) = 0%nat)
  then throw (Error "No workers available")
  else
    ret (mkRouterCapabilities getOptimizedCodecs
           [mkHeaderExtension "audio" "urn:ietf:params:rtp-hdrext:ssrc-audio-level"
              1 false "sendrecv";
            mkHeaderExtension "video" "urn:ietf:params:rtp-hdrext:toffset"
              2 false "sendrecv";
            mkHeaderExtension "video"
              "http://www.webrtc.org/experiments/rtp-hdrext/abs-send-time"
              3 false "sendrecv";
            mkHeaderExtension "video" "urn:3gpp:video-orientation"
              4 false "sendrecv"]).

(** ** [StreamService]: the calls that only forward *)

(** [StreamService.connectTransport] *)
Definition stream_connectTransport (roomId userId : string) (transportId : nat)
    : Eff World unit :=
  try_catch
    (run mediaService (connectTransport roomId userId transportId);
     log LDebug (MsgTransportConnected transportId userId))
    (λ error, run log LError (MsgFailure "Error connecting transport:" error); throw error).

(** [StreamService.resumeConsumer] *)
Definition stream_resumeConsumer (roomId userId : string) (consumerId : nat)
    : Eff World unit :=
  try_catch
    (run mediaService (resumeConsumer roomId userId consumerId);
     log LDebug (MsgConsumerResumed consumerId userId))
    (λ error, run log LError (MsgFailure "Error resuming consumer:" error); throw error).

(** ** [MessageQueue]: chat messages and reconnection *)

(** Reading a variable that is declared nowhere. *)
Definition undeclared {S A} (name : string) : Eff S A :=
  throw (Error (String.append "ReferenceError: " (String.append name " is not defined"))).

(** [publishChatMessage(message)]: the object it builds spreads [data], a
    name that neither the method nor the module declares. *)
Definition publishChatMessage (message : gmap string JVal) : Eff Mq unit :=
  do q <- get_state;
  if negb (mq_channel q)
  then log LError (MsgText "RabbitMQ channel not initialized")
  else
    try_catch
      (do data <- undeclared "data";
       do t <- date_now;
       let message := <["publishedAt" := JIso t]> data in
       run channel_publish "chat.messages" "" message;
       log LDebug (MsgText "Chat message published"))
      (λ e, log LError (MsgFailure "Error publishing chat message:" e)).

(** The connection side of [MessageQueue].  [connect] resets a field named
    [reconnectAttemts]; [handleReconnect] counts in [reconnectAttempts]. *)
Record MqClient := mkMqClient {
  mc_connection : bool;
  mc_channel : bool;
  mc_reconnectAttempts : nat;
  mc_reconnectAttemts : option nat;
  (** pending [setTimeout(() => this.connect(), ...)]: the due times *)
  mc_timers : list Z
}.

Definition reconnectDelay : Z := 5000.
Definition maxReconnectAttemps : nat := 10.

(** The constructor. *)
Definition mq_client0 : MqClient := mkMqClient false false 0 None [].

Definition handleReconnect : Eff MqClient unit :=
  do c <- get_state;
  if decide (maxReconnectAttemps ≤ mc_reconnectAttempts c)%nat
  then log LError (MsgText "Max reconnect attempts reached. Exiting...")
  else
    let attempts := S (mc_reconnectAttempts c) in
    run put_state (mkMqClient (mc_connection c) (mc_channel c) attempts
                     (mc_reconnectAttemts c) (mc_timers c));
    run log LInfo (MsgText "Attempting RabbitMQ reconnection");
    do t <- date_now;
    modify (λ c, mkMqClient (mc_connection c) (mc_channel c) (mc_reconnectAttempts c)
                   (mc_reconnectAttemts c)
                   (mc_timers c ++ [t + reconnectDelay * Z.of_nat attempts])).

(** [aqmp.connect(...)]: fails while the event bus is down. *)
Definition amqp_connect : Eff MqClient unit :=
  λ env st,
    if mq_fails env then (Throw (Error "event bus failure"), st)
    else (Ok tt, (mkMqClient true (mc_channel (fst st)) (mc_reconnectAttempts (fst st))
                    (mc_reconnectAttemts (fst st)) (mc_timers (fst st)), snd st)).

Definition connect : Eff MqClient unit :=
  try_catch
    (run amqp_connect;
     run modify (λ c, mkMqClient (mc_connection c) true (mc_reconnectAttempts c)
                        (mc_reconnectAttemts c) (mc_timers c));
     run modify (λ c, mkMqClient (mc_connection c) (mc_channel c) (mc_reconnectAttempts c)
                        (Some 0%nat) (mc_timers c));
     log LInfo (MsgText "RabbitMQ connected"))
    (λ error,
       run log LError (MsgFailure "RabbitMq connection error" error);
       handleReconnect).

(** What happens to the client: [connect] is called, the connection emits
    [error] or [close], or the event loop runs the reconnection timers that
    are due. *)
Inductive MqEvent := MqConnect | MqConnError | MqConnClose | MqTimers.

Fixpoint connect_each (due : list Z) : Eff MqClient unit :=
  match due with
  | [] => ret tt
  | _ :: rest => run connect; connect_each rest
  end.

Definition mq_event (ev : MqEvent) : Eff MqClient unit :=
  match ev with
  | MqConnect => connect
  | MqConnError =>
      run log LError (MsgText "RabbitMQ connection error:");
      handleReconnect
  | MqConnClose =>
      run log LWarn (MsgText "RabbitMQ connection closed");
      handleReconnect
  | MqTimers =>
      do t <- date_now;
      do c <- get_state;
      run put_state (mkMqClient (mc_connection c) (mc_channel c) (mc_reconnectAttempts c)
                       (mc_reconnectAttemts c)
                       (List.filter (λ d, negb (d <=? t)) (mc_timers c)));
      connect_each (List.filter (λ d, d <=? t) (mc_timers c))
  end.

(** ** [CacheService]: viewers, chat, rate limit *)

(** ** Redis with expiring keys *)

(** The cache, string keys, and the deadline of every key that has a time
    to live. *)
Record Redis := mkRedis {
  rd_cache : Cache;
  rd_strings : gmap string JVal;
  rd_expiry : gmap string Z
}.

Definition set_rd_cache (c : Cache) (r : Redis) : Redis :=
  mkRedis c (rd_strings r) (rd_expiry r).
Definition set_rd_strings (f : gmap string JVal → gmap string JVal) (r : Redis) : Redis :=
  mkRedis (rd_cache r) (f (rd_strings r)) (rd_expiry r).
Definition set_rd_expiry (f : gmap string Z → gmap string Z) (r : Redis) : Redis :=
  mkRedis (rd_cache r) (rd_strings r) (f (rd_expiry r)).

Definition redis0 : Redis := mkRedis (mkCache ∅ ∅ ∅ []) ∅ ∅.

(** A key exists while it holds something. *)
Definition key_exists (r : Redis) (k : string) : bool :=
  match c_hashes (rd_cache r) !! k with
  | Some h => negb (bool_decide (h = ∅))
  | None => false
  end
  || match c_sets (rd_cache r) !! k with
     | Some s => negb (bool_decide (s = ∅))
     | None => false
     end
  || match c_lists (rd_cache r) !! k with
     | Some l => negb (bool_decide (l = []))
     | None => false
     end
  || bool_decide (is_Some (rd_strings r !! k)).

Definition is_expired (t : Z) (expiry : gmap string Z) (k : string) : bool :=
  match expiry !! k with
  | Some deadline => deadline <=? t
  | None => false
  end.

Definition unexpired {V} (t : Z) (expiry : gmap string Z) (m : gmap string V)
    : gmap string V :=
  filter (λ kv, is_expired t expiry (fst kv) = false) m.

(** At time [t] the keys whose deadline has passed are gone. *)
Definition purge (t : Z) (r : Redis) : Redis :=
  let ex := rd_expiry r in
  let c := rd_cache r in
  mkRedis
    (mkCache (unexpired t ex (c_hashes c)) (unexpired t ex (c_sets c))
       (unexpired t ex (c_lists c)) (c_published c))
    (unexpired t ex (rd_strings r))
    (unexpired t ex ex).

(** A key that does not exist any more has no deadline. *)
Definition settle (r : Redis) : Redis :=
  set_rd_expiry (filter (λ kv, key_exists r (fst kv) = true)) r.

(** A method of [CacheService] runs at one moment: the expired keys are
    gone when it starts. *)
Definition at_now {A} (m : Eff Redis A) : Eff Redis A :=
  do t <- date_now;
  run modify (purge t);
  m.

(** A method that was modelled on the cache alone. *)
Definition redis {A} (m : Eff Cache A) : Eff Redis A :=
  at_now (do x <- lift rd_cache set_rd_cache m;
          run modify settle;
          ret x).

(** [EXPIRE key seconds] *)
Definition expire (key : string) (seconds : Z) : Eff Redis unit :=
  do t <- date_now;
  do r <- get_state;
  if key_exists r key
  then modify (set_rd_expiry (<[key := t + seconds * 1000]>))
  else ret tt.

(** ** Commands *)

(** A command queued on a pipeline: [exec] reports its error in the result
    array, which the callers here do not read. *)
Definition pipelined {S A} (m : Eff S A) : Eff S unit :=
  try_catch (run m; ret tt) (λ _, ret tt).

Definition wrong_type : JsError := Error "ERR value is not an integer or out of range".

(** [HINCRBY key field n] *)
Definition hincrby (key field : string) (n : Z) : Eff Cache Z :=
  do c <- get_state;
  match hgetall c key !! field with
  | None =>
      run modify (set_c_hashes (<[key := <[field := JNum n]> (hgetall c key)]>));
      ret n
  | Some (JNum k) =>
      run modify (set_c_hashes (<[key := <[field := JNum (k + n)]> (hgetall c key)]>));
      ret (k + n)
  | Some _ => throw wrong_type
  end.

(** [HGET key field] *)
Definition hget (c : Cache) (key field : string) : JVal :=
  default JNull (hgetall c key !! field).

(** [HSET key field value] *)
Definition hset (key field : string) (v : JVal) : Eff Cache unit :=
  modify (λ c, set_c_hashes (<[key := <[field := v]> (hgetall c key)]>) c).

(** [SADD key member] *)
Definition sadd (key member : string) : Eff Cache unit :=
  modify (set_c_sets (λ m, <[key := {[member]} ∪ default ∅ (m !! key)]> m)).

(** [a > b] on what [parseInt] returns. *)
Definition js_gt (a b : JVal) : bool :=
  match a, b with
  | JNum x, JNum y => y <? x
  | _, _ => false
  end.

(** [LRANGE]: both ends inclusive, negative indices count from the end. *)
Definition lrange (l : list string) (start stop : Z) : list string :=
  let len := Z.of_nat (length l) in
  let start' := if start <? 0 then Z.max (len + start) 0 else start in
  let stop' := Z.min (if stop <? 0 then len + stop else stop) (len - 1) in
  if stop' <? start' then []
  else take (Z.to_nat (stop' - start' + 1)) (drop (Z.to_nat start') l).

(** [LPUSH key value] *)
Definition lpush (key value : string) : Eff Cache unit :=
  modify (set_c_lists (λ m, <[key := value :: default [] (m !! key)]> m)).

(** [LTRIM key start stop] *)
Definition ltrim (key : string) (start stop : Z) : Eff Cache unit :=
  modify (set_c_lists
            (λ m, match m !! key with
                  | Some l => <[key := lrange l start stop]> m
                  | None => m
                  end)).

(** [INCR key] *)
Definition incr (key : string) : Eff Redis Z :=
  do r <- get_state;
  match rd_strings r !! key with
  | None => run modify (set_rd_strings (<[key := JNum 1]>)); ret 1
  | Some (JNum k) => run modify (set_rd_strings (<[key := JNum (k + 1)]>)); ret (k + 1)
  | Some _ => throw wrong_type
  end.

(** ** Methods of [CacheService] *)

(** [addViewer(streamId, userId)] *)
Definition cache_addViewer (streamId userId : string) : Eff Cache Z :=
  try_catch
    (run pipelined (sadd (viewers_key streamId) userId);
     run pipelined (hincrby (stats_key streamId) "totalViews" 1);
     do c <- get_state;
     let count := scard c (viewers_key streamId) in
     let maxViewers := js_or (hget c (stats_key streamId) "maxViewers") (JNum 0) in
     run (if js_gt (JNum count) (parseInt maxViewers)
          then hset (stats_key streamId) "maxViewers" (JNum count)
          else ret tt);
     do t <- date_now;
     run modify (set_c_published
                   (λ l, l ++ [("viewer.count",
                                <["streamId" := JStr streamId]>
                                  (<["count" := JNum count]>
                                     (<["action" := JStr "joined"]>
                                        (<["userId" := JStr userId]>
                                           (<["timestamp" := JNum t]> ∅)))))]));
     run log LDebug (MsgText "Viewer added to stream");
     ret count)
    (λ error, run log LError (MsgFailure "Error adding viewer to stream" error);
              throw error).

(** [checkRateLimit(key, limit, windowMs)]; [Math.ceil(windowMs / 1000)] on
    an integer number of milliseconds. *)
Definition ceil_seconds (windowMs : Z) : Z := - ((- windowMs) / 1000).

Definition checkRateLimit (key : string) (limit windowMs : Z) : Eff Redis bool :=
  at_now
    (try_catch
       (do current <- incr key;
        run (if decide (current = 1) then expire key (ceil_seconds windowMs) else ret tt);
        ret (current <=? limit))
       (λ error, run log LError (MsgFailure "Error checking rate limit:" error);
                 ret false)).

Section Chat.

(** [JSON.stringify] and [JSON.parse] on chat messages; [parse] gives
    [None] where [JSON.parse] throws. *)
Variable stringify : gmap string JVal → string.
Variable parse : string → option (gmap string JVal).

(** [addChatMessage(streamId, message, maxMessage = 100)] *)
Definition cache_addChatMessage (streamId : string) (message : gmap string JVal)
    (maxMessage : Z) : Eff Redis unit :=
  at_now
    (try_catch
       (let key := chat_key streamId in
        run pipelined (lift rd_cache set_rd_cache (lpush key (stringify message)));
        run pipelined (lift rd_cache set_rd_cache (ltrim key 0 (maxMessage - 1)));
        run pipelined (expire key 86400);
        run pipelined (lift rd_cache set_rd_cache
                         (hincrby (stats_key streamId) "chatMessages" 1));
        run modify settle;
        log LDebug (MsgText "Chat message added to stream"))
       (λ error, run log LError (MsgFailure "Error adding chat message" error);
                 throw error)).

(** [getChatMessages(streamId, limit = 50)] *)
Definition cache_getChatMessages (streamId : string) (limit : Z)
    : Eff Redis (list (gmap string JVal)) :=
  at_now
    (do r <- get_state;
     do t <- date_now;
     let messages :=
       lrange (default [] (c_lists (rd_cache r) !! chat_key streamId)) 0 (limit - 1) in
     ret (rev (map (λ msg, match parse msg with
                           | Some o => o
                           | None => js_obj [("content", JStr msg); ("timestamp", JNum t)]
                           end) messages))).

End Chat.

(** ** [StreamService.joinStream] *)

(** The world, with Redis seen as a store of expiring keys. *)
Record Service := mkService {
  sv_world : World;
  sv_strings : gmap string JVal;
  sv_expiry : gmap string Z
}.

Definition sv_redis (s : Service) : Redis :=
  mkRedis (w_cache (sv_world s)) (sv_strings s) (sv_expiry s).

Definition set_sv_redis (r : Redis) (s : Service) : Service :=
  mkService (set_w_cache (rd_cache r) (sv_world s)) (rd_strings r) (rd_expiry r).

Definition set_sv_world (w : World) (s : Service) : Service :=
  mkService w (sv_strings s) (sv_expiry s).

(** The collaborators, as [StreamService] holds them. *)
Definition cache {A} (m : Eff Redis A) : Eff Service A := lift sv_redis set_sv_redis m.
Definition world {A} (m : Eff World A) : Eff Service A := lift sv_world set_sv_world m.

(** [Stream.findOne({ id })] *)
Definition db_findOne (id : string) : Eff Db (option (gmap string JVal)) :=
  λ env st,
    if db_fails env then (Throw (Error "persistence failure"), st)
    else (Ok (fst st !! id), st).


Section Join.

(** The method [createStream] that [CacheService] lacks, as in
    [createStream]. *)
Variable cache_createStream :
  string → gmap string JVal → Z → Cache → Result unit * Cache * Log.

(** [new Date().toISOString().split('T')[0]] at time [t]. *)
Variable isoDay : Z → string.

Variable parse : string → option (gmap string JVal).


(** The look-up that opens [joinStream]: the cache
    first, then the stream collection.  A stream found in the collection is
    handed to [cacheService.createStream]; it has been assigned by then, so
    it stays found when that call throws. *)
Definition find_stream (streamId : string) : Eff Service (option (gmap string JVal)) :=
  do cached <- cache (redis (cache_getStream streamId));
  match cached with
  | Some stream => ret (Some stream)
  | None =>
      do streamDoc <-
        try_catch
          (world (database (db_findOne streamId)))
          (λ dbError, run log LWarn (MsgFailure "Database query failed:" dbError);
                      ret None);
      match streamDoc with
      | None => ret None
      | Some doc =>
          run try_catch
                (cache (redis (λ env c,
                                 match cache_createStream streamId doc (now env) (fst c) with
                                 | (r, c', out) => (r, (c', snd c ++ out))
                                 end)))
                (λ dbError, log LWarn (MsgFailure "Database query failed:" dbError));
          ret (Some doc)
      end
  end.


End Join.

(** ** [ChatService] *)

(** A document of the [ChatMessage] collection. *)
Record ChatDoc := mkChatDoc {
  cm_userId : string;
  cm_streamId : string;
  cm_content : string;
  cm_type : string;
  cm_timestamp : Z;
  cm_deleted : bool;
  cm_deletedAt : option Z;
  cm_deletedBy : option string;
  cm_reactions : gmap string (list string)
}.

Record Chat := mkChat {
  ch_db : gmap string ChatDoc;
  ch_redis : Redis;
  ch_mq : Mq
}.

Definition set_ch_db (d : gmap string ChatDoc) (c : Chat) : Chat :=
  mkChat d (ch_redis c) (ch_mq c).
Definition set_ch_redis (r : Redis) (c : Chat) : Chat :=
  mkChat (ch_db c) r (ch_mq c).
Definition set_ch_mq (q : Mq) (c : Chat) : Chat :=
  mkChat (ch_db c) (ch_redis c) q.

Definition chat_db {A} (m : Eff (gmap string ChatDoc) A) : Eff Chat A :=
  lift ch_db set_ch_db m.
Definition chat_cache {A} (m : Eff Redis A) : Eff Chat A := lift ch_redis set_ch_redis m.
Definition chat_mq {A} (m : Eff Mq A) : Eff Chat A := lift ch_mq set_ch_mq m.

(** [ChatMessage.findOne({ id })] and [doc.save()] *)
Definition chat_findOne (id : string) : Eff (gmap string ChatDoc) (option ChatDoc) :=
  λ env st,
    if db_fails env then (Throw (Error "persistence failure"), st)
    else (Ok (fst st !! id), st).

Definition chat_save (id : string) (doc : ChatDoc) : Eff (gmap string ChatDoc) unit :=
  λ env st,
    if db_fails env then (Throw (Error "persistence failure"), st)
    else (Ok tt, (<[id := doc]> (fst st), snd st)).







Section ChatService.

Variable stringify : gmap string JVal → string.

(** [message.userId === userId], between the author stored in the document
    and the identifier of the caller. *)
Variable same_user : ChatDoc → string → bool.

(** [deleteMessage(messageId, userId, isModeratorOrOwner)]; [uuidv4()] is
    the argument [systemId]. *)
Definition deleteMessage (systemId messageId userId : string) (isModeratorOrOwner : bool)
    : Eff Chat bool :=
  try_catch
    (do found <- chat_db (chat_findOne messageId);
     match found with
     | None => throw (Error "Message not found")
     | Some message =>
         if negb (same_user message userId) && negb isModeratorOrOwner
         then throw (Error "Unauthorized to delete this message")
         else
           do t <- date_now;
           run chat_db
                 (chat_save messageId
                    (mkChatDoc (cm_userId message) (cm_streamId message)
                       (cm_content message) (cm_type message) (cm_timestamp message)
                       true (Some t) (Some userId) (cm_reactions message)));
           let systemMessage :=
             js_obj [("id", JStr systemId); ("userId", JStr "system");
                     ("streamId", JStr (cm_streamId message));
                     ("content", JStr "A message was deleted");
                     ("type", JStr "system"); ("timestamp", JIso t);
                     ("originalMessageId", JStr messageId)] in
           run chat_cache
                 (cache_addChatMessage stringify (cm_streamId message) systemMessage 100);
           run chat_mq (publishChatMessage systemMessage);
           run chat_mq
                 (publishAnalyticsEvent "chat.message.deleted"
                    (js_obj [("streamId", JStr (cm_streamId message));
                             ("messageId", JStr messageId);
                             ("deletedBy", JStr userId);
                             ("timestamp", JNum t)]));
           run log LInfo (MsgText "Chat message deleted");
           ret true
     end)
    (λ error, run log LError (MsgFailure "Error deleting chat message:" error);
              throw error).

(** [SETEX key seconds value] *)
Definition setex (key : string) (seconds : Z) (value : JVal) : Eff Redis unit :=
  at_now
    (do t <- date_now;
     run modify (set_rd_strings (<[key := value]>));
     modify (set_rd_expiry (<[key := t + seconds * 1000]>))).

Definition timeout_key (userId : string) : string := String.append "timeout:user:" userId.

(** [moderateMessage(messageId, action, moderatorId, reason)]; the two
    calls of [uuidv4()] are the arguments [eventId] and [systemId]. *)
Definition moderateMessage (eventId systemId messageId action moderatorId reason : string)
    : Eff Chat (gmap string JVal) :=
  try_catch
    (if negb (bool_decide (action ∈ ["delete"; "timeout"; "warn"]))
     then throw (Error "Invalid moderation action")
     else
       do found <- chat_db (chat_findOne messageId);
       match found with
       | None => throw (Error "Message not found")
       | Some message =>
           do t <- date_now;
           let moderationEvent :=
             js_obj [("id", JStr eventId); ("messageId", JStr messageId);
                     ("userId", JStr (cm_userId message));
                     ("streamId", JStr (cm_streamId message));
                     ("action", JStr action); ("moderatorId", JStr moderatorId);
                     ("reason", JStr reason); ("timestamp", JIso t)] in
           run (if decide (action = "delete")
                then run deleteMessage systemId messageId moderatorId true; ret tt
                else if decide (action = "timeout")
                then chat_cache (setex (timeout_key (cm_userId message)) 300 (JStr "true"))
                else ret tt);
           run chat_mq (publishAnalyticsEvent "chat.moderation" moderationEvent);
           run log LInfo (MsgText "Message moderated");
           ret moderationEvent
       end)
    (λ error, run log LError (MsgFailure "Error moderating message:" error);
              throw error).

(** [isUserTimedOut(userId)] *)
Definition isUserTimedOut (userId : string) : Eff Chat bool :=
  chat_cache
    (at_now
       (do r <- get_state;
        ret (truthy (default JNull (rd_strings r !! timeout_key userId))))).

End ChatService.

(** ** The socket server: a client goes away *)

(** The services, and what the server has emitted to socket rooms: the
    room, the event and the user it names. *)
Record Server := mkServer {
  srv_world : World;
  srv_emitted : list (string * string * string)
}.

Definition set_srv_world (w : World) (s : Server) : Server :=
  mkServer w (srv_emitted s).

Definition streamService {A} (m : Eff World A) : Eff Server A :=
  lift srv_world set_srv_world m.

(** [socket.to(room).emit(event, { userId })] *)
Definition emit_to (room event userId : string) : Eff Server unit :=
  modify (λ s, mkServer (srv_world s) (srv_emitted s ++ [(room, event, userId)])).

(** [roomId.startsWith(prefix)], and what is left of [roomId] behind it;
    [roomId.replace('room:', '')] removes the first occurrence, which is
    that prefix. *)
Fixpoint strip_prefix (prefix s : string) : option string :=
  match prefix, s with
  | EmptyString, _ => Some s
  | String a prefix', String b s' =>
      if decide (a = b) then strip_prefix prefix' s' else None
  | String _ _, EmptyString => None
  end.

(** What the handler of [disconnecting] does for one room of the socket. *)
Definition disconnect_body (userId roomId : string) : Eff Server unit :=
  match strip_prefix "room:" roomId with
  | Some streamId =>
      try_catch
        (run streamService (handleUserDisconnect streamId userId);
         emit_to roomId "viewer-left" userId)
        (λ error, log LError (MsgFailure "Error handling disconnect from room" error))
  | None => ret tt
  end.

(** The handler of [disconnecting]; [socketRooms] is [socket.rooms]. *)
Definition on_disconnecting (socketRooms : list string) (userId : string)
    : Eff Server unit :=
  run log LInfo (MsgText "Client disconnecting");
  for_each socketRooms (disconnect_body userId).

(** * Properties of [MediaService] *)

(** ** Facts about [JsMap] *)

Section JsMapFacts.
Context {K V : Type} `{EqDecision K}.
Implicit Types (k : K) (v : V) (m : list (K * V)).

Lemma jsmap_get_set_eq k v m : JsMap.get k (JsMap.set k v m) = Some v.
Proof.
  induction m as [|[k' v'] m IH]; simpl.
  - by rewrite decide_True.
  - destruct (decide (k' = k)) as [->|Hne]; simpl.
    + by rewrite decide_True.
    + by rewrite decide_False.
Qed.

Lemma jsmap_get_set_ne k k' v m : k ≠ k' → JsMap.get k' (JsMap.set k v m) = JsMap.get k' m.
Proof.
  intros Hne. induction m as [|[k0 v0] m IH]; simpl.
  - by rewrite decide_False.
  - destruct (decide (k0 = k)) as [->|Hk]; simpl.
    + by rewrite !decide_False.
    + destruct (decide (k0 = k')); [done | apply IH].
Qed.

Lemma jsmap_get_delete_eq k m : JsMap.get k (JsMap.delete k m) = None.
Proof.
  induction m as [|[k' v'] m IH]; simpl; [done|].
  destruct (decide (k' = k)) as [->|Hne]; simpl; [done|].
  by rewrite decide_False.
Qed.

Lemma jsmap_get_delete_ne k k' m : k ≠ k' → JsMap.get k' (JsMap.delete k m) = JsMap.get k' m.
Proof.
  intros Hne. induction m as [|[k0 v0] m IH]; simpl; [done|].
  destruct (decide (k0 = k)) as [->|Hk]; simpl.
  - by rewrite decide_False.
  - by rewrite IH.
Qed.

Lemma jsmap_delete_absent k m : JsMap.get k m = None → JsMap.delete k m = m.
Proof.
  induction m as [|[k' v'] m IH]; simpl; [done|].
  destruct (decide (k' = k)); [done|]. intros H. by rewrite IH.
Qed.

Lemma jsmap_get_delete_None k k' m : JsMap.get k' m = None → JsMap.get k' (JsMap.delete k m) = None.
Proof.
  intros H. destruct (decide (k = k')) as [->|Hne].
  - apply jsmap_get_delete_eq.
  - by rewrite jsmap_get_delete_ne.
Qed.


Lemma jsmap_get_Some_size k v m : JsMap.get k m = Some v → (0 < JsMap.size m)%nat.
Proof. destruct m; simpl; [done | lia]. Qed.

Lemma jsmap_has_true k m : JsMap.has k m = true ↔ is_Some (JsMap.get k m).
Proof.
  unfold JsMap.has. destruct (JsMap.get k m); split; intros H; try done; try by eexists.
Qed.

Lemma jsmap_get_In_values k v m : JsMap.get k m = Some v → In v (JsMap.values m).
Proof.
  induction m as [|[k' v'] m IH]; simpl; [done|].
  destruct (decide (k' = k)); [intros [= ->]; by left | right; auto].
Qed.

End JsMapFacts.

(** ** What the close cascade leaves alone *)

Lemma foldl_preserve {A B} (P : A → Prop) (f : A → B → A) :
  (∀ a b, P a → P (f a b)) → ∀ l a, P a → P (foldl f a l).
Proof.
  intros Hf l. induction l as [|b l IH]; simpl; intros a Ha; [done|].
  apply IH, Hf, Ha.
Qed.

(** The registry and the worker pool. *)
Definition registry (s : MState) : list (option nat) * JsIndex * list (string * Room) :=
  (workers s, workerIndex s, rooms s).

Lemma registry_notify_consumer ev s c : registry (notify_consumer ev s c) = registry s.
Proof.
  unfold notify_consumer. repeat case_match; done.
Qed.

Lemma registry_consumers ev s l :
  registry (foldl (notify_consumer ev) s l) = registry s.
Proof.
  apply (foldl_preserve (λ s', registry s' = registry s)); [|done].
  intros a b Ha. by rewrite registry_notify_consumer.
Qed.

Lemma registry_producer_close p s : registry (producer_close p s) = registry s.
Proof.
  unfold producer_close. repeat case_match; try done.
  by rewrite registry_consumers.
Qed.

Lemma registry_notify_producer s p : registry (notify_producer s p) = registry s.
Proof.
  unfold notify_producer. repeat case_match; try done;
    rewrite registry_consumers; try done.
  unfold producer_listener, heap_alter.
  change (registry (set_heap ?f ?x)) with (registry x).
  by rewrite registry_producer_close.
Qed.

Lemma registry_transport_close s t : registry (transport_close s t) = registry s.
Proof.
  unfold transport_close. repeat case_match; try done.
  rewrite registry_consumers.
  apply (foldl_preserve (λ s', registry s' = registry s)); [|done].
  intros a b Ha. by rewrite registry_notify_producer.
Qed.

Lemma registry_transports s l : registry (foldl transport_close s l) = registry s.
Proof.
  apply (foldl_preserve (λ s', registry s' = registry s)); [|done].
  intros a b Ha. by rewrite registry_transport_close.
Qed.

Lemma registry_router_close r s : registry (router_close r s) = registry s.
Proof. unfold router_close. by rewrite registry_transports. Qed.

Lemma registry_rooms s s' : registry s' = registry s → rooms s' = rooms s.
Proof. unfold registry. congruence. Qed.

(** The routers. *)
Lemma routers_notify_consumer ev s c :
  e_routers (engine (notify_consumer ev s c)) = e_routers (engine s).
Proof. unfold notify_consumer. repeat case_match; done. Qed.

Lemma routers_consumers ev s l :
  e_routers (engine (foldl (notify_consumer ev) s l)) = e_routers (engine s).
Proof.
  apply (foldl_preserve (λ s', e_routers (engine s') = e_routers (engine s))); [|done].
  intros a b Ha. by rewrite routers_notify_consumer.
Qed.

Lemma routers_notify_producer s p :
  e_routers (engine (notify_producer s p)) = e_routers (engine s).
Proof.
  unfold notify_producer. repeat case_match; try done;
    rewrite routers_consumers; try done.
  unfold producer_listener, heap_alter, producer_close; simpl.
  repeat case_match; try done. by rewrite routers_consumers.
Qed.

Lemma routers_transport_close s t :
  e_routers (engine (transport_close s t)) = e_routers (engine s).
Proof.
  unfold transport_close. repeat case_match; try done.
  rewrite routers_consumers.
  apply (foldl_preserve (λ s', e_routers (engine s') = e_routers (engine s))); [|done].
  intros a b Ha. by rewrite routers_notify_producer.
Qed.

Lemma routers_transports s l :
  e_routers (engine (foldl transport_close s l)) = e_routers (engine s).
Proof.
  apply (foldl_preserve (λ s', e_routers (engine s') = e_routers (engine s))); [|done].
  intros a b Ha. by rewrite routers_transport_close.
Qed.

(** ** [closeParticipant], step by step *)

Ltac eff_unfold :=
  unfold bind, try_catch, ret, throw, get_state, put_state, modify, date_now, log in *.

Definition participant_transports (a : nat) (s : MState) : list nat :=
  match heap s !! a with
  | Some p => JsMap.values (p_transports p)
  | None => []
  end.

(** The state once the participant's transports are closed and the
    participant is taken out of the room. *)
Definition participant_removed (roomId userId : string) (a : nat) (s : MState) : MState :=
  update_room roomId (r_set_participants (JsMap.delete userId))
    (foldl transport_close s (participant_transports a s)).

Lemma closeParticipant_no_room roomId userId env st :
  JsMap.get roomId (rooms (fst st)) = None →
  closeParticipant roomId userId env st = (Ok tt, st).
Proof.
  intros H. unfold closeParticipant. eff_unfold. simpl. by rewrite H.
Qed.

Lemma closeParticipant_no_participant roomId userId env st room :
  JsMap.get roomId (rooms (fst st)) = Some room →
  JsMap.get userId (r_participants room) = None →
  closeParticipant roomId userId env st = (Ok tt, st).
Proof.
  intros H1 H2. unfold closeParticipant. eff_unfold. simpl. by rewrite H1, H2.
Qed.

Lemma closeParticipant_last roomId userId env s l room a :
  JsMap.get roomId (rooms s) = Some room →
  JsMap.get userId (r_participants room) = Some a →
  JsMap.size (JsMap.delete userId (r_participants room)) = 0%nat →
  closeParticipant roomId userId env (s, l) =
    (Ok tt,
     (set_rooms (JsMap.delete roomId)
        (router_close (r_router room) (participant_removed roomId userId a s)),
      (l ++ [(LInfo, MsgParticipantRemoved userId roomId)])
        ++ [(LInfo, MsgRoomClosedEmpty roomId)])).
Proof.
  intros H1 H2 H3. unfold closeParticipant. eff_unfold. simpl.
  rewrite H1, H2. simpl. by rewrite decide_True.
Qed.

Lemma closeParticipant_others roomId userId env s l room a :
  JsMap.get roomId (rooms s) = Some room →
  JsMap.get userId (r_participants room) = Some a →
  JsMap.size (JsMap.delete userId (r_participants room)) ≠ 0%nat →
  closeParticipant roomId userId env (s, l) =
    (Ok tt,
     (participant_removed roomId userId a s,
      l ++ [(LInfo, MsgParticipantRemoved userId roomId)])).
Proof.
  intros H1 H2 H3. unfold closeParticipant. eff_unfold. simpl.
  rewrite H1, H2. simpl. by rewrite decide_False.
Qed.

Lemma rooms_participant_removed roomId userId a s room :
  JsMap.get roomId (rooms s) = Some room →
  rooms (participant_removed roomId userId a s) =
    JsMap.set roomId (r_set_participants (JsMap.delete userId) room) (rooms s).
Proof.
  intros H. unfold participant_removed, update_room.
  rewrite (registry_rooms _ _ (registry_transports s _)), H. simpl.
  by rewrite (registry_rooms _ _ (registry_transports s _)).
Qed.

Lemma closeParticipant_total roomId userId env st :
  fst (closeParticipant roomId userId env st) = Ok tt.
Proof.
  destruct st as [s l].
  destruct (JsMap.get roomId (rooms s)) as [room|] eqn:H1;
    [|by rewrite closeParticipant_no_room].
  destruct (JsMap.get userId (r_participants room)) as [a|] eqn:H2;
    [|by erewrite closeParticipant_no_participant].
  destruct (decide (JsMap.size (JsMap.delete userId (r_participants room)) = 0%nat)).
  - by erewrite closeParticipant_last.
  - by erewrite closeParticipant_others.
Qed.

(** After the call the user is not a participant of the room any more. *)
Lemma closeParticipant_gone roomId userId env st :
  match JsMap.get roomId (rooms (fst (snd (closeParticipant roomId userId env st)))) with
  | Some room => JsMap.get userId (r_participants room) = None
  | None => True
  end.
Proof.
  destruct st as [s l].
  destruct (JsMap.get roomId (rooms s)) as [room|] eqn:H1;
    [|rewrite closeParticipant_no_room; simpl; by rewrite ?H1].
  destruct (JsMap.get userId (r_participants room)) as [a|] eqn:H2;
    [|erewrite closeParticipant_no_participant; simpl; by rewrite ?H1].
  destruct (decide (JsMap.size (JsMap.delete userId (r_participants room)) = 0%nat)).
  - erewrite closeParticipant_last by done. simpl.
    by rewrite jsmap_get_delete_eq.
  - erewrite closeParticipant_others by done. simpl.
    erewrite rooms_participant_removed by done.
    rewrite jsmap_get_set_eq. simpl. apply jsmap_get_delete_eq.
Qed.

(** [handleUserDisconnect] catches whatever its body throws. *)
Lemma handleUserDisconnect_total streamId userId env (w : World * Log) :
  fst (handleUserDisconnect streamId userId env w) = Ok tt.
Proof.
  unfold handleUserDisconnect, try_catch.
  destruct (bind _ _ env w) as [[[]|e] st1]; done.
Qed.

(** C10. [closeParticipant] never throws; when the room or the participant
    does not exist it returns with the state (and the log) untouched; and a
    second call for the same room and user changes nothing, so the cleanup
    on disconnect can be replayed.  [handleUserDisconnect], which runs that
    cleanup, never throws either. *)
Theorem closeParticipant_idempotent (roomId userId : string) (env env' : Env)
    (st : MState * Log) :
  fst (closeParticipant roomId userId env st) = Ok tt
  ∧ (JsMap.get roomId (rooms (fst st)) = None →
     closeParticipant roomId userId env st = (Ok tt, st))
  ∧ (∀ room, JsMap.get roomId (rooms (fst st)) = Some room →
       JsMap.get userId (r_participants room) = None →
       closeParticipant roomId userId env st = (Ok tt, st))
  ∧ closeParticipant roomId userId env' (snd (closeParticipant roomId userId env st))
    = (Ok tt, snd (closeParticipant roomId userId env st))
  ∧ ∀ w : World * Log, fst (handleUserDisconnect roomId userId env w) = Ok tt.
Proof.
  split; [apply closeParticipant_total|].
  split; [apply closeParticipant_no_room|].
  split; [apply closeParticipant_no_participant|].
  split; [|apply handleUserDisconnect_total].
  pose proof (closeParticipant_gone roomId userId env st) as Hgone.
  destruct (JsMap.get roomId
              (rooms (fst (snd (closeParticipant roomId userId env st)))))
    as [room|] eqn:H.
  - by eapply closeParticipant_no_participant.
  - by apply closeParticipant_no_room.
Qed.

(** ** Reachable states of the media service *)

Inductive MOp :=
| OpCreateRoom (roomId : string)
| OpCreateTransport (roomId userId direction : string)
| OpConnectTransport (roomId userId : string) (transportId : nat)
| OpProduce (roomId userId : string) (transportId : nat)
    (rtpParameters : RtpParameters) (kind : string)
| OpConsume (roomId userId : string) (producerId : nat)
    (rtpCapabilities : RtpCapabilities)
| OpResumeConsumer (roomId userId : string) (consumerId : nat)
| OpCloseParticipant (roomId userId : string).

(** The state a call leaves behind, whether it returned or threw. *)
Definition after {S A} (m : Eff S A) (env : Env) (st : S * Log) : S * Log :=
  snd (m env st).

Definition mstep (op : MOp) (env : Env) (st : MState * Log) : MState * Log :=
  match op with
  | OpCreateRoom r => after (createRoom r) env st
  | OpCreateTransport r u d => after (createWebRtcTransport r u d) env st
  | OpConnectTransport r u t => after (connectTransport r u t) env st
  | OpProduce r u t rtp k => after (produce r u t rtp k) env st
  | OpConsume r u p caps => after (consume r u p caps) env st
  | OpResumeConsumer r u c => after (resumeConsumer r u c) env st
  | OpCloseParticipant r u => after (closeParticipant r u) env st
  end.

(** The service is constructed, [initialize] runs on a machine with [cpus]
    cores, then public operations are called in any order. *)
Inductive reachable (cpus : nat) : MState * Log → Prop :=
| reach_init env :
    reachable cpus (after (initialize cpus) env (mstate0, []))
| reach_step st op env :
    reachable cpus st → reachable cpus (mstep op env st).

Definition env0 : Env := mkEnv 1000 false false.

(** ** C1: rooms without participants *)

Definition no_empty_room (s : MState) : Prop :=
  ∀ roomId room,
    JsMap.get roomId (rooms s) = Some room →
    JsMap.size (r_participants room) ≠ 0%nat.

(** One worker, then [createRoom("s1")]. *)
Definition st_room_created : MState * Log :=
  mstep (OpCreateRoom "s1") env0 (after (initialize 1) env0 (mstate0, [])).

(** C1, as stated, fails: [createRoom] registers a room whose participant
    map is empty, and that room stays registered. *)
Lemma empty_room_persists :
  ¬ (∀ st, reachable 1 st → no_empty_room (fst st)).
Proof.
  intros H.
  assert (Hr : reachable 1 st_room_created)
    by (apply reach_step, reach_init).
  apply (H _ Hr "s1" (mkRoom "s1" 0 [] 1000 0)); reflexivity.
Qed.

(** When [closeParticipant] takes the last participant out of a room, the
    room's router is closed and the room is gone from the registry when the
    call returns; when other participants remain, the room stays registered
    with exactly those. *)
Lemma closeParticipant_outcome (roomId userId : string) (env : Env)
    (s : MState) (l : Log) (room : Room) (a : nat) :
  JsMap.get roomId (rooms s) = Some room →
  JsMap.get userId (r_participants room) = Some a →
  let s' := fst (after (closeParticipant roomId userId) env (s, l)) in
  if decide (JsMap.size (JsMap.delete userId (r_participants room)) = 0%nat)
  then JsMap.get roomId (rooms s') = None
       ∧ ∀ ro, e_routers (engine s) !! r_router room = Some ro →
               e_routers (engine s') !! r_router room = Some (ro_mark_closed ro)
  else JsMap.get roomId (rooms s')
       = Some (r_set_participants (JsMap.delete userId) room).
Proof.
  intros H1 H2 s'. subst s'. unfold after.
  destruct (decide (JsMap.size (JsMap.delete userId (r_participants room)) = 0%nat)).
  - erewrite closeParticipant_last by done. simpl. split.
    + apply jsmap_get_delete_eq.
    + intros ro Hro. unfold router_close. rewrite routers_transports. simpl.
      unfold participant_removed, update_room.
      rewrite (registry_rooms _ _ (registry_transports s _)), H1. simpl.
      rewrite routers_transports. unfold arena_alter. rewrite Hro.
      apply list_lookup_insert_eq. by eapply lookup_lt_Some.
  - erewrite closeParticipant_others by done. simpl.
    erewrite rooms_participant_removed by done.
    apply jsmap_get_set_eq.
Qed.

(** ** C8: [createRoom] *)

Lemma createRoom_existing roomId env st room :
  JsMap.get roomId (rooms (fst st)) = Some room →
  createRoom roomId env st = (Ok room, st).
Proof.
  intros H. unfold createRoom. eff_unfold. simpl. rewrite H. by destruct st.
Qed.

Definition next_worker (s : MState) : option nat :=
  match workerIndex s with
  | Idx i => array_get i (workers s)
  | NaN => None
  end.

Definition new_room (roomId : string) (env : Env) (s : MState) (w : nat) : Room :=
  mkRoom roomId (length (e_routers (engine s))) [] (now env) (indexOf w (workers s)).

Definition room_registered (roomId : string) (env : Env) (s : MState) (w : nat) : MState :=
  set_rooms (JsMap.set roomId (new_room roomId env s w))
    (set_engine (set_e_routers (λ l, l ++ [mkRouter w false]))
       (set_workerIndex (next_index (workerIndex s) (length (workers s))) s)).

Lemma createRoom_new roomId env s l w :
  JsMap.get roomId (rooms s) = None →
  next_worker s = Some w →
  createRoom roomId env (s, l) =
    (Ok (new_room roomId env s w),
     (room_registered roomId env s w,
      l ++ [(LInfo, MsgRoomCreated roomId (indexOf w (workers s)))])).
Proof.
  intros H1 H2. unfold createRoom, getNextWorker, engine_createRouter. eff_unfold.
  simpl. rewrite H1. simpl. unfold next_worker in H2. by rewrite H2.
Qed.

Lemma createRoom_no_worker roomId env s l :
  JsMap.get roomId (rooms s) = None →
  next_worker s = None →
  createRoom roomId env (s, l) =
    (Throw (TypeError "Cannot read properties of undefined (reading 'createRouter')"),
     (set_workerIndex (next_index (workerIndex s) (length (workers s))) s, l)).
Proof.
  intros H1 H2. unfold createRoom, getNextWorker. eff_unfold.
  simpl. rewrite H1. simpl. unfold next_worker in H2. by rewrite H2.
Qed.

(** C1, amended. [createRoom] registers a new room with an empty participant
    map.  When [closeParticipant] takes the last participant out of a room,
    the room's router is closed and the room is gone from the registry when
    the call returns; when other participants remain, the room stays
    registered with exactly those. *)
Theorem closeParticipant_removes_empty_room (roomId userId : string) (env : Env)
    (s : MState) (l : Log) :
  (∀ room st1,
     JsMap.get roomId (rooms s) = None →
     createRoom roomId env (s, l) = (Ok room, st1) →
     JsMap.get roomId (rooms (fst st1)) = Some room
     ∧ JsMap.size (r_participants room) = 0%nat)
  ∧ (∀ room a,
       JsMap.get roomId (rooms s) = Some room →
       JsMap.get userId (r_participants room) = Some a →
       let s' := fst (after (closeParticipant roomId userId) env (s, l)) in
       if decide (JsMap.size (JsMap.delete userId (r_participants room)) = 0%nat)
       then JsMap.get roomId (rooms s') = None
            ∧ ∀ ro, e_routers (engine s) !! r_router room = Some ro →
                    e_routers (engine s') !! r_router room = Some (ro_mark_closed ro)
       else JsMap.get roomId (rooms s')
            = Some (r_set_participants (JsMap.delete userId) room)).
Proof.
  split; [|intros room a; apply closeParticipant_outcome].
  intros room st1 Hget Hrun.
  destruct (next_worker s) as [w|] eqn:Hw.
  - rewrite (createRoom_new _ _ _ _ _ Hget Hw) in Hrun. injection Hrun as <- <-.
    simpl. split; [apply jsmap_get_set_eq|done].
  - rewrite (createRoom_no_worker _ _ _ _ Hget Hw) in Hrun. discriminate.
Qed.

(** C8. If a room is registered under [roomId], [createRoom] returns that
    room and leaves the whole state as it was: no router is created and the
    round-robin index does not move.  After a successful first call a second
    call with the same id returns the same room and changes nothing, so two
    calls in sequence for a new id create exactly one router. *)
Theorem createRoom_idempotent (roomId : string) (env env' : Env) (st : MState * Log) :
  (∀ room, JsMap.get roomId (rooms (fst st)) = Some room →
     createRoom roomId env st = (Ok room, st))
  ∧ (∀ room st1, createRoom roomId env st = (Ok room, st1) →
       createRoom roomId env' st1 = (Ok room, st1)
       ∧ (JsMap.get roomId (rooms (fst st)) = None →
          length (e_routers (engine (fst st1)))
          = S (length (e_routers (engine (fst st))))
          ∧ length (e_routers (engine (fst (after (createRoom roomId) env' st1))))
            = S (length (e_routers (engine (fst st)))))).
Proof.
  split; [apply createRoom_existing|].
  intros room st1 H. destruct st as [s l].
  destruct (JsMap.get roomId (rooms s)) as [room0|] eqn:Hget.
  - rewrite (createRoom_existing roomId env (s, l) room0 Hget) in H.
    injection H as <- <-. split; [|simpl; intros; congruence].
    by apply createRoom_existing.
  - destruct (next_worker s) as [w|] eqn:Hw.
    + rewrite (createRoom_new _ _ _ _ _ Hget Hw) in H. injection H as <- <-.
      assert (Hagain : createRoom roomId env'
                (room_registered roomId env s w,
                 l ++ [(LInfo, MsgRoomCreated roomId (indexOf w (workers s)))])
              = (Ok (new_room roomId env s w),
                 (room_registered roomId env s w,
                  l ++ [(LInfo, MsgRoomCreated roomId (indexOf w (workers s)))]))).
      { apply createRoom_existing. simpl. apply jsmap_get_set_eq. }
      split; [done|]. intros _. unfold after. rewrite Hagain. simpl.
      rewrite length_app. simpl. lia.
    + rewrite (createRoom_no_worker _ _ _ _ Hget Hw) in H. discriminate.
Qed.

(** ** C7: round-robin assignment of workers *)

(** The worker indices of the rooms created so far, oldest first, as the
    service logs them in [createRoom]. *)
Definition created (l : Log) : list Z :=
  omap (λ e, match e with
             | (_, MsgRoomCreated _ w) => Some w
             | _ => None
             end) l.

Definition pool_size (cpus : nat) : nat := Nat.min cpus 8.

Definition pool (st : MState * Log) : list (option nat) * JsIndex * list Z :=
  (workers (fst st), workerIndex (fst st), created (snd st)).

Lemma indexOf_from_seq b n w :
  (b ≤ w < b + n)%nat → indexOf_from b w (map Some (seq b n)) = Z.of_nat w.
Proof.
  revert b. induction n as [|n IH]; intros b Hw; [lia|]. simpl.
  destruct (decide (Some b = Some w)) as [[= ->]|Hne]; [done|].
  apply IH. assert (b ≠ w) by congruence. lia.
Qed.

Lemma array_get_seq n i :
  (i < n)%nat → array_get i (map Some (seq 0 n)) = Some i.
Proof.
  intros H. unfold array_get.
  by rewrite list_lookup_fmap, lookup_seq_lt.
Qed.

Lemma createWorker_next env s l k :
  workers s = map Some (seq 0 k) →
  e_workers (engine s) = k →
  createWorker k env (s, l) =
    (Ok k, (set_workers (λ _, map Some (seq 0 (S k)))
              (set_engine (set_e_workers (S k)) s), l)).
Proof.
  intros Hw He. unfold createWorker, engine_createWorker. eff_unfold. simpl.
  rewrite He. unfold set_workers. simpl. rewrite Hw.
  unfold array_set. rewrite length_map, length_seq.
  rewrite decide_False by lia. rewrite Nat.sub_diag. simpl.
  change (Some 0%nat :: map Some (seq 1 k)) with (map Some (seq 0 (S k))).
  by rewrite seq_S, map_app.
Qed.

Lemma createWorkers_run env n : ∀ k s l,
  workers s = map Some (seq 0 k) →
  e_workers (engine s) = k →
  ∃ s', for_each (seq k n) (λ i, run createWorker i; ret tt) env (s, l) = (Ok tt, (s', l))
        ∧ workers s' = map Some (seq 0 (k + n))
        ∧ workerIndex s' = workerIndex s
        ∧ rooms s' = rooms s
        ∧ heap s' = heap s
        ∧ e_transports (engine s') = e_transports (engine s).
Proof.
  induction n as [|n IH]; intros k s l Hw He; simpl.
  - exists s. by rewrite Nat.add_0_r.
  - unfold bind at 1. unfold bind at 1.
    rewrite (createWorker_next env s l k Hw He). unfold ret at 1.
    destruct (IH (S k)
                (set_workers (λ _, map Some (seq 0 (S k)))
                   (set_engine (set_e_workers (S k)) s)) l)
      as (s' & Hrun & Hw' & Hi' & Hr' & Hh' & He'); [done..|].
    exists s'. rewrite Hrun. split; [done|]. split; [|done].
    by rewrite Hw', Nat.add_succ_r.
Qed.

Lemma initialize_pool cpus env :
  pool (after (initialize cpus) env (mstate0, []))
  = (map Some (seq 0 (pool_size cpus)), Idx 0, []).
Proof.
  unfold after, initialize.
  destruct (createWorkers_run env (Nat.min cpus 8) 0 mstate0
              ([] ++ [(LInfo, MsgCreatingWorkers (Nat.min cpus 8))]))
    as (s' & Hrun & Hw & Hi & _); [done..|].
  unfold bind at 1. unfold log at 1. unfold bind at 1.
  change (fst (mstate0, @nil LogEntry)) with mstate0.
  change (snd (mstate0, @nil LogEntry)) with (@nil LogEntry).
  rewrite Hrun. eff_unfold. simpl. unfold pool. simpl.
  by rewrite Hw, Hi.
Qed.

(** What the round-robin claim says about a state. *)
Definition round_robin (n : nat) (st : MState * Log) : Prop :=
  workers (fst st) = map Some (seq 0 n)
  ∧ workerIndex (fst st) = Idx (length (created (snd st)) mod n)
  ∧ ∀ k w, created (snd st) !! k = Some w → w = Z.of_nat (k mod n).

Lemma round_robin_pool n st st' :
  pool st' = pool st → round_robin n st → round_robin n st'.
Proof.
  unfold pool, round_robin. intros [= -> -> ->]. done.
Qed.

Lemma created_snoc_room l lvl roomId w :
  created (l ++ [(lvl, MsgRoomCreated roomId w)]) = created l ++ [w].
Proof. unfold created. by rewrite omap_app. Qed.

Lemma round_robin_createRoom n roomId env st :
  (0 < n)%nat → round_robin n st → round_robin n (after (createRoom roomId) env st).
Proof.
  intros Hn (Hw & Hi & Hlog). destruct st as [s l]. simpl in *. unfold after.
  destruct (JsMap.get roomId (rooms s)) as [room|] eqn:Hget.
  { by rewrite (createRoom_existing roomId env (s, l) room Hget). }
  assert (Hlt : (length (created l) mod n < n)%nat) by (apply Nat.mod_upper_bound; lia).
  assert (Hnext : next_worker s = Some (length (created l) mod n)%nat).
  { unfold next_worker. rewrite Hi, Hw. by apply array_get_seq. }
  rewrite (createRoom_new _ _ _ _ _ Hget Hnext). unfold round_robin. cbn [fst snd].
  change (workers (room_registered roomId env s _)) with (workers s).
  change (workerIndex (room_registered roomId env s ?w))
    with (next_index (workerIndex s) (length (workers s))).
  rewrite Hw, created_snoc_room. unfold indexOf.
  rewrite indexOf_from_seq by lia.
  split; [done|]. split.
  - rewrite Hi, length_map, length_seq. unfold next_index.
    rewrite decide_False by lia. f_equal.
    rewrite length_app. simpl.
    replace (S (length (created l) mod n)) with (length (created l) mod n + 1)%nat by lia.
    by rewrite Nat.Div0.add_mod_idemp_l.
  - intros k w Hk. destruct (decide (k < length (created l))%nat) as [Hlt'|Hge].
    + rewrite lookup_app_l in Hk by done. by apply Hlog.
    + rewrite lookup_app_r in Hk by lia.
      destruct (k - length (created l))%nat as [|j] eqn:Hj; simpl in Hk; [|done].
      injection Hk as <-. do 2 f_equal. lia.
Qed.

Lemma created_app l1 l2 : created (l1 ++ l2) = created l1 ++ created l2.
Proof. unfold created. apply omap_app. Qed.

Ltac pool_done :=
  unfold pool; cbn [fst snd]; rewrite ?created_app; simpl; rewrite ?app_nil_r;
  try reflexivity.

Lemma pool_createWebRtcTransport roomId userId direction env st :
  pool (after (createWebRtcTransport roomId userId direction) env st)
  = pool (after (createRoom roomId) env st).
Proof.
  unfold after, createWebRtcTransport, engine_createWebRtcTransport, heap_alloc.
  eff_unfold.
  destruct (createRoom roomId env st) as [[room|e] [s1 l1]]; [|pool_done].
  cbn [fst snd].
  destruct (JsMap.get userId (r_participants room)); cbn [fst snd]; [pool_done|].
  unfold pool, update_room; cbn [fst snd]. simpl.
  by destruct (JsMap.get roomId (rooms s1)).
Qed.

Lemma pool_connectTransport roomId userId t env st :
  pool (after (connectTransport roomId userId t) env st) = pool st.
Proof.
  destruct st as [s l].
  unfold after, connectTransport, lookup_room, lookup_participant, engine_connect.
  eff_unfold. cbn [fst snd].
  repeat (case_match; cbn [fst snd]; try done); simplify_eq; pool_done.
Qed.

Lemma pool_produce roomId userId t rtp kind env st :
  pool (after (produce roomId userId t rtp kind) env st) = pool st.
Proof.
  destruct st as [s l].
  unfold after, produce, lookup_room, lookup_participant, engine_produce.
  eff_unfold. cbn [fst snd].
  repeat (case_match; cbn [fst snd]; try done); simplify_eq; pool_done.
Qed.

Lemma pool_consume roomId userId p caps env st :
  pool (after (consume roomId userId p caps) env st) = pool st.
Proof.
  destruct st as [s l].
  unfold after, consume, lookup_room, lookup_participant, engine_consume.
  eff_unfold. cbn [fst snd].
  repeat (case_match; cbn [fst snd]; try done); simplify_eq; pool_done.
Qed.

Lemma pool_resumeConsumer roomId userId c env st :
  pool (after (resumeConsumer roomId userId c) env st) = pool st.
Proof.
  destruct st as [s l].
  unfold after, resumeConsumer, lookup_room, lookup_participant, engine_resume.
  eff_unfold. cbn [fst snd].
  repeat (case_match; cbn [fst snd]; try done); simplify_eq; pool_done.
Qed.

Lemma registry_participant_removed roomId userId a s :
  (workers (participant_removed roomId userId a s),
   workerIndex (participant_removed roomId userId a s))
  = (workers s, workerIndex s).
Proof.
  pose proof (registry_transports s (participant_transports a s)) as H.
  unfold participant_removed, update_room.
  destruct (JsMap.get roomId _); unfold registry in H; simpl; congruence.
Qed.

Lemma pool_closeParticipant roomId userId env st :
  pool (after (closeParticipant roomId userId) env st) = pool st.
Proof.
  destruct st as [s l]. unfold after.
  destruct (JsMap.get roomId (rooms s)) as [room|] eqn:H1;
    [|by rewrite closeParticipant_no_room].
  destruct (JsMap.get userId (r_participants room)) as [a|] eqn:H2;
    [|by erewrite closeParticipant_no_participant].
  pose proof (registry_participant_removed roomId userId a s) as Hreg.
  destruct (decide (JsMap.size (JsMap.delete userId (r_participants room)) = 0%nat)).
  - erewrite closeParticipant_last by done.
    pose proof (registry_router_close (r_router room)
                  (participant_removed roomId userId a s)) as Hrc.
    unfold registry in Hrc. pool_done. simpl in *. congruence.
  - erewrite closeParticipant_others by done. pool_done. congruence.
Qed.

Lemma round_robin_step n op env st :
  (0 < n)%nat → round_robin n st → round_robin n (mstep op env st).
Proof.
  intros Hn H. destruct op; simpl.
  - by apply round_robin_createRoom.
  - eapply round_robin_pool; [apply pool_createWebRtcTransport|].
    by apply round_robin_createRoom.
  - eapply round_robin_pool; [apply pool_connectTransport|done].
  - eapply round_robin_pool; [apply pool_produce|done].
  - eapply round_robin_pool; [apply pool_consume|done].
  - eapply round_robin_pool; [apply pool_resumeConsumer|done].
  - eapply round_robin_pool; [apply pool_closeParticipant|done].
Qed.

Lemma round_robin_reachable cpus st :
  (0 < cpus)%nat → reachable cpus st → round_robin (pool_size cpus) st.
Proof.
  intros Hc Hr. assert (0 < pool_size cpus)%nat by (unfold pool_size; lia).
  induction Hr as [env|st op env Hr IH].
  - pose proof (initialize_pool cpus env) as Hp. unfold pool in Hp.
    injection Hp as Hw Hi Hl. unfold round_robin. rewrite Hw, Hi, Hl. simpl.
    split; [done|]. split; [by rewrite Nat.Div0.mod_0_l|done].
  - by apply round_robin_step.
Qed.

(** Four rooms on a pool of three workers. *)
Definition st_four_rooms : MState * Log :=
  mstep (OpCreateRoom "d") env0
    (mstep (OpCreateRoom "c") env0
       (mstep (OpCreateRoom "b") env0
          (mstep (OpCreateRoom "a") env0
             (after (initialize 3) env0 (mstate0, []))))).

Lemma st_four_rooms_reachable : reachable 3 st_four_rooms.
Proof. repeat apply reach_step. apply reach_init. Defined.

(** C7. On a machine with at least one core the pool has
    [min cpus 8] workers, and in every reachable state the [k]-th room that
    was created (counting from 0, whichever operation created it) was given
    the worker at index [k mod] pool size; with three workers, four room
    creations get the workers 0, 1, 2, 0. *)
Theorem workers_round_robin (cpus : nat) (st : MState * Log) :
  (0 < cpus)%nat →
  reachable cpus st →
  length (workers (fst st)) = pool_size cpus
  ∧ (∀ k w, created (snd st) !! k = Some w → w = Z.of_nat (k mod pool_size cpus))
  ∧ created (snd st_four_rooms) = [0; 1; 2; 0]
  ∧ map (λ kv, r_workerIndex (snd kv)) (rooms (fst st_four_rooms)) = [0; 1; 2; 0].
Proof.
  intros Hc Hr. destruct (round_robin_reachable cpus st Hc Hr) as (Hw & _ & Hlog).
  split; [by rewrite Hw, length_map, length_seq|].
  split; [done|]. split; reflexivity.
Qed.

Lemma workers_round_robin_witness :
  length (workers (fst st_four_rooms)) = 3%nat
  ∧ (∀ k w, created (snd st_four_rooms) !! k = Some w → w = Z.of_nat (k mod 3)).
Proof.
  destruct (workers_round_robin 3 st_four_rooms) as (H1 & H2 & _).
  - lia.
  - apply st_four_rooms_reachable.
  - split; [exact H1 | exact H2].
Defined.

(** ** C4: transports per participant and direction *)

(** Which transports exist with which direction, and which of them each
    participant object holds.  Closing marks objects closed and empties
    producer and consumer maps; it does not touch this part of the state. *)
Definition transport_view (s : MState) : list string * list (list (nat * nat)) :=
  (map tr_direction (e_transports (engine s)), map p_transports (heap s)).

Lemma map_arena_alter {A B} (f : A → B) (g : A → A) i l :
  (∀ x, f (g x) = f x) → map f (arena_alter i g l) = map f l.
Proof.
  intros Hfg. unfold arena_alter. destruct (l !! i) as [x|] eqn:Hx; [|done].
  change (f <$> <[i:=g x]> l = f <$> l).
  rewrite list_fmap_insert, Hfg. apply list_insert_id.
  by rewrite list_lookup_fmap, Hx.
Qed.

Lemma view_consumer_listener a c s :
  transport_view (consumer_listener a c s) = transport_view s.
Proof.
  unfold transport_view, consumer_listener, heap_alter, consumer_close. simpl.
  by rewrite map_arena_alter.
Qed.

Lemma view_notify_consumer ev s c :
  transport_view (notify_consumer ev s c) = transport_view s.
Proof.
  unfold notify_consumer. repeat case_match; try done.
  by rewrite view_consumer_listener.
Qed.

Lemma view_consumers ev s l :
  transport_view (foldl (notify_consumer ev) s l) = transport_view s.
Proof.
  apply (foldl_preserve (λ s', transport_view s' = transport_view s)); [|done].
  intros a b Ha. by rewrite view_notify_consumer.
Qed.

Lemma view_producer_close p s : transport_view (producer_close p s) = transport_view s.
Proof.
  unfold producer_close. repeat case_match; try done. by rewrite view_consumers.
Qed.

Lemma view_notify_producer s p :
  transport_view (notify_producer s p) = transport_view s.
Proof.
  unfold notify_producer. repeat case_match; try done;
    rewrite view_consumers; try done.
  unfold producer_listener, heap_alter.
  transitivity (transport_view
                  (producer_close p
                     (set_engine (set_e_producers (arena_alter p pr_mark_closed)) s)));
    [|by rewrite view_producer_close].
  unfold transport_view. simpl. by rewrite map_arena_alter.
Qed.

Lemma view_transport_close s t :
  transport_view (transport_close s t) = transport_view s.
Proof.
  unfold transport_close. repeat case_match; try done.
  rewrite view_consumers.
  transitivity (transport_view
                  (set_engine (set_e_transports (arena_alter t tr_mark_closed)) s)).
  - apply (foldl_preserve (λ s', transport_view s' = transport_view _)); [|done].
    intros a b Ha. by rewrite view_notify_producer.
  - unfold transport_view. simpl. by rewrite map_arena_alter.
Qed.

Lemma view_transports s l :
  transport_view (foldl transport_close s l) = transport_view s.
Proof.
  apply (foldl_preserve (λ s', transport_view s' = transport_view s)); [|done].
  intros a b Ha. by rewrite view_transport_close.
Qed.

Lemma view_router_close r s : transport_view (router_close r s) = transport_view s.
Proof. unfold router_close. by rewrite view_transports. Qed.

Lemma view_update_room roomId f s :
  transport_view (update_room roomId f s) = transport_view s.
Proof. unfold update_room. by case_match. Qed.

(** Every participant of a registered room is an object of the store, and
    every transport a participant holds is an engine transport filed under
    its own identifier. *)
Definition held_ok (n : nat) (m : list (nat * nat)) : Prop :=
  Forall (λ kv, snd kv = fst kv ∧ (fst kv < n)%nat) m.

Definition well_formed (s : MState) : Prop :=
  (∀ roomId room userId a,
     JsMap.get roomId (rooms s) = Some room →
     JsMap.get userId (r_participants room) = Some a →
     (a < length (snd (transport_view s)))%nat)
  ∧ Forall (held_ok (length (fst (transport_view s)))) (snd (transport_view s)).

Lemma well_formed_view s s' :
  rooms s' = rooms s → transport_view s' = transport_view s →
  well_formed s → well_formed s'.
Proof. unfold well_formed. intros -> ->. done. Qed.

Lemma createRoom_cases roomId env s l :
  (∃ room, JsMap.get roomId (rooms s) = Some room
           ∧ createRoom roomId env (s, l) = (Ok room, (s, l)))
  ∨ (∃ w, JsMap.get roomId (rooms s) = None
          ∧ createRoom roomId env (s, l) =
              (Ok (new_room roomId env s w),
               (room_registered roomId env s w,
                l ++ [(LInfo, MsgRoomCreated roomId (indexOf w (workers s)))])))
  ∨ (∃ e s1, JsMap.get roomId (rooms s) = None
             ∧ createRoom roomId env (s, l) = (Throw e, (s1, l))
             ∧ rooms s1 = rooms s ∧ transport_view s1 = transport_view s).
Proof.
  destruct (JsMap.get roomId (rooms s)) as [room|] eqn:Hget.
  - left. exists room. split; [done|]. by apply createRoom_existing.
  - right. destruct (next_worker s) as [w|] eqn:Hw.
    + left. exists w. split; [done|]. by apply createRoom_new.
    + right. eexists _, _. split; [done|]. split; [by apply createRoom_no_worker|].
      done.
Qed.

Definition transport_added (router : nat) (userId direction : string) (s : MState)
    : MState :=
  set_engine (set_e_transports
                (λ l, l ++ [mkTransport router userId direction false false])) s.

(** The state after a successful [createWebRtcTransport], from the state
    [s1] in which [createRoom] returned [room]. *)
Definition transport_registered (roomId userId direction : string) (env : Env)
    (room : Room) (s1 : MState) : MState :=
  let t := length (e_transports (engine s1)) in
  let s2 := transport_added (r_router room) userId direction s1 in
  match JsMap.get userId (r_participants room) with
  | Some a => heap_alter a (p_set_transports (JsMap.set t t)) s2
  | None =>
      heap_alter (length (heap s1)) (p_set_transports (JsMap.set t t))
        (update_room roomId (r_set_participants (JsMap.set userId (length (heap s1))))
           (set_heap (λ h, h ++ [mkParticipant userId [] [] [] (now env)]) s2))
  end.

Lemma createWebRtcTransport_ok roomId userId direction env st room s1 l1 :
  createRoom roomId env st = (Ok room, (s1, l1)) →
  createWebRtcTransport roomId userId direction env st =
    (Ok (mkTransportData (length (e_transports (engine s1)))),
     (transport_registered roomId userId direction env room s1, l1)).
Proof.
  intros H. unfold createWebRtcTransport, engine_createWebRtcTransport, heap_alloc.
  eff_unfold. rewrite H. cbn [fst snd]. unfold transport_registered.
  by destruct (JsMap.get userId (r_participants room)).
Qed.

Lemma createWebRtcTransport_throw roomId userId direction env st e s1 l1 :
  createRoom roomId env st = (Throw e, (s1, l1)) →
  createWebRtcTransport roomId userId direction env st =
    (Throw e, (s1, l1 ++ [(LError, MsgFailedTransport userId e)])).
Proof.
  intros H. unfold createWebRtcTransport. eff_unfold. by rewrite H.
Qed.

Lemma length_arena_alter {A} (g : A → A) i l : length (arena_alter i g l) = length l.
Proof. unfold arena_alter. case_match; [apply length_insert|done]. Qed.

Lemma map_arena_alter_comm {A B} (f : A → B) (g : A → A) (g' : B → B) i l :
  (∀ x, f (g x) = g' (f x)) → map f (arena_alter i g l) = arena_alter i g' (map f l).
Proof.
  intros Hfg. unfold arena_alter.
  change (map f l) with (f <$> l). rewrite list_lookup_fmap.
  destruct (l !! i) as [x|]; simpl; [|done].
  change (f <$> <[i:=g x]> l = <[i:=g' (f x)]> (f <$> l)).
  by rewrite list_fmap_insert, Hfg.
Qed.

Lemma Forall_arena_alter {A} (P Q : A → Prop) (g : A → A) i l :
  Forall P l → (∀ x, P x → Q x) → (∀ x, P x → Q (g x)) → Forall Q (arena_alter i g l).
Proof.
  intros Hl Hpq Hg. unfold arena_alter. destruct (l !! i) as [x|] eqn:Hx.
  - apply Forall_insert; [by eapply Forall_impl|]. apply Hg. by eapply Forall_lookup_1.
  - by eapply Forall_impl.
Qed.

Lemma lookup_arena_alter {A} (g : A → A) i l :
  arena_alter i g l !! i = g <$> l !! i.
Proof.
  unfold arena_alter. destruct (l !! i) as [x|] eqn:Hx; simpl; [|done].
  apply list_lookup_insert_eq. by eapply lookup_lt_Some.
Qed.

Lemma lookup_arena_alter_ne {A} (g : A → A) i j l :
  i ≠ j → arena_alter i g l !! j = l !! j.
Proof.
  intros Hne. unfold arena_alter. destruct (l !! i) as [x|]; [|done].
  by apply list_lookup_insert_ne.
Qed.

Lemma held_ok_mono n m : held_ok n m → held_ok (S n) m.
Proof.
  intros H. eapply Forall_impl; [exact H|].
  intros [k v] [? ?]. simpl in *. split; [done|lia].
Qed.

Lemma held_ok_fresh n m : held_ok n m → JsMap.get n m = None.
Proof.
  induction 1 as [|[k v] m [_ Hk] _ IH]; simpl in *; [done|].
  rewrite decide_False by lia. done.
Qed.

Lemma set_fresh {K V} `{EqDecision K} (k : K) (v : V) m :
  JsMap.get k m = None → JsMap.set k v m = m ++ [(k, v)].
Proof.
  induction m as [|[k' v'] m IH]; simpl; [done|].
  destruct (decide (k' = k)); [done|]. intros H'. by rewrite IH.
Qed.

Lemma held_ok_set n m : held_ok n m → held_ok (S n) (JsMap.set n n m).
Proof.
  intros H. rewrite set_fresh by by apply held_ok_fresh.
  apply Forall_app. split; [by apply held_ok_mono|].
  apply Forall_singleton. simpl. split; [done|lia].
Qed.

Lemma get_delete_Some {K V} `{EqDecision K} (k k' : K) (v : V) m :
  JsMap.get k' (JsMap.delete k m) = Some v → JsMap.get k' m = Some v.
Proof.
  destruct (decide (k = k')) as [->|Hne].
  - by rewrite jsmap_get_delete_eq.
  - by rewrite jsmap_get_delete_ne.
Qed.

Lemma view_transport_registered roomId userId direction env room s1 :
  transport_view (transport_registered roomId userId direction env room s1)
  = (fst (transport_view s1) ++ [direction],
     match JsMap.get userId (r_participants room) with
     | Some a =>
         arena_alter a
           (JsMap.set (length (e_transports (engine s1)))
              (length (e_transports (engine s1))))
           (snd (transport_view s1))
     | None =>
         arena_alter (length (heap s1))
           (JsMap.set (length (e_transports (engine s1)))
              (length (e_transports (engine s1))))
           (snd (transport_view s1) ++ [[]])
     end).
Proof.
  unfold transport_registered. destruct (JsMap.get userId (r_participants room)).
  - unfold transport_view. simpl. rewrite map_app. simpl. f_equal.
    by apply map_arena_alter_comm.
  - unfold heap_alter. unfold transport_view at 1. simpl.
    unfold update_room. simpl.
    destruct (JsMap.get roomId (rooms s1)); simpl; rewrite map_app; simpl; f_equal;
      by rewrite (map_arena_alter_comm p_transports _
                    (JsMap.set (length (e_transports (engine s1)))
                       (length (e_transports (engine s1))))), ?map_app.
Qed.

Lemma rooms_transport_registered roomId userId direction env room s1 :
  JsMap.get roomId (rooms s1) = Some room →
  rooms (transport_registered roomId userId direction env room s1)
  = match JsMap.get userId (r_participants room) with
    | Some a => rooms s1
    | None =>
        JsMap.set roomId
          (r_set_participants (JsMap.set userId (length (heap s1))) room) (rooms s1)
    end.
Proof.
  intros H. unfold transport_registered.
  destruct (JsMap.get userId (r_participants room)); [done|].
  unfold heap_alter, update_room. simpl. by rewrite H.
Qed.

Lemma well_formed_createRoom roomId env s l r s1 l1 :
  createRoom roomId env (s, l) = (r, (s1, l1)) → well_formed s → well_formed s1.
Proof.
  intros Hrun Hwf.
  destruct (createRoom_cases roomId env s l)
    as [(room & _ & H)|[(w & Hget & H)|(e & s1' & _ & H & Hr & Hv)]];
    rewrite H in Hrun; simplify_eq; [done| |].
  2:{ apply (well_formed_view s); [done| |done]. unfold transport_view. congruence. }
  destruct Hwf as [Hp Ht]. split; [|done].
  intros roomId' room' userId a. simpl.
  destruct (decide (roomId = roomId')) as [->|Hne].
  - rewrite jsmap_get_set_eq. by intros [= <-].
  - rewrite jsmap_get_set_ne by done. apply Hp.
Qed.

Ltac len_lia :=
  unfold transport_view in *; simpl in *; rewrite ?length_map in *; lia.

Lemma well_formed_transport_registered roomId userId direction env room s1 :
  JsMap.get roomId (rooms s1) = Some room →
  well_formed s1 →
  well_formed (transport_registered roomId userId direction env room s1).
Proof.
  intros Hroom [Hp Ht]. unfold well_formed.
  rewrite view_transport_registered, (rooms_transport_registered _ _ _ _ _ _ Hroom).
  cbn [fst snd]. rewrite length_app. simpl.
  assert (Hlen : length (e_transports (engine s1)) = length (fst (transport_view s1)))
    by (unfold transport_view; simpl; by rewrite length_map).
  assert (Hheap : length (heap s1) = length (snd (transport_view s1)))
    by (unfold transport_view; simpl; by rewrite length_map).
  rewrite Hlen, Nat.add_1_r.
  destruct (JsMap.get userId (r_participants room)) as [a|] eqn:Hu.
  - split.
    + intros ????. rewrite length_arena_alter. apply Hp.
    + eapply Forall_arena_alter; [exact Ht|apply held_ok_mono|apply held_ok_set].
  - split.
    + intros roomId' room' userId' a.
      rewrite length_arena_alter, length_app. simpl.
      destruct (decide (roomId = roomId')) as [->|Hne].
      * rewrite jsmap_get_set_eq. intros [= <-]. simpl.
        destruct (decide (userId = userId')) as [->|Hne].
        -- rewrite jsmap_get_set_eq. intros [= <-]. len_lia.
        -- rewrite jsmap_get_set_ne by done. intros H.
           pose proof (Hp _ _ _ _ Hroom H). len_lia.
      * rewrite jsmap_get_set_ne by done. intros H1 H2.
        pose proof (Hp _ _ _ _ H1 H2). len_lia.
    + eapply (Forall_arena_alter (held_ok (length (fst (transport_view s1)))));
        [|apply held_ok_mono|apply held_ok_set].
      apply Forall_app. split; [done|]. apply Forall_singleton. constructor.
Qed.

Definition shape (st : MState * Log)
    : list (string * Room) * (list string * list (list (nat * nat))) :=
  (rooms (fst st), transport_view (fst st)).

Ltac shape_done :=
  unfold shape, transport_view, heap_alter; simpl;
  rewrite ?map_arena_alter by done; try reflexivity.

Lemma shape_connectTransport roomId userId t env st :
  shape (after (connectTransport roomId userId t) env st) = shape st.
Proof.
  destruct st as [s l].
  unfold after, connectTransport, lookup_room, lookup_participant, engine_connect.
  eff_unfold. cbn [fst snd].
  repeat (case_match; cbn [fst snd]; try done); simplify_eq; shape_done.
Qed.

Lemma shape_produce roomId userId t rtp kind env st :
  shape (after (produce roomId userId t rtp kind) env st) = shape st.
Proof.
  destruct st as [s l].
  unfold after, produce, lookup_room, lookup_participant, engine_produce.
  eff_unfold. cbn [fst snd].
  repeat (case_match; cbn [fst snd]; try done); simplify_eq; shape_done.
Qed.

Lemma shape_consume roomId userId p caps env st :
  shape (after (consume roomId userId p caps) env st) = shape st.
Proof.
  destruct st as [s l].
  unfold after, consume, lookup_room, lookup_participant, engine_consume.
  eff_unfold. cbn [fst snd].
  repeat (case_match; cbn [fst snd]; try done); simplify_eq; shape_done.
Qed.

Lemma shape_resumeConsumer roomId userId c env st :
  shape (after (resumeConsumer roomId userId c) env st) = shape st.
Proof.
  destruct st as [s l].
  unfold after, resumeConsumer, lookup_room, lookup_participant, engine_resume.
  eff_unfold. cbn [fst snd].
  repeat (case_match; cbn [fst snd]; try done); simplify_eq; shape_done.
Qed.

Lemma well_formed_shape st st' :
  shape st' = shape st → well_formed (fst st) → well_formed (fst st').
Proof.
  intros H. apply well_formed_view;
    [exact (f_equal fst H) | exact (f_equal snd H)].
Qed.

Lemma view_participant_removed roomId userId a s :
  transport_view (participant_removed roomId userId a s) = transport_view s.
Proof.
  unfold participant_removed. by rewrite view_update_room, view_transports.
Qed.

Lemma well_formed_closeParticipant roomId userId env st :
  well_formed (fst st) →
  well_formed (fst (after (closeParticipant roomId userId) env st)).
Proof.
  destruct st as [s l]. intros Hwf. unfold after. simpl in Hwf.
  destruct (JsMap.get roomId (rooms s)) as [room|] eqn:H1;
    [|by rewrite closeParticipant_no_room].
  destruct (JsMap.get userId (r_participants room)) as [a|] eqn:H2;
    [|by erewrite closeParticipant_no_participant].
  assert (Hrem : well_formed (participant_removed roomId userId a s)).
  { destruct Hwf as [Hp Ht]. unfold well_formed.
    rewrite view_participant_removed. split; [|done].
    intros roomId' room' userId' a'.
    erewrite rooms_participant_removed by done.
    destruct (decide (roomId = roomId')) as [->|Hne].
    - rewrite jsmap_get_set_eq. intros [= <-]. simpl. intros Hd.
      eapply Hp; [done|]. by eapply get_delete_Some.
    - rewrite jsmap_get_set_ne by done. apply Hp. }
  destruct (decide (JsMap.size (JsMap.delete userId (r_participants room)) = 0%nat)).
  - erewrite closeParticipant_last by done. cbn [fst snd].
    destruct Hrem as [Hp Ht]. unfold well_formed.
    change (transport_view (set_rooms ?f ?x)) with (transport_view x).
    rewrite view_router_close. split; [|done].
    intros roomId' room' userId' a'. simpl.
    rewrite (registry_rooms _ _ (registry_router_close _ _)).
    intros Hd. eapply Hp. by eapply get_delete_Some.
  - erewrite closeParticipant_others by done. exact Hrem.
Qed.

Lemma well_formed_createWebRtcTransport roomId userId direction env st :
  well_formed (fst st) →
  well_formed (fst (after (createWebRtcTransport roomId userId direction) env st)).
Proof.
  destruct st as [s l]. intros Hwf. unfold after.
  destruct (createRoom roomId env (s, l)) as [[room|e] [s1 l1]] eqn:Hc.
  - erewrite createWebRtcTransport_ok by done. cbn [fst snd].
    apply well_formed_transport_registered; [|by eapply well_formed_createRoom].
    destruct (createRoom_cases roomId env s l)
      as [(room' & Hg & H)|[(w & Hget & H)|(e & s1' & _ & H & _)]];
      rewrite H in Hc; simplify_eq; [done|].
    simpl. apply jsmap_get_set_eq.
  - erewrite createWebRtcTransport_throw by done. cbn [fst snd].
    by eapply well_formed_createRoom.
Qed.

Lemma well_formed_step op env st :
  well_formed (fst st) → well_formed (fst (mstep op env st)).
Proof.
  intros H. destruct op; simpl.
  - destruct st as [s l]. unfold after.
    destruct (createRoom roomId env (s, l)) as [r [s1 l1]] eqn:Hc.
    by eapply well_formed_createRoom.
  - by apply well_formed_createWebRtcTransport.
  - eapply well_formed_shape; [apply shape_connectTransport|done].
  - eapply well_formed_shape; [apply shape_produce|done].
  - eapply well_formed_shape; [apply shape_consume|done].
  - eapply well_formed_shape; [apply shape_resumeConsumer|done].
  - by apply well_formed_closeParticipant.
Qed.

Lemma initialize_shape cpus env :
  shape (after (initialize cpus) env (mstate0, [])) = ([], ([], [])).
Proof.
  unfold after, initialize.
  destruct (createWorkers_run env (Nat.min cpus 8) 0 mstate0
              ([] ++ [(LInfo, MsgCreatingWorkers (Nat.min cpus 8))]))
    as (s' & Hrun & _ & _ & Hr & Hh & He); [done..|].
  unfold bind at 1. unfold log at 1. unfold bind at 1.
  change (fst (mstate0, @nil LogEntry)) with mstate0.
  change (snd (mstate0, @nil LogEntry)) with (@nil LogEntry).
  rewrite Hrun. eff_unfold. unfold shape, transport_view. simpl.
  by rewrite Hr, Hh, He.
Qed.

Lemma well_formed_reachable cpus st : reachable cpus st → well_formed (fst st).
Proof.
  induction 1 as [env|st op env Hr IH].
  - pose proof (initialize_shape cpus env) as Hs. unfold shape in Hs.
    injection Hs as Hr Hd Hh. unfold well_formed. rewrite Hr. unfold transport_view.
    rewrite Hd, Hh. simpl. split; [done|constructor].
  - by apply well_formed_step.
Qed.

(** The transports held by user [userId] in room [roomId]. *)
Definition held_transports (s : MState) (roomId userId : string) : list nat :=
  match JsMap.get roomId (rooms s) with
  | Some room =>
      match JsMap.get userId (r_participants room) with
      | Some a => participant_transports a s
      | None => []
      end
  | None => []
  end.

(** [transport.appData.direction === d] *)
Definition has_direction (e : Engine) (d : string) (t : nat) : bool :=
  match e_transports e !! t with
  | Some tr => bool_decide (tr_direction tr = d)
  | None => false
  end.

Definition count_direction (s : MState) (roomId userId d : string) : nat :=
  length (List.filter (has_direction (engine s) d) (held_transports s roomId userId)).

Definition one_per_direction (s : MState) : Prop :=
  ∀ roomId userId,
    (count_direction s roomId userId "send" ≤ 1)%nat
    ∧ (count_direction s roomId userId "recv" ≤ 1)%nat.

(** One worker, then user [u1] asks twice for a send transport in [s1]. *)
Definition st_two_send : MState * Log :=
  mstep (OpCreateTransport "s1" "u1" "send") env0
    (mstep (OpCreateTransport "s1" "u1" "send") env0
       (after (initialize 1) env0 (mstate0, []))).

(** C4, as stated, fails: nothing in [createWebRtcTransport] looks at the
    transports the participant already holds. *)
Lemma two_send_transports :
  ¬ (∀ st, reachable 1 st → one_per_direction (fst st)).
Proof.
  intros H.
  assert (Hr : reachable 1 st_two_send) by (do 2 apply reach_step; apply reach_init).
  destruct (H _ Hr "s1" "u1") as [Hsend _].
  vm_compute in Hsend. lia.
Qed.

Lemma values_app {K V} (m1 m2 : list (K * V)) :
  JsMap.values (m1 ++ m2) = JsMap.values m1 ++ JsMap.values m2.
Proof. apply map_app. Qed.

Lemma held_ok_values n m t : held_ok n m → In t (JsMap.values m) → (t < n)%nat.
Proof.
  intros H Hin. unfold JsMap.values in Hin. apply in_map_iff in Hin.
  destruct Hin as ([k v] & <- & Hin). simpl.
  apply list_elem_of_In in Hin.
  pose proof (proj1 (Forall_forall _ _) H _ Hin) as [Hv Hk]. simpl in *. lia.
Qed.

Lemma count_transport_registered roomId userId direction env room s1 d :
  well_formed s1 →
  JsMap.get roomId (rooms s1) = Some room →
  count_direction (transport_registered roomId userId direction env room s1)
    roomId userId d
  = (count_direction s1 roomId userId d
     + if decide (direction = d) then 1 else 0)%nat.
Proof.
  intros [Hp Ht] Hroom. unfold count_direction, held_transports.
  rewrite (rooms_transport_registered _ _ _ _ _ _ Hroom), Hroom.
  set (n := length (e_transports (engine s1))).
  assert (Hnew : ∀ e, e_transports e = e_transports (engine s1)
                        ++ [mkTransport (r_router room) userId direction false false] →
                      has_direction e d n
                      = if decide (direction = d) then true else false).
  { intros e Hs. unfold has_direction. rewrite Hs, lookup_app_r by (unfold n; lia).
    rewrite Nat.sub_diag. simpl.
    destruct (decide (direction = d));
      [by rewrite bool_decide_eq_true_2 | by rewrite bool_decide_eq_false_2]. }
  assert (Hold : ∀ e t, e_transports e = e_transports (engine s1)
                          ++ [mkTransport (r_router room) userId direction false false] →
                        (t < n)%nat →
                        has_direction e d t = has_direction (engine s1) d t).
  { intros e t Hs Hlt. unfold has_direction. by rewrite Hs, lookup_app_l. }
  destruct (JsMap.get userId (r_participants room)) as [a|] eqn:Hu.
  - rewrite Hroom, Hu.
    assert (Ha : (a < length (heap s1))%nat).
    { pose proof (Hp _ _ _ _ Hroom Hu). len_lia. }
    destruct (lookup_lt_is_Some_2 _ _ Ha) as [p Hpa].
    assert (Hheld : held_ok n (p_transports p)).
    { unfold transport_view in Ht. simpl in Ht. rewrite length_map in Ht.
      apply (proj1 (Forall_lookup _ _) Ht a).
      change (map p_transports (heap s1)) with (p_transports <$> heap s1).
      by rewrite list_lookup_fmap, Hpa. }
    unfold participant_transports, transport_registered. rewrite Hu, Hpa.
    unfold heap_alter. simpl. rewrite lookup_arena_alter, Hpa. simpl.
    fold n. rewrite set_fresh by by apply held_ok_fresh.
    rewrite values_app, List.filter_app, length_app. simpl.
    rewrite Hnew by done. f_equal.
    + f_equal. apply List.filter_ext_in. intros t Hin.
      apply Hold; [done|]. by eapply held_ok_values.
    + by destruct (decide (direction = d)).
  - rewrite jsmap_get_set_eq. simpl. rewrite jsmap_get_set_eq.
    unfold participant_transports, transport_registered. rewrite Hu.
    unfold heap_alter, update_room. simpl. rewrite Hroom. simpl.
    rewrite lookup_arena_alter, lookup_app_r, Nat.sub_diag by lia. simpl.
    fold n. rewrite Hnew by done. by destruct (decide (direction = d)).
Qed.

(** C4, amended. [createWebRtcTransport] sets no bound: in every reachable
    state a successful call gives the participant one more transport of the
    requested direction, under a new identifier, and leaves the number of
    its transports of every other direction as it was. *)
Theorem createWebRtcTransport_adds_transport (cpus : nat) (st st1 : MState * Log)
    (roomId userId direction : string) (env : Env) (td : TransportData) :
  reachable cpus st →
  createWebRtcTransport roomId userId direction env st = (Ok td, st1) →
  td_id td = length (e_transports (engine (fst st)))
  ∧ ∀ d, count_direction (fst st1) roomId userId d
         = (count_direction (fst st) roomId userId d
            + if decide (direction = d) then 1 else 0)%nat.
Proof.
  intros Hreach Hrun. pose proof (well_formed_reachable _ _ Hreach) as Hwf.
  destruct st as [s l]. simpl in Hwf.
  destruct (createRoom roomId env (s, l)) as [[room|e] [s1 l1]] eqn:Hc.
  2:{ rewrite (createWebRtcTransport_throw _ _ _ _ _ _ _ _ Hc) in Hrun. discriminate. }
  rewrite (createWebRtcTransport_ok _ _ _ _ _ _ _ _ Hc) in Hrun.
  injection Hrun as <- <-. cbn [fst snd td_id].
  pose proof (well_formed_createRoom _ _ _ _ _ _ _ Hc Hwf) as Hwf1.
  destruct (createRoom_cases roomId env s l)
    as [(room' & Hg & H)|[(w & Hget & H)|(e & s1' & _ & H & _)]];
    rewrite H in Hc; simplify_eq.
  - split; [done|]. intros d. by apply count_transport_registered.
  - split; [done|]. intros d.
    rewrite count_transport_registered; [|done|simpl; apply jsmap_get_set_eq].
    f_equal. unfold count_direction, held_transports. simpl.
    rewrite jsmap_get_set_eq, Hget. done.
Qed.

(** ** C6: [consume] and the receive transport *)

Lemma find_recv_None e ts :
  (∀ t, In t ts → has_direction e "recv" t = false) → find_recv e ts = None.
Proof.
  induction ts as [|t ts IH]; simpl; intros H; [done|].
  pose proof (H t (or_introl eq_refl)) as Ht. unfold has_direction in Ht.
  destruct (e_transports e !! t) as [tr|]; [|by auto].
  destruct (decide (tr_direction tr = "recv")) as [Heq|]; [|by auto].
  by rewrite bool_decide_eq_true_2 in Ht.
Qed.

Lemma find_recv_Some e ts t :
  In t ts → has_direction e "recv" t = true → is_Some (find_recv e ts).
Proof.
  induction ts as [|t' ts IH]; simpl; intros Hin Ht; [done|].
  destruct (e_transports e !! t') as [tr|] eqn:Htr.
  - destruct (decide (tr_direction tr = "recv")); [by eexists|].
    destruct Hin as [->|Hin]; [|by auto].
    unfold has_direction in Ht. rewrite Htr in Ht.
    by rewrite bool_decide_eq_false_2 in Ht.
  - destruct Hin as [->|Hin]; [|by auto].
    unfold has_direction in Ht. by rewrite Htr in Ht.
Qed.

Lemma find_producer_ext h h' producerId ps :
  (∀ b, p_producers <$> h' !! b = p_producers <$> h !! b) →
  find_producer h' producerId ps = find_producer h producerId ps.
Proof.
  intros Hext. induction ps as [|b ps IH]; simpl; [done|].
  pose proof (Hext b) as Hb.
  destruct (h' !! b) as [q'|], (h !! b) as [q|]; simpl in Hb; simplify_eq;
    [|done]. by rewrite Hb, IH.
Qed.

Lemma find_producer_Some h producerId ps b q producer :
  In b ps → h !! b = Some q →
  JsMap.get producerId (p_producers q) = Some producer →
  is_Some (find_producer h producerId ps).
Proof.
  induction ps as [|b' ps IH]; simpl; intros Hin Hq Hget; [done|].
  destruct (h !! b') as [q'|] eqn:Hq'.
  - unfold JsMap.has. destruct (JsMap.get producerId (p_producers q')) eqn:Hg;
      [by eexists|].
    destruct Hin as [->|Hin]; [congruence|by eauto].
  - destruct Hin as [->|Hin]; [congruence|by eauto].
Qed.

Lemma co_producer_new e t producerId :
  co_producer (new_consumer e t producerId) = producerId.
Proof. unfold new_consumer. by case_match. Qed.

Lemma consume_ok roomId userId producerId caps env s l room a p producer t :
  JsMap.get roomId (rooms s) = Some room →
  JsMap.get userId (r_participants room) = Some a →
  heap s !! a = Some p →
  find_producer (heap s) producerId (JsMap.values (r_participants room)) = Some producer →
  canConsume (engine s) (r_router room) producerId caps = true →
  find_recv (engine s) (JsMap.values (p_transports p)) = Some t →
  ∃ st2,
    consume roomId userId producerId caps env (s, l) =
      (Ok (mkConsumerData (length (e_consumers (engine s)))
             (co_kind (new_consumer (engine s) t producerId))
             (co_rtpParameters (new_consumer (engine s) t producerId))
             producerId), st2)
    ∧ e_consumers (engine (fst st2))
      = e_consumers (engine s)
          ++ [co_set_listeners a (new_consumer (engine s) t producerId)]
    ∧ (∃ p', heap (fst st2) !! a = Some p'
             ∧ JsMap.get (length (e_consumers (engine s))) (p_consumers p')
               = Some (length (e_consumers (engine s)))).
Proof.
  intros H1 H2 H3 H4 H5 H6.
  unfold consume, lookup_room, lookup_participant, engine_consume. eff_unfold.
  cbn [fst snd]. rewrite H1. cbn [fst snd]. rewrite H2. cbn [fst snd]. rewrite H3.
  cbn [fst snd]. rewrite H4, H5. simpl.
  rewrite H6. simpl. rewrite co_producer_new.
  eexists; split; [reflexivity|]; simpl; split.
  - unfold arena_alter.
    rewrite lookup_app_r, Nat.sub_diag by lia; simpl.
    rewrite insert_app_r_alt, Nat.sub_diag by lia; done.
  - rewrite lookup_arena_alter, H3; simpl; eexists; split; [done|].
    simpl; apply jsmap_get_set_eq.
Qed.

Lemma find_recv_found e ts t :
  find_recv e ts = Some t → In t ts ∧ has_direction e "recv" t = true.
Proof.
  induction ts as [|t' ts IH]; simpl; intros H; [done|].
  destruct (e_transports e !! t') as [tr|] eqn:Htr.
  - destruct (decide (tr_direction tr = "recv")) as [Hd|Hd].
    + injection H as <-. split; [by left|].
      unfold has_direction. rewrite Htr. by apply bool_decide_eq_true.
    + destruct (IH H). by auto.
  - destruct (IH H). by auto.
Qed.

Lemma values_set_In (k v t : nat) (m : list (nat * nat)) :
  In t (JsMap.values (JsMap.set k v m)) → t = v ∨ In t (JsMap.values m).
Proof.
  induction m as [|[k' v'] m IH]; simpl.
  - intros [<-|[]]. by left.
  - destruct (decide (k' = k)); simpl.
    + intros [<-|Hin]; [by left|]. right. by right.
    + intros [<-|Hin]; [right; by left|].
      destruct (IH Hin); [by left|]. right. by right.
Qed.

(** C6. For a participant of a room and a producer of that room that the
    receiver can decode: while the participant holds no transport whose
    direction is [recv], [consume] throws "No receive transport found" and
    changes nothing; once [createWebRtcTransport] has given the participant
    a [recv] transport, which always succeeds here, the same call returns
    the descriptor of a new consumer of that producer.  The descriptor
    carries the kind and the format of the producer; the consumer it names
    is the one new object of the engine, on the new [recv] transport,
    paused and open, with both listeners bound to the participant, and it
    is filed in the participant's consumer map. *)
Theorem consume_requires_recv_transport (roomId userId : string) (producerId : nat)
    (caps : RtpCapabilities) (env env1 env2 : Env) (s : MState) (l : Log)
    (room : Room) (a : nat) (p : Participant) (b : nat) (q : Participant)
    (producer : nat) :
  JsMap.get roomId (rooms s) = Some room →
  JsMap.get userId (r_participants room) = Some a →
  heap s !! a = Some p →
  In b (JsMap.values (r_participants room)) →
  heap s !! b = Some q →
  JsMap.get producerId (p_producers q) = Some producer →
  canConsume (engine s) (r_router room) producerId caps = true →
  (∀ t, In t (JsMap.values (p_transports p)) →
        has_direction (engine s) "recv" t = false) →
  consume roomId userId producerId caps env (s, l)
  = (Throw (Error "No receive transport found"), (s, l))
  ∧ ∃ td st1 cd st2,
      createWebRtcTransport roomId userId "recv" env1 (s, l) = (Ok td, st1)
      ∧ consume roomId userId producerId caps env2 st1 = (Ok cd, st2)
      ∧ cd_producerId cd = producerId
      ∧ cd_id cd = length (e_consumers (engine s))
      ∧ ∃ po p',
          e_producers (engine s) !! producerId = Some po
          ∧ cd_kind cd = pr_kind po
          ∧ cd_rtpParameters cd = pr_rtpParameters po
          ∧ e_consumers (engine (fst st2))
            = e_consumers (engine s)
                ++ [mkConsumer (td_id td) producerId (pr_kind po) (pr_rtpParameters po)
                      true false (Some a) (Some a)]
          ∧ heap (fst st2) !! a = Some p'
          ∧ JsMap.get (cd_id cd) (p_consumers p') = Some (cd_id cd).
Proof.
  intros Hroom Hu Hp Hb Hq Hprod Hcan Hnone.
  destruct (find_producer_Some _ _ _ _ _ _ Hb Hq Hprod) as [pr Hfind].
  split.
  - unfold consume, lookup_room, lookup_participant. eff_unfold.
    cbn [fst snd]. rewrite Hroom. cbn [fst snd]. rewrite Hu. cbn [fst snd].
    rewrite Hp. cbn [fst snd]. rewrite Hfind, Hcan. simpl.
    by rewrite find_recv_None.
  - pose proof (createRoom_existing roomId env1 (s, l) room Hroom) as Hc.
    rewrite (createWebRtcTransport_ok _ _ "recv" _ _ _ _ _ Hc).
    set (n := length (e_transports (engine s))).
    set (s1 := transport_registered roomId userId "recv" env1 room s).
    assert (Hs1 : s1 = heap_alter a (p_set_transports (JsMap.set n n))
                         (transport_added (r_router room) userId "recv" s)).
    { unfold s1, transport_registered. by rewrite Hu. }
    assert (Hp1 : heap s1 !! a = Some (p_set_transports (JsMap.set n n) p)).
    { rewrite Hs1. unfold heap_alter. simpl. by rewrite lookup_arena_alter, Hp. }
    assert (Hrecv : is_Some (find_recv (engine s1)
                               (JsMap.values (JsMap.set n n (p_transports p))))).
    { apply (find_recv_Some _ _ n).
      - eapply jsmap_get_In_values, jsmap_get_set_eq.
      - rewrite Hs1. unfold has_direction, heap_alter. simpl.
        by rewrite lookup_app_r, Nat.sub_diag by (unfold n; lia). }
    destruct Hrecv as [t Ht].
    assert (Htn : t = n).
    { destruct (find_recv_found _ _ _ Ht) as [Hin Hdir].
      apply values_set_In in Hin as [->|Hin]; [done|].
      destruct (decide (t = n)) as [->|Hne]; [done|]. exfalso.
      pose proof (Hnone t Hin) as Hold. revert Hdir Hold.
      rewrite Hs1. unfold has_direction, heap_alter. simpl.
      destruct (decide (t < n)%nat) as [Hlt|Hge].
      - rewrite lookup_app_l by done. by intros ->.
      - rewrite lookup_app_r by (fold n; lia).
        destruct (t - length (e_transports (engine s)))%nat as [|k] eqn:Hk;
          [fold n in Hk; lia|].
        by destruct k. }
    subst t.
    assert (Hpo : ∃ po, e_producers (engine s) !! producerId = Some po).
    { unfold canConsume in Hcan.
      destruct (e_producers (engine s) !! producerId) as [po|]; [by eexists|done]. }
    destruct Hpo as [po Hpo].
    assert (Hnew : new_consumer (engine s1) n producerId
                   = mkConsumer n producerId (pr_kind po) (pr_rtpParameters po)
                       true false None None).
    { rewrite Hs1. unfold new_consumer, heap_alter. simpl. by rewrite Hpo. }
    destruct (consume_ok roomId userId producerId caps env2 s1 l room a
                (p_set_transports (JsMap.set n n) p) pr n)
      as (st2 & Hrun & Hcons & p' & Hp' & Hget); try done.
    + by rewrite Hs1.
    + rewrite <- Hfind. apply find_producer_ext. intros b'. rewrite Hs1.
      unfold heap_alter. simpl.
      destruct (decide (a = b')) as [<-|Hne].
      * rewrite lookup_arena_alter. by destruct (heap s !! a).
      * by rewrite lookup_arena_alter_ne.
    + by rewrite Hs1.
    + assert (Hlen : e_consumers (engine s1) = e_consumers (engine s))
        by (by rewrite Hs1).
      rewrite Hnew in Hrun, Hcons. rewrite Hlen in Hrun, Hcons, Hget.
      eexists _, _, _, _. split; [done|]. split; [exact Hrun|]. split; [done|].
      split; [done|]. exists po, p'. by repeat split.
Qed.

(** ** C5: the close cascade reaches every consumer *)

(** Consumer [c] is not in the consumer map of the participant at [a]. *)
Definition removed (c a : nat) (h : list Participant) : Prop :=
  ∀ p, h !! a = Some p → JsMap.get c (p_consumers p) = None.

(** Consumer [c] runs on transport [t], consumes producer [pr], carries the
    two listeners of [consume] for the participant at [a], and, if it is
    closed, is out of that participant's consumer map.  With [b = true] it
    is closed. *)
Definition watched (c a t pr : nat) (b : bool) (s : MState) : Prop :=
  ∃ co, e_consumers (engine s) !! c = Some co
        ∧ co_transport co = t ∧ co_producer co = pr
        ∧ co_on_transportclose co = Some a ∧ co_on_producerclose co = Some a
        ∧ (b = true → co_closed co = true)
        ∧ (co_closed co = true → removed c a (heap s)).

Lemma removed_alter_consumers c a a' c' h :
  removed c a h → removed c a (arena_alter a' (p_set_consumers (JsMap.delete c')) h).
Proof.
  intros H p. destruct (decide (a' = a)) as [->|Hne].
  - rewrite lookup_arena_alter. destruct (h !! a) as [p0|] eqn:Hp0; [|done].
    simpl. intros [= <-]. simpl. by apply jsmap_get_delete_None, H.
  - rewrite lookup_arena_alter_ne by done. apply H.
Qed.

Lemma removed_alter_self c a h :
  removed c a (arena_alter a (p_set_consumers (JsMap.delete c)) h).
Proof.
  intros p. rewrite lookup_arena_alter. destruct (h !! a) as [p0|]; [|done].
  simpl. intros [= <-]. simpl. apply jsmap_get_delete_eq.
Qed.

Lemma removed_alter_producers c a a' f h :
  removed c a h → removed c a (arena_alter a' (p_set_producers f) h).
Proof.
  intros H p. destruct (decide (a' = a)) as [->|Hne].
  - rewrite lookup_arena_alter. destruct (h !! a) as [p0|] eqn:Hp0; [|done].
    simpl. intros [= <-]. simpl. by apply H.
  - rewrite lookup_arena_alter_ne by done. apply H.
Qed.

Lemma watched_weaken c a t pr b s : watched c a t pr b s → watched c a t pr false s.
Proof. intros (co & ? & ? & ? & ? & ? & ? & ?). exists co. by repeat split. Qed.

(** A notification to any consumer keeps [c] watched; a notification to [c]
    itself leaves it closed and removed. *)
Lemma watched_notify ev c a t pr b s c' :
  watched c a t pr b s →
  watched c a t pr (b || bool_decide (c' = c)) (notify_consumer ev s c').
Proof.
  intros (co & Hco & Ht & Hpr & Hl1 & Hl2 & Hb & Hrem).
  unfold notify_consumer.
  destruct (e_consumers (engine s) !! c') as [co'|] eqn:Hco'.
  2:{ exists co. repeat split; try done. intros [->|Hd]%orb_true_iff; [by auto|].
      apply bool_decide_eq_true in Hd. congruence. }
  destruct (co_closed co') eqn:Hcl'.
  { exists co. repeat split; try done. intros [->|Hd]%orb_true_iff; [by auto|].
    apply bool_decide_eq_true in Hd. congruence. }
  destruct (decide (c' = c)) as [->|Hne].
  - assert (co' = co) as -> by congruence.
    assert (Hl : co_listener ev co = Some a) by (by destruct ev).
    rewrite Hl. exists (co_mark_closed co).
    unfold watched, consumer_listener, consumer_close, heap_alter. simpl.
    rewrite !lookup_arena_alter, Hco. simpl.
    repeat split; try done. intros _. apply removed_alter_self.
  - exists co.
    assert (Hkeep : ∀ s', e_consumers (engine s')
                          = arena_alter c' co_mark_closed (e_consumers (engine s)) →
                          e_consumers (engine s') !! c = Some co).
    { intros s' ->. by rewrite lookup_arena_alter_ne. }
    destruct (co_listener ev co') as [a'|].
    + unfold consumer_listener, consumer_close, heap_alter. simpl.
      rewrite lookup_arena_alter_ne by done. rewrite lookup_arena_alter_ne by done.
      repeat split; try done.
      * intros [->|Hd]%orb_true_iff; [by auto|].
        apply bool_decide_eq_true in Hd. congruence.
      * intros Hc. by apply removed_alter_consumers, Hrem.
    + simpl. rewrite lookup_arena_alter_ne by done.
      repeat split; try done.
      intros [->|Hd]%orb_true_iff; [by auto|].
      apply bool_decide_eq_true in Hd. congruence.
Qed.

Lemma watched_consumers ev c a t pr b s l :
  watched c a t pr b s →
  watched c a t pr b (foldl (notify_consumer ev) s l)
  ∧ (In c l → watched c a t pr true (foldl (notify_consumer ev) s l)).
Proof.
  revert b s. induction l as [|c' l IH]; intros b s H; simpl; [by split|].
  pose proof (watched_notify ev c a t pr b s c' H) as H'. split.
  - destruct (IH _ _ H') as [H1 _].
    destruct b; simpl in *; [done|].
    destruct (bool_decide (c' = c)); [by eapply watched_weaken|done].
  - intros [->|Hin].
    + rewrite bool_decide_eq_true_2, orb_true_r in H' by done.
      by apply IH.
    + destruct (IH _ _ (watched_weaken _ _ _ _ _ _ H')) as [_ H2]. by apply H2.
Qed.

Lemma watched_ext c a t pr b s s' :
  e_consumers (engine s') = e_consumers (engine s) →
  (removed c a (heap s) → removed c a (heap s')) →
  watched c a t pr b s → watched c a t pr b s'.
Proof.
  intros He Hh (co & ? & ? & ? & ? & ? & ? & Hrem). exists co.
  rewrite He. repeat split; try done. intros Hc. by apply Hh, Hrem.
Qed.

Lemma in_consumers_of_producer c p s co :
  e_consumers (engine s) !! c = Some co → co_producer co = p →
  In c (consumers_of_producer p s).
Proof.
  intros Hco Hp. unfold consumers_of_producer. apply List.filter_In. split.
  - apply in_seq. apply lookup_lt_Some in Hco. lia.
  - rewrite Hco. by apply bool_decide_eq_true.
Qed.

Lemma in_consumers_of_transport c t s co :
  e_consumers (engine s) !! c = Some co → co_transport co = t →
  In c (consumers_of_transport t s).
Proof.
  intros Hco Ht. unfold consumers_of_transport. apply List.filter_In. split.
  - apply in_seq. apply lookup_lt_Some in Hco. lia.
  - rewrite Hco. by apply bool_decide_eq_true.
Qed.

Lemma in_producers_of_transport p t s po :
  e_producers (engine s) !! p = Some po → pr_transport po = t →
  In p (producers_of_transport t s).
Proof.
  intros Hpo Ht. unfold producers_of_transport. apply List.filter_In. split.
  - apply in_seq. apply lookup_lt_Some in Hpo. lia.
  - rewrite Hpo. by apply bool_decide_eq_true.
Qed.

Lemma watched_of_producer ev c a t pr b s :
  watched c a t pr b s →
  watched c a t pr true (foldl (notify_consumer ev) s (consumers_of_producer pr s)).
Proof.
  intros H. apply (proj2 (watched_consumers ev c a t pr b s _ H)).
  destruct H as (co & Hco & _ & Hpr & _). by eapply in_consumers_of_producer.
Qed.

Definition producer_open (p : nat) (s : MState) : Prop :=
  ∃ po, e_producers (engine s) !! p = Some po ∧ pr_closed po = false.

Definition transport_open (t : nat) (s : MState) : Prop :=
  ∃ tr, e_transports (engine s) !! t = Some tr ∧ tr_closed tr = false.

Lemma watched_producer_close c a t pr b s p :
  watched c a t pr b s →
  watched c a t pr b (producer_close p s)
  ∧ (p = pr → producer_open pr s → watched c a t pr true (producer_close p s)).
Proof.
  intros H. unfold producer_close.
  destruct (e_producers (engine s) !! p) as [po|] eqn:Hpo.
  2:{ split; [done|]. intros -> (po & ? & ?). congruence. }
  destruct (pr_closed po) eqn:Hcl.
  { split; [done|]. intros -> (po' & ? & ?). congruence. }
  set (s1 := set_engine (set_e_producers (arena_alter p pr_mark_closed)) s).
  assert (H1 : watched c a t pr b s1) by (by apply (watched_ext _ _ _ _ _ s)).
  split.
  - by apply (proj1 (watched_consumers _ c a t pr b _ _ ltac:(eassumption))).
  - intros -> _. by eapply watched_of_producer.
Qed.

Lemma watched_notify_producer c a t pr b s p :
  watched c a t pr b s →
  watched c a t pr b (notify_producer s p)
  ∧ (p = pr → producer_open pr s → watched c a t pr true (notify_producer s p)).
Proof.
  intros H. unfold notify_producer.
  destruct (e_producers (engine s) !! p) as [po|] eqn:Hpo.
  2:{ split; [done|]. intros -> (po & ? & ?). congruence. }
  destruct (pr_closed po) eqn:Hcl.
  { split; [done|]. intros -> (po' & ? & ?). congruence. }
  set (s1 := set_engine (set_e_producers (arena_alter p pr_mark_closed)) s).
  assert (H1 : watched c a t pr b s1) by (by apply (watched_ext _ _ _ _ _ s)).
  set (s2 := match pr_on_transportclose po with
             | Some a' => producer_listener a' p s1
             | None => s1
             end).
  assert (H2 : watched c a t pr b s2).
  { unfold s2. destruct (pr_on_transportclose po) as [a'|]; [|done].
    unfold producer_listener, heap_alter.
    apply (watched_ext _ _ _ _ _ (producer_close p s1)); [done| |].
    - apply removed_alter_producers.
    - by apply watched_producer_close. }
  split.
  - by apply (proj1 (watched_consumers _ c a t pr b _ _ ltac:(eassumption))).
  - intros -> _. by eapply watched_of_producer.
Qed.

Lemma producers_notify_consumer ev s c :
  e_producers (engine (notify_consumer ev s c)) = e_producers (engine s).
Proof. unfold notify_consumer. repeat case_match; done. Qed.

Lemma producers_consumers ev s l :
  e_producers (engine (foldl (notify_consumer ev) s l)) = e_producers (engine s).
Proof.
  apply (foldl_preserve (λ s', e_producers (engine s') = e_producers (engine s))); [|done].
  intros x y Hx. by rewrite producers_notify_consumer.
Qed.

Lemma producer_open_notify_other pr s p :
  p ≠ pr → producer_open pr s → producer_open pr (notify_producer s p).
Proof.
  intros Hne (po & Hpo & Hcl). exists po. split; [|done].
  unfold notify_producer. repeat case_match; try done;
    rewrite producers_consumers; unfold producer_listener, heap_alter, producer_close;
    simpl; repeat case_match; rewrite ?producers_consumers; simpl;
    rewrite ?lookup_arena_alter_ne by done; done.
Qed.

Lemma watched_producers c a t pr b s l :
  watched c a t pr b s →
  watched c a t pr b (foldl notify_producer s l)
  ∧ (In pr l → producer_open pr s → watched c a t pr true (foldl notify_producer s l)).
Proof.
  revert b s. induction l as [|p l IH]; intros b s H; simpl; [by split|].
  destruct (watched_notify_producer c a t pr b s p H) as [H1 H2]. split.
  - by apply (proj1 (IH _ _ H1)).
  - intros Hin Hopen. destruct (decide (p = pr)) as [->|Hne].
    + by apply (proj1 (IH _ _ (H2 eq_refl Hopen))).
    + destruct Hin as [->|Hin]; [done|].
      destruct (IH _ _ H1) as [_ H3]. eapply watched_weaken in H1.
      destruct (IH _ _ H1) as [_ H4]. apply H4; [done|].
      by apply producer_open_notify_other.
Qed.

Lemma watched_transport_close c a t pr b s t' :
  watched c a t pr b s →
  watched c a t pr b (transport_close s t')
  ∧ (t' = t → transport_open t s → watched c a t pr true (transport_close s t'))
  ∧ (∀ po, e_producers (engine s) !! pr = Some po → pr_closed po = false →
           pr_transport po = t' → transport_open t' s →
           watched c a t pr true (transport_close s t')).
Proof.
  intros H. unfold transport_close.
  destruct (e_transports (engine s) !! t') as [tr|] eqn:Htr.
  2:{ split; [done|]. split.
      - intros -> (? & ? & ?). congruence.
      - intros ? _ _ _ (? & ? & ?). congruence. }
  destruct (tr_closed tr) eqn:Hcl.
  { split; [done|]. split.
    - intros -> (? & ? & ?). congruence.
    - intros ? _ _ _ (? & ? & ?). congruence. }
  set (s1 := set_engine (set_e_transports (arena_alter t' tr_mark_closed)) s).
  assert (H1 : watched c a t pr b s1) by (by apply (watched_ext _ _ _ _ _ s)).
  destruct (watched_producers c a t pr b s1 (producers_of_transport t' s1) H1)
    as [H2 H2'].
  assert (H3 : ∀ po, e_producers (engine s) !! pr = Some po → pr_closed po = false →
                     pr_transport po = t' →
                     watched c a t pr true
                       (foldl notify_producer s1 (producers_of_transport t' s1))).
  { intros po Hpo Hopen Hpt. apply H2'.
    - by eapply in_producers_of_transport.
    - by exists po. }
  split; [by apply (proj1 (watched_consumers _ c a t pr b _ _ H2))|]. split.
  - intros -> _. apply (proj2 (watched_consumers _ c a t pr b _ _ H2)).
    destruct H2 as (co & Hco & Ht & _). by eapply in_consumers_of_transport.
  - intros po Hpo Hopen Hpt _.
    by apply (proj1 (watched_consumers _ c a t pr true _ _ (H3 po Hpo Hopen Hpt))).
Qed.

(** Consumer [c] is closed and out of the consumer map of the participant
    at [a]. *)
Definition gone (c a : nat) (s : MState) : Prop :=
  (∃ co, e_consumers (engine s) !! c = Some co ∧ co_closed co = true)
  ∧ removed c a (heap s).

Lemma watched_gone c a t pr s : watched c a t pr true s → gone c a s.
Proof.
  intros (co & Hco & _ & _ & _ & _ & Hb & Hrem). split; [by eauto|]. by auto.
Qed.

(** [consume] leaves the new consumer open, registered in the consumer map
    of the calling participant, with both listeners bound to that
    participant. *)
Lemma consume_registers_listeners roomId userId producerId caps env s l room a p cd st2 :
  JsMap.get roomId (rooms s) = Some room →
  JsMap.get userId (r_participants room) = Some a →
  heap s !! a = Some p →
  consume roomId userId producerId caps env (s, l) = (Ok cd, st2) →
  ∃ co p', e_consumers (engine (fst st2)) !! cd_id cd = Some co
           ∧ co_closed co = false ∧ co_paused co = true
           ∧ co_producer co = producerId
           ∧ co_on_transportclose co = Some a ∧ co_on_producerclose co = Some a
           ∧ heap (fst st2) !! a = Some p'
           ∧ JsMap.get (cd_id cd) (p_consumers p') = Some (cd_id cd).
Proof.
  intros H1 H2 H3 Hrun.
  destruct (find_producer (heap s) producerId (JsMap.values (r_participants room)))
    as [producer|] eqn:H4.
  2:{ revert Hrun. unfold consume, lookup_room, lookup_participant. eff_unfold.
      cbn [fst snd]. rewrite H1. cbn [fst snd]. rewrite H2. cbn [fst snd].
      rewrite H3. cbn [fst snd]. by rewrite H4. }
  destruct (canConsume (engine s) (r_router room) producerId caps) eqn:H5.
  2:{ revert Hrun. unfold consume, lookup_room, lookup_participant. eff_unfold.
      cbn [fst snd]. rewrite H1. cbn [fst snd]. rewrite H2. cbn [fst snd].
      rewrite H3. cbn [fst snd]. by rewrite H4, H5. }
  destruct (find_recv (engine s) (JsMap.values (p_transports p))) as [t|] eqn:H6.
  2:{ revert Hrun. unfold consume, lookup_room, lookup_participant. eff_unfold.
      cbn [fst snd]. rewrite H1. cbn [fst snd]. rewrite H2. cbn [fst snd].
      rewrite H3. cbn [fst snd]. rewrite H4, H5. simpl. by rewrite H6. }
  destruct (consume_ok roomId userId producerId caps env s l room a p producer t)
    as (st2' & Hrun' & Hcons & p' & Hp' & Hget); try done.
  rewrite Hrun' in Hrun. injection Hrun as <- <-. simpl.
  exists (co_set_listeners a (new_consumer (engine s) t producerId)), p'.
  rewrite Hcons, lookup_app_r, Nat.sub_diag by lia. simpl.
  rewrite co_producer_new. unfold new_consumer.
  by destruct (e_producers (engine s) !! producerId).
Qed.

(** C5. Take an open consumer that carries the listeners [consume]
    registers for the participant at address [a].  Closing its transport,
    closing its producer, or closing the transport that carries its producer
    leaves the consumer closed and out of that participant's consumer map. *)
Theorem consumer_cascade (c a : nat) (s : MState) (co : ConsumerObj) :
  e_consumers (engine s) !! c = Some co →
  co_closed co = false →
  co_on_transportclose co = Some a →
  co_on_producerclose co = Some a →
  (transport_open (co_transport co) s → gone c a (transport_close s (co_transport co)))
  ∧ (producer_open (co_producer co) s → gone c a (producer_close (co_producer co) s))
  ∧ (∀ po, e_producers (engine s) !! co_producer co = Some po →
           pr_closed po = false →
           transport_open (pr_transport po) s →
           gone c a (transport_close s (pr_transport po))).
Proof.
  intros Hco Hopen Hl1 Hl2.
  assert (H : watched c a (co_transport co) (co_producer co) false s).
  { exists co. repeat split; try done. congruence. }
  destruct (watched_transport_close c a _ _ false s (co_transport co) H)
    as (_ & Ht & _).
  destruct (watched_producer_close c a _ _ false s (co_producer co) H) as [_ Hp].
  split; [|split].
  - intros Hto. eapply watched_gone. by apply Ht.
  - intros Hpo. eapply watched_gone. by apply Hp.
  - intros po Hpo Hcl Hto.
    destruct (watched_transport_close c a _ _ false s (pr_transport po) H)
      as (_ & _ & Hpt).
    eapply watched_gone. by eapply Hpt.
Qed.

(** * Properties of [StreamService] *)

(** ** C9: failures of persistence and of the event bus *)

(** [m] gives the same outcome and related final states whenever it is run
    at the same time on related states, whatever the log holds and whether
    or not the collaborators fail. *)
Definition respects {S A} (R : S → S → Prop) (m : Eff S A) : Prop :=
  ∀ env1 env2 s1 s2 l1 l2,
    now env1 = now env2 → R s1 s2 →
    fst (m env1 (s1, l1)) = fst (m env2 (s2, l2))
    ∧ R (fst (snd (m env1 (s1, l1)))) (fst (snd (m env2 (s2, l2)))).

Lemma respects_ret {S A} (R : S → S → Prop) (a : A) : respects R (ret a).
Proof. by intros ???????. Qed.

Lemma respects_throw {S A} (R : S → S → Prop) e : respects R (@throw S A e).
Proof. by intros ???????. Qed.

Lemma respects_log {S} (R : S → S → Prop) lvl msg : respects R (log lvl msg).
Proof. by intros ???????. Qed.

Lemma respects_date_now {S} (R : S → S → Prop) : respects R (@date_now S).
Proof. intros ?????? Hn ?. simpl. by rewrite Hn. Qed.

Lemma respects_get_state {S} : respects (@eq S) get_state.
Proof. intros ?????? ? ->. done. Qed.

Lemma respects_modify {S} (R : S → S → Prop) (f : S → S) :
  (∀ s1 s2, R s1 s2 → R (f s1) (f s2)) → respects R (modify f).
Proof. intros Hf ?????? ? ?. simpl. split; [done|]. by apply Hf. Qed.

Lemma respects_bind {S A B} (R : S → S → Prop) (m : Eff S A) (k : A → Eff S B) :
  respects R m → (∀ a, respects R (k a)) → respects R (bind m k).
Proof.
  intros Hm Hk env1 env2 s1 s2 l1 l2 Hn HR. unfold bind.
  destruct (Hm env1 env2 s1 s2 l1 l2 Hn HR) as [H1 H2].
  destruct (m env1 (s1, l1)) as [[a|e] [s1' l1']],
           (m env2 (s2, l2)) as [[a'|e'] [s2' l2']]; simpl in *; simplify_eq.
  - by apply Hk.
  - done.
Qed.

Lemma respects_try_catch {S A} (R : S → S → Prop) (m : Eff S A) (h : JsError → Eff S A) :
  respects R m → (∀ e, respects R (h e)) → respects R (try_catch m h).
Proof.
  intros Hm Hh env1 env2 s1 s2 l1 l2 Hn HR. unfold try_catch.
  destruct (Hm env1 env2 s1 s2 l1 l2 Hn HR) as [H1 H2].
  destruct (m env1 (s1, l1)) as [[a|e] [s1' l1']],
           (m env2 (s2, l2)) as [[a'|e'] [s2' l2']]; simpl in *; simplify_eq.
  - done.
  - by apply Hh.
Qed.

Lemma respects_lift {S T A} (R : T → T → Prop) (proj : T → S) (inj : S → T → T)
    (m : Eff S A) :
  respects eq m →
  (∀ t1 t2, R t1 t2 → proj t1 = proj t2) →
  (∀ s t1 t2, R t1 t2 → R (inj s t1) (inj s t2)) →
  respects R (lift proj inj m).
Proof.
  intros Hm Hp Hi env1 env2 t1 t2 l1 l2 Hn HR. unfold lift. cbn [fst snd].
  destruct (Hm env1 env2 (proj t1) (proj t2) l1 l2 Hn (Hp _ _ HR)) as [H1 H2].
  destruct (m env1 (proj t1, l1)) as [r1 [s1' l1']],
           (m env2 (proj t2, l2)) as [r2 [s2' l2']]; simpl in *; subst.
  split; [done|]. by apply Hi.
Qed.

Ltac respects_step :=
  match goal with
  | |- respects _ (bind _ _) => apply respects_bind; [|intros ?]
  | |- respects _ (try_catch _ _) => apply respects_try_catch; [|intros ?]
  | |- respects _ (ret _) => apply respects_ret
  | |- respects _ (throw _) => apply respects_throw
  | |- respects _ (log _ _) => apply respects_log
  | |- respects _ date_now => apply respects_date_now
  | |- respects eq get_state => apply respects_get_state
  | |- respects eq (modify _) => apply respects_modify; congruence
  | |- respects _ (match ?x with _ => _ end) => destruct x
  | |- respects _ (let '(_, _) := ?x in _) => destruct x
  end.

Ltac respects_auto := repeat respects_step.

Lemma respects_createRoom roomId : respects eq (createRoom roomId).
Proof.
  unfold createRoom, getNextWorker, engine_createRouter. respects_auto.
Qed.

Lemma respects_produce roomId userId t rtp kind :
  respects eq (produce roomId userId t rtp kind).
Proof.
  unfold produce, lookup_room, lookup_participant, engine_produce. respects_auto.
Qed.

Lemma respects_closeParticipant roomId userId :
  respects eq (closeParticipant roomId userId).
Proof. unfold closeParticipant. respects_auto. Qed.

Lemma respects_cache_getStream streamId : respects eq (cache_getStream streamId).
Proof. unfold cache_getStream. respects_auto. Qed.

Lemma respects_cache_updateStream streamId data :
  respects eq (cache_updateStream streamId data).
Proof. unfold cache_updateStream. respects_auto. Qed.

Lemma respects_cache_getStreamStats streamId :
  respects eq (cache_getStreamStats streamId).
Proof. unfold cache_getStreamStats. respects_auto. Qed.

(** The live state: media service, cache and pending timers.  The stream
    collection and the event bus are the collaborators. *)
Definition live (w : World) : MState * Cache * list (Z * string) :=
  (w_media w, w_cache w, w_timers w).

Definition same_live (w1 w2 : World) : Prop := live w1 = live w2.

Lemma respects_mediaService {A} (m : Eff MState A) :
  respects eq m → respects same_live (mediaService m).
Proof.
  intros Hm. apply respects_lift; [done| |].
  - unfold same_live, live. congruence.
  - unfold same_live, live. intros s t1 t2 [= ? ? ?]. simpl. congruence.
Qed.

Lemma respects_cacheService {A} (m : Eff Cache A) :
  respects eq m → respects same_live (cacheService m).
Proof.
  intros Hm. apply respects_lift; [done| |].
  - unfold same_live, live. congruence.
  - unfold same_live, live. intros s t1 t2 [= ? ? ?]. simpl. congruence.
Qed.

(** A persistence call inside [try { ... } catch (dbError) { warn }]. *)
Lemma respects_database_guarded (m : Eff Db unit) (text : string) :
  respects same_live
    (try_catch (database m) (λ dbError, log LWarn (MsgFailure text dbError))).
Proof.
  intros env1 env2 w1 w2 l1 l2 Hn HR.
  unfold try_catch, database, lift, log. cbn [fst snd].
  destruct (m env1 (w_db w1, l1)) as [[[]|e1] [d1 l1']],
           (m env2 (w_db w2, l2)) as [[[]|e2] [d2 l2']]; simpl; done.
Qed.

Lemma publish_via_ok exchange routingKey extraKey extra data t1 t2 t3 env st :
  fst (publish_via exchange routingKey extraKey extra data t1 t2 t3 env st) = Ok tt.
Proof.
  unfold publish_via, channel_publish. eff_unfold. cbn [fst snd].
  destruct (mq_channel (fst st)); simpl; [|done]. by destruct (mq_fails env).
Qed.

(** A publish method of the message queue: it catches what the channel
    throws, and it has no part in the live state. *)
Lemma respects_messageQueue exchange routingKey extraKey extra data t1 t2 t3 :
  respects same_live
    (messageQueue (publish_via exchange routingKey extraKey extra data t1 t2 t3)).
Proof.
  intros env1 env2 w1 w2 l1 l2 Hn HR. unfold messageQueue, lift. cbn [fst snd].
  pose proof (publish_via_ok exchange routingKey extraKey extra data t1 t2 t3
                env1 (w_mq w1, l1)) as H1.
  pose proof (publish_via_ok exchange routingKey extraKey extra data t1 t2 t3
                env2 (w_mq w2, l2)) as H2.
  destruct (publish_via _ _ _ _ _ _ _ _ env1 _) as [r1 [q1 l1']],
           (publish_via _ _ _ _ _ _ _ _ env2 _) as [r2 [q2 l2']].
  simpl in *. subst. done.
Qed.

Lemma respects_setTimeout streamId delay :
  respects same_live (setTimeout_deleteStream streamId delay).
Proof.
  unfold setTimeout_deleteStream. apply respects_bind; [apply respects_date_now|].
  intros t. apply respects_modify. unfold same_live, live.
  intros s1 s2 [= ? ? ?]. simpl. congruence.
Qed.

Ltac respects_world :=
  repeat first
    [ apply respects_database_guarded
    | apply respects_messageQueue
    | apply respects_setTimeout
    | apply respects_mediaService
    | apply respects_cacheService
    | apply respects_createRoom
    | apply respects_produce
    | apply respects_closeParticipant
    | apply respects_cache_getStream
    | apply respects_cache_updateStream
    | apply respects_cache_getStreamStats
    | respects_step ].

Lemma respects_stream_produce roomId userId t rtp kind :
  respects same_live (stream_produce roomId userId t rtp kind).
Proof.
  unfold stream_produce, publishStreamEvent, publishAnalyticsEvent. respects_world.
Qed.

Lemma respects_endStream streamId userId :
  respects same_live (endStream streamId userId).
Proof.
  unfold endStream, publishStreamEvent, publishAnalyticsEvent. respects_world.
Qed.

Lemma respects_createStream f streamId userId streamData :
  respects same_live (createStream f streamId userId streamData).
Proof.
  unfold createStream, publishStreamEvent. respects_world.
  intros env1 env2 c1 c2 l1 l2 Hn ->. cbn [fst snd]. rewrite Hn.
  by destruct (f streamId _ (now env2) c2) as [[r c] out].
Qed.

(** *** Failures are logged where they are caught *)

(** [m] only adds to the log. *)
Definition grows {S A} (m : Eff S A) : Prop :=
  ∀ env st x, In x (snd st) → In x (snd (snd (m env st))).

(** Whenever persistence fails and [m] returns all the same, [x] is in the
    log afterwards. *)
Definition logs_when_ok {S A} (x : LogEntry) (m : Eff S A) : Prop :=
  ∀ env st a, db_fails env = true → fst (m env st) = Ok a →
              In x (snd (snd (m env st))).

Lemma grows_ret {S A} (a : A) : grows (@ret S A a).
Proof. by intros ???. Qed.

Lemma grows_log {S} lvl msg : grows (@log S lvl msg).
Proof. intros ??? H. simpl. apply in_app_iff. by left. Qed.

Lemma grows_bind {S A B} (m : Eff S A) (k : A → Eff S B) :
  grows m → (∀ a, grows (k a)) → grows (bind m k).
Proof.
  intros Hm Hk env st x Hx. unfold bind. specialize (Hm env st x Hx).
  destruct (m env st) as [[a|e] st1]; simpl in *; [by apply Hk|done].
Qed.

Lemma grows_messageQueue exchange routingKey extraKey extra data t1 t2 t3 :
  grows (messageQueue (publish_via exchange routingKey extraKey extra data t1 t2 t3)).
Proof.
  intros env st x Hx.
  unfold messageQueue, lift, publish_via, channel_publish. eff_unfold. cbn [fst snd].
  destruct (mq_channel (w_mq (fst st))); simpl.
  - destruct (mq_fails env); simpl; rewrite ?in_app_iff; tauto.
  - rewrite in_app_iff. tauto.
Qed.

Lemma grows_setTimeout streamId delay : grows (setTimeout_deleteStream streamId delay).
Proof. by intros ???. Qed.

Lemma logs_bind_later {S A B} x (m : Eff S A) (k : A → Eff S B) :
  (∀ a, logs_when_ok x (k a)) → logs_when_ok x (bind m k).
Proof.
  intros Hk env st b Hdb. unfold bind.
  destruct (m env st) as [[a|e] st1]; simpl; [by apply Hk|done].
Qed.

Lemma logs_bind_now {S A B} x (m : Eff S A) (k : A → Eff S B) :
  logs_when_ok x m → (∀ a, grows (k a)) → logs_when_ok x (bind m k).
Proof.
  intros Hm Hk env st b Hdb. unfold bind. specialize (Hm env st).
  destruct (m env st) as [[a|e] st1]; simpl in *; [|done].
  intros _. apply Hk. by eapply Hm.
Qed.

Lemma logs_try_rethrow {S A} x (m : Eff S A) (h : JsError → Eff S A) :
  logs_when_ok x m → (∀ e env st, is_ok (fst (h e env st)) = false) →
  logs_when_ok x (try_catch m h).
Proof.
  intros Hm Hh env st a Hdb. unfold try_catch. specialize (Hm env st).
  destruct (m env st) as [[a'|e] st1]; simpl in *; [by eauto|].
  intros H. specialize (Hh e env st1). by rewrite H in Hh.
Qed.

Lemma logs_match_option {S A B} x (o : option B) (k : B → Eff S A) e :
  (∀ b, logs_when_ok x (k b)) →
  logs_when_ok x (match o with Some b => k b | None => throw e end).
Proof. intros Hk. destruct o; [apply Hk|]. by intros ?????. Qed.

Lemma logs_database_guarded (m : Eff Db unit) text e :
  (∀ env st, db_fails env = true → m env st = (Throw e, st)) →
  logs_when_ok (LWarn, MsgFailure text e)
    (try_catch (database m) (λ dbError, log LWarn (MsgFailure text dbError))).
Proof.
  intros Hm env st [] Hdb _. unfold try_catch, database, lift, log.
  rewrite (Hm env _ Hdb). simpl. apply in_app_iff. right. by left.
Qed.

Ltac grows_auto :=
  repeat first
    [ apply grows_messageQueue | apply grows_setTimeout | apply grows_log
    | apply grows_ret | apply grows_bind; [|intros ?] ].

Lemma db_updateOne_fails id update env st :
  db_fails env = true →
  db_updateOne id update env st = (Throw (Error "persistence failure"), st).
Proof. intros H. unfold db_updateOne. by rewrite H. Qed.

Lemma stream_produce_logs_failure roomId userId t rtp kind :
  logs_when_ok (LWarn, MsgFailure "Database update failed:" (Error "persistence failure"))
    (stream_produce roomId userId t rtp kind).
Proof.
  unfold stream_produce, publishStreamEvent, publishAnalyticsEvent.
  apply logs_try_rethrow; [|done].
  do 4 (apply logs_bind_later; intros ?).
  apply logs_bind_now; [|intros ?; grows_auto].
  apply logs_database_guarded. intros. by apply db_updateOne_fails.
Qed.

Lemma endStream_logs_failure streamId userId :
  logs_when_ok (LWarn, MsgFailure "Database update failed:" (Error "persistence failure"))
    (endStream streamId userId).
Proof.
  unfold endStream, publishStreamEvent, publishAnalyticsEvent.
  apply logs_try_rethrow; [|done].
  apply logs_bind_later; intros stream. apply logs_match_option. intros str.
  do 4 (apply logs_bind_later; intros ?).
  apply logs_bind_now; [|intros ?; grows_auto].
  apply logs_database_guarded. intros. by apply db_updateOne_fails.
Qed.

Lemma createStream_logs_failure f streamId userId streamData :
  logs_when_ok
    (LWarn, MsgFailure "Database save failed, continuing with cache:"
              (Error "persistence failure"))
    (createStream f streamId userId streamData).
Proof.
  unfold createStream, publishStreamEvent.
  apply logs_try_rethrow; [|done].
  do 3 (apply logs_bind_later; intros ?).
  apply logs_bind_now; [|intros ?; grows_auto].
  apply logs_database_guarded. intros env st H. unfold db_save. by rewrite H.
Qed.

Lemma publish_failure_logged exchange routingKey extraKey extra data t1 t2 t3 env q l :
  mq_fails env = true → mq_channel q = true →
  publish_via exchange routingKey extraKey extra data t1 t2 t3 env (q, l)
  = (Ok tt, (q, l ++ [(LError, MsgFailure t3 (Error "event bus failure"))])).
Proof.
  intros Hf Hc. unfold publish_via, channel_publish. eff_unfold. cbn [fst snd].
  rewrite Hc. cbn [negb fst snd]. by rewrite Hf.
Qed.

(** C9. For [createStream] (with any cache-side [createStream]), [produce]
    and [endStream]: the outcome and the live state (media service, cache,
    timers) after the call are the same whatever the stream collection and
    the event bus hold and whether or not they fail, so they are what they
    are when both succeed; when persistence fails and the operation returns,
    the failure is in the log as a warning; a failing publish is caught
    inside the publish method, which logs it and returns. *)
Theorem collaborator_failures_are_contained
    (cache_createStream : string → gmap string JVal → Z → Cache → Result unit * Cache * Log)
    (streamId userId : string) (streamData : gmap string JVal)
    (transportId : nat) (rtpParameters : RtpParameters) (kind : string) :
  respects same_live (createStream cache_createStream streamId userId streamData)
  ∧ respects same_live (stream_produce streamId userId transportId rtpParameters kind)
  ∧ respects same_live (endStream streamId userId)
  ∧ logs_when_ok
      (LWarn, MsgFailure "Database save failed, continuing with cache:"
                (Error "persistence failure"))
      (createStream cache_createStream streamId userId streamData)
  ∧ logs_when_ok
      (LWarn, MsgFailure "Database update failed:" (Error "persistence failure"))
      (stream_produce streamId userId transportId rtpParameters kind)
  ∧ logs_when_ok
      (LWarn, MsgFailure "Database update failed:" (Error "persistence failure"))
      (endStream streamId userId)
  ∧ ∀ event data env q l,
      mq_fails env = true → mq_channel q = true →
      publishStreamEvent event data env (q, l)
      = (Ok tt, (q, l ++ [(LError, MsgFailure "Error publishing stream event"
                                     (Error "event bus failure"))])).
Proof.
  split; [apply respects_createStream|].
  split; [apply respects_stream_produce|].
  split; [apply respects_endStream|].
  split; [apply createStream_logs_failure|].
  split; [apply stream_produce_logs_failure|].
  split; [apply endStream_logs_failure|].
  intros. by apply publish_failure_logged.
Qed.

(** ** C2: ending a stream twice *)

Lemma size_union_left (upd old : gmap string JVal) k v :
  upd !! k = Some v → size (upd ∪ old) ≠ 0%nat.
Proof.
  intros Hk Hsize. apply map_size_empty_iff in Hsize.
  assert (H : (upd ∪ old) !! k = Some v) by (by apply lookup_union_Some_l).
  by rewrite Hsize, lookup_empty in H.
Qed.

Ltac unfold_world :=
  unfold mediaService, cacheService, database, messageQueue, lift,
    publishStreamEvent, publishAnalyticsEvent, publishUserPresence, publish_via,
    channel_publish, db_save, db_updateOne, setTimeout_deleteStream,
    cache_getStream, cache_updateStream, cache_getStreamStats in *;
  eff_unfold; cbn [fst snd] in *.

(** [endStream] on a stream the cache does not know, and on one it knows. *)
Lemma endStream_not_found streamId userId env st :
  size (hgetall (w_cache (fst st)) (stream_key streamId)) = 0%nat →
  fst (endStream streamId userId env st) = Throw (Error "Stream not found").
Proof.
  intros H. unfold endStream, cacheService, lift, cache_getStream. eff_unfold.
  cbn [fst snd]. by rewrite decide_True.
Qed.

(** Each step of [endStream], run on a state. *)
Lemma cache_getStream_run streamId env w l :
  cacheService (cache_getStream streamId) env (w, l)
  = (Ok (if decide (size (hgetall (w_cache w) (stream_key streamId)) = 0%nat)
         then None else Some (hgetall (w_cache w) (stream_key streamId))),
     (w, l)).
Proof.
  unfold cacheService, lift, cache_getStream. eff_unfold. cbn [fst snd].
  destruct w. by case_decide.
Qed.

Lemma cache_getStreamStats_run streamId env w l :
  ∃ stats, cacheService (cache_getStreamStats streamId) env (w, l) = (Ok stats, (w, l)).
Proof.
  unfold cacheService, lift, cache_getStreamStats. eff_unfold. cbn [fst snd].
  destruct w. by eexists.
Qed.

Lemma cache_updateStream_run streamId upd env w l :
  cacheService (cache_updateStream streamId upd) env (w, l)
  = (Ok tt,
     (set_w_cache
        (set_c_hashes
           (λ h, <[stream_key streamId := upd ∪ default ∅ (h !! stream_key streamId)]> h)
           (w_cache w)) w,
      l ++ [(LDebug, MsgText "Stream updated")])).
Proof. done. Qed.

Lemma mediaService_closeParticipant_run streamId userId env w l :
  ∃ s1 l1, mediaService (closeParticipant streamId userId) env (w, l)
           = (Ok tt, (set_w_media s1 w, l1)).
Proof.
  unfold mediaService, lift. cbn [fst snd].
  pose proof (closeParticipant_total streamId userId env (w_media w, l)) as H.
  destruct (closeParticipant streamId userId env (w_media w, l)) as [r [s1 l1]].
  simpl in H. subst. by eexists _, _.
Qed.

Lemma database_guarded_run (m : Eff Db unit) text env w l :
  ∃ d l', try_catch (database m) (λ dbError, log LWarn (MsgFailure text dbError))
            env (w, l)
          = (Ok tt, (set_w_db d w, l')).
Proof.
  unfold try_catch, database, lift, log. cbn [fst snd].
  destruct (m env (w_db w, l)) as [[[]|e] [d l']]; by eexists _, _.
Qed.

Lemma messageQueue_run exchange routingKey extraKey extra data t1 t2 t3 env w l :
  ∃ q l', messageQueue (publish_via exchange routingKey extraKey extra data t1 t2 t3)
            env (w, l)
          = (Ok tt, (set_w_mq q w, l')).
Proof.
  unfold messageQueue, lift. cbn [fst snd].
  pose proof (publish_via_ok exchange routingKey extraKey extra data t1 t2 t3
                env (w_mq w, l)) as H.
  destruct (publish_via _ _ _ _ _ _ _ _ env _) as [r [q l']].
  simpl in H. subst. by eexists _, _.
Qed.

Ltac run_step :=
  cbn [fst snd];
  match goal with
  | |- context [cacheService (cache_getStream ?i) ?env (?w, ?l)] =>
      rewrite (cache_getStream_run i env w l)
  | |- context [mediaService (closeParticipant ?i ?u) ?env (?w, ?l)] =>
      let H := fresh in
      destruct (mediaService_closeParticipant_run i u env w l) as (? & ? & H);
      rewrite H; clear H
  | |- context [cacheService (cache_getStreamStats ?i) ?env (?w, ?l)] =>
      let H := fresh in
      destruct (cache_getStreamStats_run i env w l) as (? & H);
      rewrite H; clear H
  | |- context [cacheService (cache_updateStream ?i ?u) ?env (?w, ?l)] =>
      rewrite (cache_updateStream_run i u env w l)
  | |- context [try_catch (database ?m) (λ e, log LWarn (MsgFailure ?t e)) ?env (?w, ?l)] =>
      let H := fresh in
      destruct (database_guarded_run m t env w l) as (? & ? & H);
      rewrite H; clear H
  | |- context [messageQueue (publish_via ?a ?b ?c ?d ?e ?f ?g ?h) ?env (?w, ?l)] =>
      let H := fresh in
      destruct (messageQueue_run a b c d e f g h env w l) as (? & ? & H);
      rewrite H; clear H
  end.

Lemma endStream_found streamId userId env st :
  size (hgetall (w_cache (fst st)) (stream_key streamId)) ≠ 0%nat →
  ∃ upd st1,
    endStream streamId userId env st = (Ok upd, st1)
    ∧ size (hgetall (w_cache (fst st1)) (stream_key streamId)) ≠ 0%nat
    ∧ w_timers (fst st1) = w_timers (fst st) ++ [(now env + 30000, streamId)].
Proof.
  destruct st as [w l]. cbn [fst]. intros H.
  unfold endStream, publishStreamEvent, publishAnalyticsEvent.
  unfold try_catch at 1. unfold bind at 1. run_step.
  rewrite decide_False by done.
  unfold bind at 1. run_step. unfold bind at 1. run_step.
  unfold bind at 1. unfold date_now at 1. cbn [fst snd].
  unfold bind at 1. run_step. unfold bind at 1. run_step.
  unfold bind at 1. run_step. unfold bind at 1. run_step.
  unfold bind, log, setTimeout_deleteStream, date_now, modify, ret. cbn [fst snd].
  eexists _, _. split; [reflexivity|]. cbn [fst snd]. split; [|done].
  unfold hgetall. cbn. rewrite lookup_insert_eq. cbn [default].
  by apply (size_union_left _ _ "isLive" (JBool false)).
Qed.

Lemma cache_deleteStream_run sid env w l :
  ∃ c, cacheService (cache_deleteStream sid) env (w, l)
       = (Ok tt, (set_w_cache c w, l ++ [(LDebug, MsgText "Stream deleted")]))
       ∧ c_hashes c = delete (stats_key sid) (delete (stream_key sid) (c_hashes (w_cache w))).
Proof. by eexists. Qed.

(** Once the callbacks that are due have run, a stream with a due callback
    is gone from the cache, and no callback brings a stream back. *)
Lemma run_due_deletes streamId t timers : ∀ env w l,
  c_hashes (w_cache w) !! stream_key streamId = None
  ∨ (∃ due, In (due, streamId) timers ∧ due ≤ t) →
  c_hashes (w_cache (fst (after (run_due t timers) env (w, l)))) !! stream_key streamId
  = None.
Proof.
  induction timers as [|[due0 sid0] timers IH]; intros env w l H.
  - destruct H as [H|(due & [] & _)]. done.
  - unfold after in *. simpl.
    destruct (due0 <=? t) eqn:Hdue.
    + unfold bind.
      destruct (cache_deleteStream_run sid0 env w l) as (c & -> & Hc).
      apply IH. destruct H as [H|(due & [[= -> ->]|Hin] & Hle)].
      * left. simpl. rewrite Hc. by rewrite !lookup_delete_None; auto.
      * left. simpl. rewrite Hc. rewrite !lookup_delete_None. auto.
      * right. by eauto.
    + apply IH. destruct H as [H|(due & [[= -> ->]|Hin] & Hle)].
      * by left.
      * apply Z.leb_gt in Hdue. lia.
      * right. by eauto.
Qed.

Lemma run_timers_deletes streamId due env st :
  In (due, streamId) (w_timers (fst st)) → due ≤ now env →
  c_hashes (w_cache (fst (after run_timers env st))) !! stream_key streamId = None.
Proof.
  intros Hin Hle. destruct st as [w l]. unfold after, run_timers. cbn [fst snd].
  apply (run_due_deletes streamId (now env) (w_timers w) env _ l).
  right. by eauto.
Qed.

Definition cache_live : Cache :=
  mkCache {[ stream_key "s1" := js_obj [("id", JStr "s1"); ("isLive", JBool false)] ]}
    ∅ ∅ [].

(** One worker, a stream [s1] known to the cache and to the stream
    collection, the event bus connected, and user [u1] holding a send
    transport in room [s1]. *)
Definition st_stream : World * Log :=
  after (createTransport "s1" "u1" "send") env0
    (after (mediaService (initialize 1)) env0
       (mkWorld mstate0 cache_live {[ "s1" := js_obj [("id", JStr "s1")] ]}
          (mkMq true []) [], [])).

(** C2, as stated, fails: a second [endStream] right after the first finds
    the stream still in the cache and returns normally. *)
Lemma endStream_twice_succeeds :
  is_ok (fst (endStream "s1" "u1" env0 st_stream)) = true
  ∧ is_ok (fst (endStream "s1" "u1" env0 (after (endStream "s1" "u1") env0 st_stream)))
    = true
  ∧ fst (endStream "s1" "u1" env0 (after (endStream "s1" "u1") env0 st_stream))
    ≠ Throw (Error "Stream not found").
Proof.
  split; [vm_compute; reflexivity|]. split; [vm_compute; reflexivity|].
  intros H.
  assert (Hok : is_ok (fst (endStream "s1" "u1" env0
                              (after (endStream "s1" "u1") env0 st_stream))) = true)
    by (vm_compute; reflexivity).
  rewrite H in Hok. discriminate.
Qed.

(** A cleanup of stream [sid] removes the cached record of [streamId]:
    [deleteStream] deletes the keys [stream:sid] and [stream:sid:stats]. *)
Definition removes (sid streamId : string) : Prop :=
  stream_key sid = stream_key streamId ∨ stats_key sid = stream_key streamId.

(** A cleanup that does not remove the record leaves it as it is. *)
Lemma run_due_keeps streamId t timers : ∀ env w l,
  (∀ due sid, In (due, sid) timers → due ≤ t → ¬ removes sid streamId) →
  c_hashes (w_cache (fst (after (run_due t timers) env (w, l)))) !! stream_key streamId
  = c_hashes (w_cache w) !! stream_key streamId.
Proof.
  induction timers as [|[due0 sid0] timers IH]; intros env w l H; [done|].
  unfold after in *. simpl.
  assert (Hrest : ∀ due sid, In (due, sid) timers → due ≤ t → ¬ removes sid streamId)
    by (intros due sid Hin; apply H; by right).
  destruct (due0 <=? t) eqn:Hdue; [|by apply IH].
  unfold bind.
  destruct (cache_deleteStream_run sid0 env w l) as (c & -> & Hc).
  rewrite IH by done. simpl. rewrite Hc.
  apply Z.leb_le in Hdue.
  assert (Hkeep : ¬ removes sid0 streamId) by (apply (H due0 sid0); [by left|done]).
  rewrite !lookup_delete_ne; [done| |]; intros Heq; apply Hkeep; [by left|by right].
Qed.

Lemma run_timers_keeps streamId env st :
  (∀ due sid, In (due, sid) (w_timers (fst st)) → due ≤ now env →
              ¬ removes sid streamId) →
  c_hashes (w_cache (fst (after run_timers env st))) !! stream_key streamId
  = c_hashes (w_cache (fst st)) !! stream_key streamId.
Proof.
  intros H. destruct st as [w l]. unfold after, run_timers. cbn [fst snd].
  pose proof (run_due_keeps streamId (now env) (w_timers w) env
                (set_w_timers
                   (λ _, List.filter (λ d, negb (fst d <=? now env)) (w_timers w)) w)
                l H) as Hk.
  exact Hk.
Qed.

(** C2, amended. The cached record of a stream is removed by the cleanup
    that a successful [endStream] schedules 30 seconds after the call.  A
    second call made right away returns normally again.  When no cleanup
    that removes the record was pending before the first call, a second
    call made less than 30 seconds after the first returns normally also
    when the event loop has run every timer that is due; a second call made
    30 seconds or more after the first, once the due timers have run,
    throws "Stream not found".  A repeated call inside the window does not
    extend it: the cleanup of the first call still removes the record at
    its 30 seconds. *)
Theorem endStream_second_call (streamId userId : string) (env env' : Env)
    (st st1 : World * Log) (upd : gmap string JVal) :
  endStream streamId userId env st = (Ok upd, st1) →
  (∃ upd' st2, endStream streamId userId env' st1 = (Ok upd', st2))
  ∧ (now env + 30000 ≤ now env' →
     fst (endStream streamId userId env' (after run_timers env' st1))
     = Throw (Error "Stream not found"))
  ∧ ((∀ due sid, In (due, sid) (w_timers (fst st)) → due ≤ now env' →
                 ¬ removes sid streamId) →
     now env' < now env + 30000 →
     ∃ upd' st2,
       endStream streamId userId env' (after run_timers env' st1) = (Ok upd', st2))
  ∧ ∀ env'' upd'' st2,
      endStream streamId userId env'' st1 = (Ok upd'', st2) →
      now env + 30000 ≤ now env' →
      fst (endStream streamId userId env' (after run_timers env' st2))
      = Throw (Error "Stream not found").
Proof.
  intros Hrun.
  destruct (decide (size (hgetall (w_cache (fst st)) (stream_key streamId)) = 0%nat))
    as [Hz|Hnz].
  { pose proof (endStream_not_found streamId userId env st Hz) as H.
    by rewrite Hrun in H. }
  destruct (endStream_found streamId userId env st Hnz) as (upd0 & st0 & H0 & Hc & Ht).
  rewrite Hrun in H0. injection H0 as <- <-.
  split; [|split; [|split]].
  - destruct (endStream_found streamId userId env' st1 Hc) as (upd' & st2 & H2 & _).
    by eauto.
  - intros Hlate. apply endStream_not_found. unfold hgetall.
    rewrite (run_timers_deletes streamId (now env + 30000)); [done| |done].
    rewrite Ht. apply in_app_iff. right. by left.
  - intros Hquiet Hearly.
    destruct (endStream_found streamId userId env' (after run_timers env' st1))
      as (upd' & st2 & H2 & _); [|by eauto].
    unfold hgetall. rewrite run_timers_keeps; [exact Hc|].
    intros due sid Hin Hdue. rewrite Ht in Hin.
    apply in_app_iff in Hin as [Hin|[[= <- <-]|[]]]; [by eapply Hquiet|lia].
  - intros env'' upd'' st2 Hagain Hlate.
    destruct (endStream_found streamId userId env'' st1 Hc)
      as (upd2 & st2' & H2 & _ & Ht2).
    rewrite Hagain in H2. injection H2 as <- <-.
    apply endStream_not_found. unfold hgetall.
    rewrite (run_timers_deletes streamId (now env + 30000)); [done| |done].
    rewrite Ht2, Ht. apply in_app_iff. left. apply in_app_iff. right. by left.
Qed.

Definition env_late : Env := mkEnv 31000 false false.

(** 21 seconds after the first call. *)
Definition env_mid : Env := mkEnv 22000 false false.

Lemma endStream_second_call_witness :
  (∃ upd' st2,
     endStream "s1" "u1" env_late (after (endStream "s1" "u1") env0 st_stream)
     = (Ok upd', st2))
  ∧ fst (endStream "s1" "u1" env_late
           (after run_timers env_late (after (endStream "s1" "u1") env0 st_stream)))
    = Throw (Error "Stream not found")
  ∧ (∃ upd' st2,
       endStream "s1" "u1" env_mid
         (after run_timers env_mid (after (endStream "s1" "u1") env0 st_stream))
       = (Ok upd', st2))
  ∧ fst (endStream "s1" "u1" env_late
           (after run_timers env_late
              (after (endStream "s1" "u1") env_mid
                 (after (endStream "s1" "u1") env0 st_stream))))
    = Throw (Error "Stream not found").
Proof.
  destruct (endStream_second_call "s1" "u1" env0 env_late st_stream
              (after (endStream "s1" "u1") env0 st_stream)
              (match fst (endStream "s1" "u1" env0 st_stream) with
               | Ok u => u
               | Throw _ => ∅
               end)) as (H1 & H2 & _ & H4).
  { vm_compute. reflexivity. }
  destruct (endStream_second_call "s1" "u1" env0 env_mid st_stream
              (after (endStream "s1" "u1") env0 st_stream)
              (match fst (endStream "s1" "u1" env0 st_stream) with
               | Ok u => u
               | Throw _ => ∅
               end)) as (_ & _ & H3 & _).
  { vm_compute. reflexivity. }
  split; [exact H1|]. split; [apply H2; vm_compute; discriminate|]. split.
  - apply H3.
    + intros due sid Hin. vm_compute in Hin. destruct Hin.
    + vm_compute. reflexivity.
  - apply (H4 env_mid
             (match fst (endStream "s1" "u1" env_mid
                           (after (endStream "s1" "u1") env0 st_stream)) with
              | Ok u => u
              | Throw _ => ∅
              end)
             (after (endStream "s1" "u1") env_mid
                (after (endStream "s1" "u1") env0 st_stream))).
    + vm_compute. reflexivity.
    + vm_compute. discriminate.
Defined.

(** ** C3: the transition to live *)

Definition started_events (st : World * Log) : nat :=
  length (List.filter (λ m, bool_decide (snd (fst m) = "stream.started"))
            (mq_published (w_mq (fst st)))).

Definition db_field (st : World * Log) (id k : string) : option JVal :=
  w_db (fst st) !! id ≫= λ doc, doc !! k.

Definition st_video : World * Log :=
  after (stream_produce "s1" "u1" 0 "video/VP8" "video") (mkEnv 1000 false false)
    st_stream.

Definition st_video_audio : World * Log :=
  after (stream_produce "s1" "u1" 0 "audio/opus" "audio") (mkEnv 5000 false false)
    st_video.

Lemma mediaService_run {A} (m : Eff MState A) env w l :
  ∃ r s1 l1, mediaService m env (w, l) = (r, (set_w_media s1 w, l1)).
Proof.
  unfold mediaService, lift. cbn [fst snd].
  destruct (m env (w_media w, l)) as [r [s1 l1]]. by eexists _, _, _.
Qed.

Lemma messageQueue_published exchange routingKey extraKey extra data t1 t2 t3 env w l :
  mq_fails env = false → mq_channel (w_mq w) = true →
  messageQueue (publish_via exchange routingKey extraKey extra data t1 t2 t3) env (w, l)
  = (Ok tt,
     (set_w_mq
        (mkMq true
           (mq_published (w_mq w)
              ++ [(exchange, routingKey,
                   <[extraKey := extra]> (<["timestamp" := JIso (now env)]> data))]))
        w,
      l ++ [(LDebug, MsgText t2)])).
Proof.
  intros Hf Hc. unfold messageQueue, lift, publish_via, channel_publish. eff_unfold.
  cbn [fst snd]. rewrite Hc. cbn [negb fst snd]. rewrite Hf. cbn [fst snd].
  by rewrite Hc.
Qed.

(** With the event bus up, every [produce] that returns has published a
    [stream.started] event, whether or not the stream was live already. *)
Lemma stream_produce_publishes_started roomId userId t rtp kind env w l producer st1 :
  mq_fails env = false → mq_channel (w_mq w) = true →
  stream_produce roomId userId t rtp kind env (w, l) = (Ok producer, st1) →
  ∃ m1 m2,
    mq_published (w_mq (fst st1))
    = (mq_published (w_mq w) ++ [("stream.events", "stream.started", m1)])
        ++ [("analytics.events", "producer.created", m2)].
Proof.
  intros Hf Hc. unfold stream_produce, publishStreamEvent, publishAnalyticsEvent.
  unfold try_catch at 1. unfold bind at 1.
  destruct (mediaService_run (produce roomId userId t rtp kind) env w l)
    as (r & s1 & l1 & ->).
  destruct r as [p|e]; [|by unfold bind, log, throw].
  unfold bind at 1. run_step. unfold bind at 1. unfold date_now at 1.
  cbn [fst snd]. unfold bind at 1.
  match goal with
  | |- context [match ?o with Some _ => _ | None => _ end env ?st] =>
      assert (Hupd : ∃ c l2, match o with
                             | Some str =>
                                 if negb (truthy (field str "isLive"))
                                 then cacheService
                                        (cache_updateStream roomId
                                           (js_obj [("isLive", JBool true);
                                                    ("startedAt", JIso (now env))]))
                                 else ret tt
                             | None => ret tt
                             end env st
                           = (Ok tt, (set_w_cache c (set_w_media s1 w), l2)))
  end.
  { case_decide.
    - eexists (w_cache w), _. unfold ret. by destruct w.
    - destruct (negb _).
      + rewrite cache_updateStream_run. by eexists _, _.
      + eexists (w_cache w), _. unfold ret. by destruct w. }
  destruct Hupd as (c & l2 & ->). cbn [fst snd].
  unfold bind at 1. run_step.
  unfold bind at 1. rewrite messageQueue_published by done. cbn [fst snd].
  unfold bind at 1. rewrite messageQueue_published by done. cbn [fst snd].
  unfold bind, log, ret. cbn [fst snd]. intros [= <- <-].
  eexists _, _. reflexivity.
Qed.

(** C3 on a broadcaster who produces video, then audio four seconds later.
    Both calls succeed.  The cached record goes live once and keeps its
    start time; the stream collection gets a second start time and the
    event bus a second [stream.started] event. *)
Theorem second_producer_starts_stream_again :
  is_ok (fst (stream_produce "s1" "u1" 0 "video/VP8" "video"
                (mkEnv 1000 false false) st_stream)) = true
  ∧ is_ok (fst (stream_produce "s1" "u1" 0 "audio/opus" "audio"
                  (mkEnv 5000 false false) st_video)) = true
  ∧ field (hgetall (w_cache (fst st_video_audio)) (stream_key "s1")) "isLive" = JBool true
  ∧ field (hgetall (w_cache (fst st_video_audio)) (stream_key "s1")) "startedAt"
    = JIso 1000
  ∧ started_events st_video = 1%nat
  ∧ started_events st_video_audio = 2%nat
  ∧ db_field st_video "s1" "startedAt" = Some (JDate 1000)
  ∧ db_field st_video_audio "s1" "startedAt" = Some (JDate 5000).
Proof. repeat split; vm_compute; reflexivity. Qed.

(** * The theorems at concrete inputs *)

(** One worker; user [A] holds a send transport in room [r1]. *)
Definition st_one_user : MState * Log :=
  mstep (OpCreateTransport "r1" "A" "send") env0
    (after (initialize 1) env0 (mstate0, [])).

(** Three workers; in room [r1] user [A] produces video over a send
    transport and user [B] holds a send transport only. *)
Definition st_scene : MState * Log :=
  mstep (OpCreateTransport "r1" "B" "send") env0
    (mstep (OpProduce "r1" "A" 0 "video/VP8" "video") env0
       (mstep (OpCreateTransport "r1" "A" "send") env0
          (after (initialize 3) env0 (mstate0, [])))).

(** Then [B] gets a receive transport and consumes the producer of [A]. *)
Definition st_consuming : MState * Log :=
  mstep (OpConsume "r1" "B" 0 ["video/VP8"]) env0
    (mstep (OpCreateTransport "r1" "B" "recv") env0 st_scene).

(** Persistence down and the event bus failing, against both working. *)
Definition env_failing : Env := mkEnv 1000 true true.

(** The state [st_stream] with an empty stream collection, no channel to
    the event bus and an empty log. *)
Definition st_stream_bare : World * Log :=
  (mkWorld (w_media (fst st_stream)) (w_cache (fst st_stream)) ∅ (mkMq false [])
     (w_timers (fst st_stream)), []).

Lemma closeParticipant_idempotent_witness :
  closeParticipant "nowhere" "A" env0 st_scene = (Ok tt, st_scene)
  ∧ closeParticipant "r1" "nobody" env0 st_scene = (Ok tt, st_scene)
  ∧ closeParticipant "r1" "A" env0 (after (closeParticipant "r1" "A") env0 st_scene)
    = (Ok tt, after (closeParticipant "r1" "A") env0 st_scene).
Proof.
  destruct (closeParticipant_idempotent "nowhere" "A" env0 env0 st_scene)
    as (_ & H1 & _ & _ & _).
  destruct (closeParticipant_idempotent "r1" "nobody" env0 env0 st_scene)
    as (_ & _ & H2 & _ & _).
  destruct (closeParticipant_idempotent "r1" "A" env0 env0 st_scene)
    as (_ & _ & _ & H3 & _).
  split; [apply H1; vm_compute; reflexivity|].
  split; [eapply H2; vm_compute; reflexivity|exact H3].
Defined.

Lemma closeParticipant_removes_empty_room_witness :
  JsMap.get "r1" (rooms (fst (after (closeParticipant "r1" "A") env0 st_one_user)))
  = None
  ∧ JsMap.size (r_participants (mkRoom "s1" 0 [] 1000 0)) = 0%nat.
Proof.
  destruct (closeParticipant_removes_empty_room "r1" "A" env0
              (fst st_one_user) (snd st_one_user)) as [_ H].
  specialize (H (mkRoom "r1" 0 [("A", 0%nat)] 1000 0) 0%nat).
  destruct (closeParticipant_removes_empty_room "s1" "A" env0
              (fst (after (initialize 1) env0 (mstate0, [])))
              (snd (after (initialize 1) env0 (mstate0, [])))) as [H0 _].
  specialize (H0 (mkRoom "s1" 0 [] 1000 0) st_room_created).
  vm_compute in H. vm_compute in H0.
  split; [exact (proj1 (H eq_refl eq_refl)) | exact (proj2 (H0 eq_refl eq_refl))].
Defined.

Lemma createRoom_idempotent_witness :
  createRoom "s1" env0 st_room_created
  = (Ok (mkRoom "s1" 0 [] 1000 0), st_room_created)
  ∧ length (e_routers (engine (fst st_room_created))) = 1%nat.
Proof.
  destruct (createRoom_idempotent "s1" env0 env0 st_room_created) as [H1 _].
  destruct (createRoom_idempotent "s1" env0 env0
              (after (initialize 1) env0 (mstate0, []))) as [_ H2].
  split.
  - apply H1. vm_compute. reflexivity.
  - refine (proj1 (proj2 (H2 (mkRoom "s1" 0 [] 1000 0) st_room_created _) _));
      vm_compute; reflexivity.
Defined.

Lemma createWebRtcTransport_adds_transport_witness :
  count_direction (fst st_two_send) "s1" "u1" "send" = 2%nat
  ∧ count_direction (fst st_two_send) "s1" "u1" "recv" = 0%nat.
Proof.
  assert (Hr : reachable 1 (mstep (OpCreateTransport "s1" "u1" "send") env0
                              (after (initialize 1) env0 (mstate0, []))))
    by (apply reach_step, reach_init).
  assert (Hrun : createWebRtcTransport "s1" "u1" "send" env0
                   (mstep (OpCreateTransport "s1" "u1" "send") env0
                      (after (initialize 1) env0 (mstate0, [])))
                 = (Ok (mkTransportData 1), st_two_send))
    by (vm_compute; reflexivity).
  destruct (createWebRtcTransport_adds_transport 1 _ st_two_send
              "s1" "u1" "send" env0 (mkTransportData 1) Hr Hrun) as [_ H].
  split.
  - rewrite (H "send"). vm_compute. reflexivity.
  - rewrite (H "recv"). vm_compute. reflexivity.
Defined.

Lemma consume_requires_recv_transport_witness :
  consume "r1" "B" 0 ["video/VP8"] env0 (fst st_scene, snd st_scene)
  = (Throw (Error "No receive transport found"), (fst st_scene, snd st_scene))
  ∧ ∃ td st1 cd st2,
      createWebRtcTransport "r1" "B" "recv" env0 (fst st_scene, snd st_scene)
      = (Ok td, st1)
      ∧ consume "r1" "B" 0 ["video/VP8"] env0 st1 = (Ok cd, st2)
      ∧ cd_producerId cd = 0%nat
      ∧ cd_id cd = length (e_consumers (engine (fst st_scene)))
      ∧ ∃ po p',
          e_producers (engine (fst st_scene)) !! 0%nat = Some po
          ∧ cd_kind cd = pr_kind po
          ∧ cd_rtpParameters cd = pr_rtpParameters po
          ∧ e_consumers (engine (fst st2))
            = e_consumers (engine (fst st_scene))
                ++ [mkConsumer (td_id td) 0 (pr_kind po) (pr_rtpParameters po)
                      true false (Some 1%nat) (Some 1%nat)]
          ∧ heap (fst st2) !! 1%nat = Some p'
          ∧ JsMap.get (cd_id cd) (p_consumers p') = Some (cd_id cd).
Proof.
  eapply (consume_requires_recv_transport "r1" "B" 0 ["video/VP8"] env0 env0 env0
            (fst st_scene) (snd st_scene) _ 1 _ 0 _ 0).
  - vm_compute. reflexivity.
  - vm_compute. reflexivity.
  - vm_compute. reflexivity.
  - vm_compute. left. reflexivity.
  - vm_compute. reflexivity.
  - vm_compute. reflexivity.
  - vm_compute. reflexivity.
  - intros t Hin. vm_compute in Hin. destruct Hin as [<-|[]]. vm_compute. reflexivity.
Defined.

Lemma consumer_cascade_witness :
  gone 0 1 (transport_close (fst st_consuming) 2)
  ∧ gone 0 1 (producer_close 0 (fst st_consuming))
  ∧ gone 0 1 (transport_close (fst st_consuming) 0).
Proof.
  assert (Hco : e_consumers (engine (fst st_consuming)) !! 0%nat
                = Some (mkConsumer 2 0 "video" "video/VP8" true false
                          (Some 1%nat) (Some 1%nat)))
    by (vm_compute; reflexivity).
  destruct (consumer_cascade 0 1 (fst st_consuming) _ Hco eq_refl eq_refl eq_refl)
    as (H1 & H2 & H3).
  split; [|split].
  - apply H1. eexists. split; vm_compute; reflexivity.
  - apply H2. eexists. split; vm_compute; reflexivity.
  - apply (H3 (mkProducer 0 0 "video" "video/VP8" false (Some 0%nat)));
      [vm_compute; reflexivity | reflexivity |].
    eexists. split; vm_compute; reflexivity.
Defined.

Lemma collaborator_failures_are_contained_witness :
  fst (stream_produce "s1" "u1" 0 "video/VP8" "video" env0 (fst st_stream, snd st_stream))
  = fst (stream_produce "s1" "u1" 0 "video/VP8" "video" env_failing st_stream_bare)
  ∧ fst (endStream "s1" "u1" env0 (fst st_stream, snd st_stream))
    = fst (endStream "s1" "u1" env_failing st_stream_bare)
  ∧ publishStreamEvent "started" ∅ env_failing (mkMq true [], [])
    = (Ok tt, (mkMq true [],
               [] ++ [(LError, MsgFailure "Error publishing stream event"
                                 (Error "event bus failure"))])).
Proof.
  destruct (collaborator_failures_are_contained cache_createStream_missing
              "s1" "u1" ∅ 0 "video/VP8" "video") as (_ & Hp & He & _ & _ & _ & Hq).
  split; [|split].
  - apply Hp; reflexivity.
  - apply He; reflexivity.
  - apply Hq; reflexivity.
Defined.

(** * Properties of the rest of the services *)

(** ** [MediaService] *)

(** A call of [connectTransport], [produce], [consume] or [resumeConsumer]
    that throws has changed nothing, not even the log. *)
Theorem failed_call_changes_nothing (roomId userId : string) (n : nat)
    (rtp kind : string) (caps : RtpCapabilities) (env : Env) (st : MState * Log) :
  (∀ e, fst (connectTransport roomId userId n env st) = Throw e →
        snd (connectTransport roomId userId n env st) = st)
  ∧ (∀ e, fst (produce roomId userId n rtp kind env st) = Throw e →
          snd (produce roomId userId n rtp kind env st) = st)
  ∧ (∀ e, fst (consume roomId userId n caps env st) = Throw e →
          snd (consume roomId userId n caps env st) = st)
  ∧ (∀ e, fst (resumeConsumer roomId userId n env st) = Throw e →
          snd (resumeConsumer roomId userId n env st) = st).
Proof.
  destruct st as [s l].
  repeat split; intros e;
    unfold connectTransport, produce, consume, resumeConsumer, lookup_room,
      lookup_participant, engine_connect, engine_produce, engine_consume,
      engine_resume; eff_unfold; cbn [fst snd];
    repeat (case_match; simplify_eq; cbn [fst snd] in *; try done).
Qed.

(** *** The worker counter of the engine is touched by [createWorker] only *)

Lemma counter_notify_consumer ev s c :
  e_workers (engine (notify_consumer ev s c)) = e_workers (engine s).
Proof. unfold notify_consumer. repeat case_match; done. Qed.

Lemma counter_consumers ev s l :
  e_workers (engine (foldl (notify_consumer ev) s l)) = e_workers (engine s).
Proof.
  apply (foldl_preserve (λ s', e_workers (engine s') = e_workers (engine s))); [|done].
  intros a b Ha. by rewrite counter_notify_consumer.
Qed.

Lemma counter_notify_producer s p :
  e_workers (engine (notify_producer s p)) = e_workers (engine s).
Proof.
  unfold notify_producer. repeat case_match; try done;
    rewrite counter_consumers; try done.
  unfold producer_listener, heap_alter, producer_close; simpl.
  repeat case_match; try done. by rewrite counter_consumers.
Qed.

Lemma counter_transport_close s t :
  e_workers (engine (transport_close s t)) = e_workers (engine s).
Proof.
  unfold transport_close. repeat case_match; try done.
  rewrite counter_consumers.
  apply (foldl_preserve (λ s', e_workers (engine s') = e_workers (engine s))); [|done].
  intros a b Ha. by rewrite counter_notify_producer.
Qed.

Lemma counter_transports s l :
  e_workers (engine (foldl transport_close s l)) = e_workers (engine s).
Proof.
  apply (foldl_preserve (λ s', e_workers (engine s') = e_workers (engine s))); [|done].
  intros a b Ha. by rewrite counter_transport_close.
Qed.

Lemma counter_router_close r s :
  e_workers (engine (router_close r s)) = e_workers (engine s).
Proof. unfold router_close. by rewrite counter_transports. Qed.

Lemma counter_worker_close s w :
  e_workers (engine (worker_close s w)) = e_workers (engine s).
Proof.
  unfold worker_close.
  apply (foldl_preserve (λ s', e_workers (engine s') = e_workers (engine s))); [|done].
  intros a b Ha. by rewrite counter_router_close.
Qed.

Lemma registry_worker_close s w : registry (worker_close s w) = registry s.
Proof.
  unfold worker_close.
  apply (foldl_preserve (λ s', registry s' = registry s)); [|done].
  intros a b Ha. by rewrite registry_router_close.
Qed.


(** *** Worker respawn *)



Definition respawned (index : nat) (s : MState) (old : nat) : MState :=
  set_workers (λ l, <[index := Some (e_workers (engine s))]> l)
    (set_engine (set_e_workers (S (e_workers (engine s)))) (worker_close s old)).

Lemma respawnWorker_run index env s l old :
  workers s !! index = Some (Some old) →
  respawnWorker index env (s, l)
  = (Ok tt, (respawned index s old,
             l ++ [(LInfo, MsgText "Worker respawned successfully")])).
Proof.
  intros Hold. unfold respawnWorker, createWorker, engine_createWorker. eff_unfold.
  cbn [fst snd]. unfold array_get. rewrite Hold. cbn [mjoin fst snd].
  unfold respawned, set_workers. simpl.
  pose proof (registry_worker_close s old) as Hreg. unfold registry in Hreg.
  injection Hreg as Hw Hi Hr.
  rewrite counter_worker_close, Hw, Hi, Hr. unfold array_set.
  rewrite decide_True by (by eapply lookup_lt_Some). done.
Qed.

Lemma on_worker_died_run index env s l old :
  workers s !! index = Some (Some old) →
  after (on_worker_died index) env (s, l)
  = (respawned index s old,
     l ++ [(LError, MsgText "Worker died, respawning...")]
       ++ [(LInfo, MsgText "Worker respawned successfully")]).
Proof.
  intros Hold. unfold after, on_worker_died. unfold bind at 1. unfold log at 1.
  cbn [fst snd]. rewrite (respawnWorker_run index env s _ old Hold). cbn [fst snd].
  by rewrite <- app_assoc.
Qed.














(** *** Routers under [close] *)

(** Router arena [l'] is [l] with some more routers closed. *)
Definition routers_le (l l' : list RouterObj) : Prop :=
  length l = length l'
  ∧ ∀ r ro, l !! r = Some ro →
      ∃ ro', l' !! r = Some ro' ∧ ro_worker ro' = ro_worker ro
             ∧ (ro_closed ro = true → ro_closed ro' = true).

Lemma routers_le_refl l : routers_le l l.
Proof. split; [done|]. intros r ro H. by exists ro. Qed.

Lemma routers_le_trans l1 l2 l3 : routers_le l1 l2 → routers_le l2 l3 → routers_le l1 l3.
Proof.
  intros [Hl1 H1] [Hl2 H2]. split; [congruence|]. intros r ro Hr.
  destruct (H1 r ro Hr) as (ro' & Hr' & Hw' & Hc').
  destruct (H2 r ro' Hr') as (ro'' & Hr'' & Hw'' & Hc'').
  exists ro''. split; [done|]. split; [congruence|auto].
Qed.

Lemma routers_router_close r s :
  e_routers (engine (router_close r s)) = arena_alter r ro_mark_closed (e_routers (engine s)).
Proof. unfold router_close. by rewrite routers_transports. Qed.

Lemma routers_le_close r l : routers_le l (arena_alter r ro_mark_closed l).
Proof.
  split; [by rewrite length_arena_alter|]. intros r' ro Hr'.
  destruct (decide (r = r')) as [->|Hne].
  - exists (ro_mark_closed ro). split; [by rewrite lookup_arena_alter, Hr'|]. done.
  - exists ro. split; [by rewrite lookup_arena_alter_ne|done].
Qed.

Lemma closed_router_close r s ro :
  e_routers (engine s) !! r = Some ro →
  ∃ ro', e_routers (engine (router_close r s)) !! r = Some ro' ∧ ro_closed ro' = true.
Proof.
  intros H. rewrite routers_router_close. exists (ro_mark_closed ro).
  split; [by rewrite lookup_arena_alter, H|done].
Qed.

Lemma routers_le_router_close r s :
  routers_le (e_routers (engine s)) (e_routers (engine (router_close r s))).
Proof. rewrite routers_router_close. apply routers_le_close. Qed.

Lemma routers_le_routers_close s l :
  routers_le (e_routers (engine s))
    (e_routers (engine (foldl (λ s r, router_close r s) s l))).
Proof.
  apply (foldl_preserve (λ s', routers_le (e_routers (engine s)) (e_routers (engine s'))));
    [|apply routers_le_refl].
  intros a b Ha. eapply routers_le_trans; [exact Ha|apply routers_le_router_close].
Qed.

Lemma routers_le_worker_close s w :
  routers_le (e_routers (engine s)) (e_routers (engine (worker_close s w))).
Proof. apply routers_le_routers_close. Qed.

Lemma in_routers_of_worker w s r :
  In r (routers_of_worker w s)
  ↔ ∃ ro, e_routers (engine s) !! r = Some ro ∧ ro_worker ro = w.
Proof.
  unfold routers_of_worker. rewrite filter_In, in_seq. split.
  - intros [_ H]. destruct (e_routers (engine s) !! r) as [ro|]; [|done].
    exists ro. split; [done|]. by apply bool_decide_eq_true in H.
  - intros (ro & Hr & Hw). split.
    + apply lookup_lt_Some in Hr. lia.
    + rewrite Hr. by apply bool_decide_eq_true.
Qed.

(** Closing a list of routers closes each of them. *)
Lemma closed_routers_close l : ∀ s r ro,
  In r l → e_routers (engine s) !! r = Some ro →
  ∃ ro', e_routers (engine (foldl (λ s r, router_close r s) s l)) !! r = Some ro'
         ∧ ro_worker ro' = ro_worker ro ∧ ro_closed ro' = true.
Proof.
  induction l as [|x l IH]; intros s r ro Hin Hr; [done|]. simpl.
  destruct Hin as [->|Hin].
  - destruct (closed_router_close r s ro Hr) as (ro1 & Hr1 & Hc1).
    destruct (routers_le_router_close r s) as [_ Hle0].
    destruct (Hle0 r ro Hr) as (ro1' & Hr1' & Hw1 & _).
    assert (ro1' = ro1) by congruence. subst ro1'.
    destruct (routers_le_routers_close (router_close r s) l) as [_ Hle].
    destruct (Hle r ro1 Hr1) as (ro' & Hr' & Hw' & Hc').
    exists ro'. split; [done|]. split; [congruence|auto].
  - destruct (routers_le_router_close x s) as [_ Hle].
    destruct (Hle r ro Hr) as (ro1 & Hr1 & Hw1 & _).
    destruct (IH (router_close x s) r ro1 Hin Hr1) as (ro' & Hr' & Hw' & Hc').
    exists ro'. split; [done|]. split; [congruence|done].
Qed.

Lemma closed_worker_close s w r ro :
  e_routers (engine s) !! r = Some ro → ro_worker ro = w →
  ∃ ro', e_routers (engine (worker_close s w)) !! r = Some ro'
         ∧ ro_worker ro' = w ∧ ro_closed ro' = true.
Proof.
  intros Hr Hw. unfold worker_close.
  destruct (closed_routers_close (routers_of_worker w s) s r ro) as (ro' & ? & ? & ?);
    [apply in_routers_of_worker; eauto|done|].
  exists ro'. split; [done|]. split; [congruence|done].
Qed.

(** A room whose worker dies is not rebuilt: [respawnWorker] replaces the
    worker in its slot, but the room stays registered on the router of the
    dead worker, which is closed, and [createRoom] keeps returning that
    room without creating a router. *)
Theorem respawn_leaves_room_on_closed_router (index : nat) (env : Env)
    (s : MState) (l : Log) (old : nat) (roomId : string) (room : Room)
    (ro : RouterObj) :
  workers s !! index = Some (Some old) →
  JsMap.get roomId (rooms s) = Some room →
  e_routers (engine s) !! r_router room = Some ro →
  ro_worker ro = old →
  let st' := after (on_worker_died index) env (s, l) in
  workers (fst st') !! index = Some (Some (e_workers (engine s)))
  ∧ (∃ ro', e_routers (engine (fst st')) !! r_router room = Some ro'
            ∧ ro_worker ro' = old ∧ ro_closed ro' = true)
  ∧ ∀ env', createRoom roomId env' st' = (Ok room, st').
Proof.
  intros Hold Hget Hr Hw st'. subst st'.
  rewrite (on_worker_died_run index env s l old Hold). cbn [fst snd].
  pose proof (registry_worker_close s old) as Hreg. unfold registry in Hreg.
  injection Hreg as Hws _ Hrooms.
  split; [|split].
  - unfold respawned. simpl. rewrite Hws. apply list_lookup_insert_eq.
    by eapply lookup_lt_Some.
  - unfold respawned. simpl. by apply (closed_worker_close s old _ ro).
  - intros env'. apply createRoom_existing. unfold respawned. simpl. by rewrite Hrooms.
Qed.

(** *** [createRoom] without workers *)

Definition no_worker_error : JsError :=
  TypeError "Cannot read properties of undefined (reading 'createRouter')".

Lemma workerIndex_worker_close s w : workerIndex (worker_close s w) = workerIndex s.
Proof.
  pose proof (registry_worker_close s w) as H. unfold registry in H. by injection H.
Qed.

Lemma workerIndex_createWorker i env st :
  workerIndex (fst (after (createWorker i) env st)) = workerIndex (fst st).
Proof. done. Qed.

Lemma workerIndex_createWorkers env l : ∀ st,
  workerIndex (fst (after (for_each l (λ i, run createWorker i; ret tt)) env st))
  = workerIndex (fst st).
Proof.
  induction l as [|i l IH]; intros st; [done|].
  unfold after in *. simpl. unfold bind at 1. unfold bind at 1.
  destruct (createWorker i env st) as [[w|e] st1] eqn:Hc.
  - unfold ret at 1. rewrite IH.
    pose proof (workerIndex_createWorker i env st) as H. unfold after in H.
    by rewrite Hc in H.
  - pose proof (workerIndex_createWorker i env st) as H. unfold after in H.
    by rewrite Hc in H.
Qed.

Lemma workerIndex_initialize cpus env st :
  workerIndex (fst (after (initialize cpus) env st)) = workerIndex (fst st).
Proof.
  unfold after, initialize. unfold bind at 1. unfold log at 1. unfold bind at 1.
  pose proof (workerIndex_createWorkers env (seq 0 (Nat.min cpus 8))
                (fst st, snd st ++ [(LInfo, MsgCreatingWorkers (Nat.min cpus 8))])) as H.
  unfold after in H.
  destruct (for_each _ _ env _) as [[[]|e] [s' l']]; eff_unfold; by cbn [fst snd] in *.
Qed.

Lemma workerIndex_died index env st :
  workerIndex (fst (after (on_worker_died index) env st)) = workerIndex (fst st).
Proof.
  destruct st as [s l].
  unfold after, on_worker_died, respawnWorker, createWorker, engine_createWorker.
  eff_unfold. cbn [fst snd].
  destruct (array_get index (workers s)); cbn [fst snd]; simpl;
    by rewrite ?workerIndex_worker_close.
Qed.

Lemma rooms_initialize cpus env st :
  rooms (fst (after (initialize cpus) env st)) = rooms (fst st).
Proof.
  unfold after, initialize. unfold bind at 1. unfold log at 1. unfold bind at 1.
  assert (H : ∀ l st, rooms (fst (snd (for_each l (λ i, run createWorker i; ret tt) env st)))
                      = rooms (fst st)).
  { clear. intros l. induction l as [|i l IH]; intros st; [done|].
    simpl. unfold bind at 1. unfold bind at 1.
    destruct (createWorker i env st) as [[w|e] st1] eqn:Hc.
    - unfold ret at 1. rewrite IH.
      change st1 with (snd (Ok w : Result nat, st1)). by rewrite <- Hc.
    - change st1 with (snd (Throw e : Result nat, st1)). by rewrite <- Hc. }
  specialize (H (seq 0 (Nat.min cpus 8))
                (fst st, snd st ++ [(LInfo, MsgCreatingWorkers (Nat.min cpus 8))])).
  destruct (for_each _ _ env _) as [[[]|e] [s' l']]; eff_unfold; by cbn [fst snd] in *.
Qed.

(** [createRoom] called while the pool is empty (before [initialize], or
    after [cleanup]) throws a [TypeError] and leaves [workerIndex] at [NaN].
    [NaN] is never left again: not by [initialize], a public operation or a
    respawn; and with [workerIndex] at [NaN] every [createRoom] of a room
    that is not registered throws the same error, workers or not. *)
Theorem createRoom_on_empty_pool_breaks_service (roomId : string) (env : Env)
    (s : MState) (l : Log) :
  JsMap.get roomId (rooms s) = None →
  (workers s = [] →
   fst (createRoom roomId env (s, l)) = Throw no_worker_error
   ∧ workerIndex (fst (snd (createRoom roomId env (s, l)))) = NaN)
  ∧ (workerIndex s = NaN →
     fst (createRoom roomId env (s, l)) = Throw no_worker_error
     ∧ (∀ cpus, workerIndex (fst (after (initialize cpus) env (s, l))) = NaN)
     ∧ (∀ op, workerIndex (fst (mstep op env (s, l))) = NaN)
     ∧ (∀ index, workerIndex (fst (after (on_worker_died index) env (s, l))) = NaN)).
Proof.
  intros Hget. split.
  - intros Hw.
    assert (Hnext : next_worker s = None).
    { unfold next_worker, array_get. rewrite Hw. by destruct (workerIndex s) as [[|i]|]. }
    rewrite (createRoom_no_worker roomId env s l Hget Hnext). cbn [fst snd].
    split; [done|]. rewrite Hw. simpl. by destruct (workerIndex s).
  - intros Hi.
    assert (Hnext : next_worker s = None) by (unfold next_worker; by rewrite Hi).
    rewrite (createRoom_no_worker roomId env s l Hget Hnext). cbn [fst snd].
    split; [done|]. split; [|split].
    + intros cpus. by rewrite workerIndex_initialize.
    + intros op.
      assert (Hcr : ∀ r, workerIndex (fst (after (createRoom r) env (s, l))) = NaN).
      { intros r. unfold after. destruct (JsMap.get r (rooms s)) as [room|] eqn:Hr.
        - by rewrite (createRoom_existing r env (s, l) room Hr).
        - rewrite (createRoom_no_worker r env s l Hr Hnext). simpl. by rewrite Hi. }
      destruct op; simpl.
      * apply Hcr.
      * pose proof (pool_createWebRtcTransport roomId0 userId direction env (s, l)) as Hp.
        unfold pool in Hp. injection Hp as _ Hp _. simpl in Hp. rewrite Hp. apply Hcr.
      * pose proof (pool_connectTransport roomId0 userId transportId env (s, l)) as Hp.
        unfold pool in Hp. injection Hp as _ Hp _. by rewrite Hp.
      * pose proof (pool_produce roomId0 userId transportId rtpParameters kind env (s, l))
          as Hp.
        unfold pool in Hp. injection Hp as _ Hp _. by rewrite Hp.
      * pose proof (pool_consume roomId0 userId producerId rtpCapabilities env (s, l)) as Hp.
        unfold pool in Hp. injection Hp as _ Hp _. by rewrite Hp.
      * pose proof (pool_resumeConsumer roomId0 userId consumerId env (s, l)) as Hp.
        unfold pool in Hp. injection Hp as _ Hp _. by rewrite Hp.
      * pose proof (pool_closeParticipant roomId0 userId env (s, l)) as Hp.
        unfold pool in Hp. injection Hp as _ Hp _. by rewrite Hp.
    + intros index. by rewrite workerIndex_died.
Qed.

(** *** [cleanup] *)

Lemma for_each_modify {S A} (f : A → S → S) (l : list A) env : ∀ (s : S) (lg : Log),
  for_each l (λ x, modify (f x)) env (s, lg) = (Ok tt, (foldl (λ s x, f x s) s l, lg)).
Proof.
  induction l as [|x l IH]; intros s lg; [done|].
  simpl. unfold bind at 1. unfold modify at 1. cbn [fst snd]. apply IH.
Qed.

(** What the second loop of [cleanup] does with one slot of the pool. *)
Definition close_slot (s : MState) (worker : option nat) : MState :=
  match worker with
  | Some w => worker_close s w
  | None => s
  end.

Definition close_worker_body (worker : option nat) : Eff MState unit :=
  match worker with
  | Some w => modify (λ s, worker_close s w)
  | None =>
      log LError
        (MsgFailure "Error closing worker:"
           (TypeError "Cannot read properties of undefined (reading 'close')"))
  end.

Lemma close_workers_run env ws : ∀ s lg,
  ∃ lg', for_each ws close_worker_body env (s, lg) = (Ok tt, (foldl close_slot s ws, lg')).
Proof.
  induction ws as [|[w|] ws IH]; intros s lg.
  - by exists lg.
  - simpl. unfold bind at 1. unfold modify at 1. cbn [fst snd]. apply IH.
  - simpl. unfold bind at 1. unfold log at 1. cbn [fst snd]. apply IH.
Qed.

Definition close_rooms (s : MState) (rs : list Room) : MState :=
  foldl (λ s room, router_close (r_router room) s) s rs.

Lemma close_rooms_routers rs : ∀ s,
  close_rooms s rs = foldl (λ s r, router_close r s) s (map r_router rs).
Proof. induction rs as [|x rs IH]; intros s; [done|]. apply IH. Qed.

Lemma registry_close_slots ws : ∀ s, registry (foldl close_slot s ws) = registry s.
Proof.
  induction ws as [|[w|] ws IH]; intros s; simpl; [done| |apply IH].
  by rewrite IH, registry_worker_close.
Qed.

Lemma routers_le_close_slots ws : ∀ s,
  routers_le (e_routers (engine s)) (e_routers (engine (foldl close_slot s ws))).
Proof.
  induction ws as [|[w|] ws IH]; intros s; simpl; [apply routers_le_refl| |apply IH].
  eapply routers_le_trans; [apply routers_le_worker_close|apply IH].
Qed.

Lemma closed_close_slots ws : ∀ s w r ro,
  In (Some w) ws → e_routers (engine s) !! r = Some ro → ro_worker ro = w →
  ∃ ro', e_routers (engine (foldl close_slot s ws)) !! r = Some ro'
         ∧ ro_closed ro' = true.
Proof.
  induction ws as [|x ws IH]; intros s w r ro Hin Hr Hw; [done|]. simpl.
  destruct Hin as [->|Hin].
  - simpl. destruct (closed_worker_close s w r ro Hr Hw) as (ro1 & Hr1 & _ & Hc1).
    destruct (routers_le_close_slots ws (worker_close s w)) as [_ Hle].
    destruct (Hle r ro1 Hr1) as (ro' & Hr' & _ & Hc'). exists ro'. auto.
  - assert (Hx : ∃ ro1, e_routers (engine (close_slot s x)) !! r = Some ro1
                        ∧ ro_worker ro1 = w).
    { destruct x as [w'|]; simpl; [|by exists ro].
      destruct (routers_le_worker_close s w') as [_ Hle].
      destruct (Hle r ro Hr) as (ro1 & Hr1 & Hw1 & _). exists ro1. split; [done|congruence]. }
    destruct Hx as (ro1 & Hr1 & Hw1). by apply (IH _ w r ro1).
Qed.

Definition cleaned (s : MState) : MState :=
  set_workers (λ _, [])
    (foldl close_slot (set_rooms (λ _, []) (close_rooms s (JsMap.values (rooms s))))
       (workers s)).

Lemma registry_close_rooms rs : ∀ s, registry (close_rooms s rs) = registry s.
Proof.
  induction rs as [|x rs IH]; intros s; [done|]. simpl.
  unfold close_rooms in *. simpl. by rewrite IH, registry_router_close.
Qed.

Lemma cleanup_run env s l :
  ∃ l', cleanup env (s, l) = (Ok tt, (cleaned s, l')).
Proof.
  unfold cleanup. unfold bind at 1. unfold log at 1. cbn [fst snd].
  unfold bind at 1. unfold get_state at 1. cbn [fst snd].
  unfold bind at 1. rewrite for_each_modify.
  unfold bind at 1. unfold modify at 1. cbn [fst snd].
  unfold bind at 1. unfold get_state at 1. cbn [fst snd].
  unfold bind at 1.
  change (λ worker : option nat, match worker with
                                  | Some w => modify (λ s0, worker_close s0 w)
                                  | None => _
                                  end) with close_worker_body.
  destruct (close_workers_run env
              (workers (set_rooms (λ _, [])
                 (foldl (λ s0 x, router_close (r_router x) s0) s (JsMap.values (rooms s)))))
              (set_rooms (λ _, [])
                 (foldl (λ s0 x, router_close (r_router x) s0) s (JsMap.values (rooms s))))
              (l ++ [(LInfo, MsgText "Cleaning up MediaService...")])) as [l' Hrun].
  rewrite Hrun. unfold modify. cbn [fst snd]. exists l'. unfold cleaned.
  do 3 f_equal. simpl.
  pose proof (registry_close_rooms (JsMap.values (rooms s)) s) as Hreg.
  unfold registry, close_rooms in Hreg. by injection Hreg as -> _ _.
Qed.

(** [cleanup] never throws and leaves the service with no room and no
    worker; the router of every room that was registered is closed, and so
    is every router of a worker of the pool.  Afterwards
    [getRouterCapabilities] throws 'No workers available' and [createRoom]
    throws for every room. *)
Theorem cleanup_shuts_down (env : Env) (st : MState * Log) :
  fst (cleanup env st) = Ok tt
  ∧ rooms (fst (snd (cleanup env st))) = []
  ∧ workers (fst (snd (cleanup env st))) = []
  ∧ (∀ roomId room ro,
       JsMap.get roomId (rooms (fst st)) = Some room →
       e_routers (engine (fst st)) !! r_router room = Some ro →
       ∃ ro', e_routers (engine (fst (snd (cleanup env st)))) !! r_router room = Some ro'
              ∧ ro_closed ro' = true)
  ∧ (∀ w r ro,
       In (Some w) (workers (fst st)) →
       e_routers (engine (fst st)) !! r = Some ro → ro_worker ro = w →
       ∃ ro', e_routers (engine (fst (snd (cleanup env st)))) !! r = Some ro'
              ∧ ro_closed ro' = true)
  ∧ (∀ env', fst (getRouterCapabilities env' (snd (cleanup env st)))
             = Throw (Error "No workers available"))
  ∧ (∀ roomId env', fst (createRoom roomId env' (snd (cleanup env st)))
                    = Throw no_worker_error).
Proof.
  destruct st as [s l]. destruct (cleanup_run env s l) as [l' Hrun]. rewrite Hrun.
  cbn [fst snd].
  assert (Hrooms : rooms (cleaned s) = []).
  { unfold cleaned. simpl.
    pose proof (registry_close_slots
                  (workers s)
                  (set_rooms (λ _, []) (close_rooms s (JsMap.values (rooms s))))) as Hreg.
    unfold registry in Hreg. by injection Hreg as _ _ ->. }
  pose proof (registry_close_rooms (JsMap.values (rooms s)) s) as Hreg1.
  unfold registry in Hreg1. injection Hreg1 as Hw1 _ _.
  assert (Hle1 : routers_le (e_routers (engine s))
                   (e_routers (engine (close_rooms s (JsMap.values (rooms s)))))).
  { rewrite close_rooms_routers. apply routers_le_routers_close. }
  split; [done|]. split; [done|]. split; [done|]. split; [|split; [|split]].
  - intros roomId room ro Hget Hr.
    destruct (closed_routers_close (map r_router (JsMap.values (rooms s))) s
                (r_router room) ro) as (ro1 & Hr1 & _ & Hc1); [|done|].
    { apply in_map. by eapply jsmap_get_In_values. }
    rewrite <- close_rooms_routers in Hr1.
    destruct (routers_le_close_slots (workers s)
                (set_rooms (λ _, []) (close_rooms s (JsMap.values (rooms s))))) as [_ Hle].
    destruct (Hle (r_router room) ro1 Hr1) as (ro' & Hr' & _ & Hc').
    exists ro'. unfold cleaned. simpl. auto.
  - intros w r ro Hin Hr Hw.
    destruct Hle1 as [_ Hle1]. destruct (Hle1 r ro Hr) as (ro1 & Hr1 & Hw1' & _).
    destruct (closed_close_slots (workers s)
                (set_rooms (λ _, []) (close_rooms s (JsMap.values (rooms s))))
                w r ro1 Hin Hr1) as (ro' & Hr' & Hc'); [congruence|].
    exists ro'. unfold cleaned. simpl. auto.
  - intros env'. done.
  - intros roomId env'.
    rewrite createRoom_no_worker; [done|by rewrite Hrooms|].
    unfold next_worker, cleaned. simpl.
    by destruct (workerIndex _) as [[|i]|].
Qed.

(** *** Room statistics *)

Definition stats_of (env : Env) (roomId : string) (room : Room) : RoomStats :=
  mkRoomStats roomId (JsMap.size (r_participants room)) (r_createdAt room)
    (now env - r_createdAt room) (r_workerIndex room).

Lemma getRoomStats_run roomId env st :
  getRoomStats roomId env st
  = (Ok (stats_of env roomId <$> JsMap.get roomId (rooms (fst st))), st).
Proof.
  unfold getRoomStats. eff_unfold. cbn [fst snd].
  by destruct (JsMap.get roomId (rooms (fst st))).
Qed.

Lemma collect_getRoomStats env st ks :
  collect ks getRoomStats env st
  = (Ok (map (λ k, stats_of env k <$> JsMap.get k (rooms (fst st))) ks), st).
Proof.
  induction ks as [|k ks IH]; [done|].
  simpl. unfold bind at 1. rewrite getRoomStats_run.
  unfold bind at 1. by rewrite IH.
Qed.

Lemma jsmap_get_key {V} (m : list (string * V)) k :
  In k (JsMap.keys m) → is_Some (JsMap.get k m).
Proof.
  induction m as [|[k' v] m IH]; simpl; [done|].
  intros [->|Hin]; [by rewrite decide_True|].
  destruct (decide (k' = k)); [done|auto].
Qed.

(** [getRoomStats] and [getAllRoomStats] change nothing and never throw.
    [getRoomStats] returns [null] exactly for a room that is not registered;
    [getAllRoomStats] returns one entry per registered room, in the order of
    registration, none of them [null], each with the number of participants
    of the room and its age. *)
Theorem room_stats_describe_registry (roomId : string) (env : Env) (st : MState * Log) :
  (getRoomStats roomId env st
   = (Ok (stats_of env roomId <$> JsMap.get roomId (rooms (fst st))), st))
  ∧ ∃ stats,
      getAllRoomStats env st = (Ok stats, st)
      ∧ Forall2 (λ k entry, ∃ room, JsMap.get k (rooms (fst st)) = Some room
                                    ∧ entry = Some (stats_of env k room))
          (JsMap.keys (rooms (fst st))) stats.
Proof.
  split; [apply getRoomStats_run|].
  unfold getAllRoomStats. unfold bind at 1. unfold get_state at 1. cbn [fst snd].
  rewrite collect_getRoomStats. eexists. split; [done|].
  apply Forall2_fmap_r, Forall_Forall2_diag, Forall_forall.
  intros k Hk. apply list_elem_of_In, jsmap_get_key in Hk as [room Hroom].
  exists room. by rewrite Hroom.
Qed.

(** *** [closeParticipant] and the consumers of the others *)













(** *** [consume], then [resumeConsumer] *)

(** A consumer made by [consume] starts paused; the [resumeConsumer] of the
    same user for the identifier [consume] returned succeeds and leaves
    that consumer flowing, and open. *)
Theorem resumeConsumer_starts_the_flow (roomId userId : string) (producerId : nat)
    (caps : RtpCapabilities) (env env' : Env) (s : MState) (l : Log) (room : Room)
    (a : nat) (p : Participant) (cd : ConsumerData) (st2 : MState * Log) :
  JsMap.get roomId (rooms s) = Some room →
  JsMap.get userId (r_participants room) = Some a →
  heap s !! a = Some p →
  consume roomId userId producerId caps env (s, l) = (Ok cd, st2) →
  (∃ co, e_consumers (engine (fst st2)) !! cd_id cd = Some co ∧ co_paused co = true)
  ∧ ∃ st3 co',
      resumeConsumer roomId userId (cd_id cd) env' st2 = (Ok tt, st3)
      ∧ e_consumers (engine (fst st3)) !! cd_id cd = Some co'
      ∧ co_paused co' = false ∧ co_closed co' = false
      ∧ co_producer co' = producerId.
Proof.
  intros Hroom Hu Hp Hrun.
  destruct (consume_registers_listeners _ _ _ _ _ _ _ _ _ _ _ _ Hroom Hu Hp Hrun)
    as (co & p' & Hco & Hcl & Hpa & Hpr & _ & _ & Hp' & Hget).
  split; [by exists co|].
  pose proof (shape_consume roomId userId producerId caps env (s, l)) as Hshape.
  unfold after, shape in Hshape. rewrite Hrun in Hshape. cbn [fst snd] in Hshape.
  injection Hshape as Hrooms _.
  destruct st2 as [s2 l2]. cbn [fst snd] in *.
  unfold resumeConsumer, lookup_room, lookup_participant, engine_resume. eff_unfold.
  cbn [fst snd]. rewrite Hrooms, Hroom. cbn [fst snd]. rewrite Hu. cbn [fst snd].
  rewrite Hp'. cbn [fst snd]. rewrite Hget. cbn [fst snd].
  eexists _, (co_set_paused false co). split; [reflexivity|]. cbn [fst snd]. simpl.
  split; [by rewrite lookup_arena_alter, Hco|]. done.
Qed.

(** ** [StreamService] *)

(** The parts of the world outside the media service and the event bus. *)
Definition stores (w : World) : Cache * gmap string (gmap string JVal) * list (Z * string) :=
  (w_cache w, w_db w, w_timers w).

Lemma stream_consume_run roomId userId n caps env w l :
  ∃ q l',
    stream_consume roomId userId n caps env (w, l)
    = match consume roomId userId n caps env (w_media w, l) with
      | (Ok cd, (s1, l1)) => (Ok cd, (set_w_mq q (set_w_media s1 w), l'))
      | (Throw e, (s1, l1)) =>
          (Throw e, (set_w_media s1 w,
                     l1 ++ [(LError, MsgFailure "Error creating consumer" e)]))
      end.
Proof.
  unfold stream_consume, publishAnalyticsEvent.
  unfold try_catch at 1. unfold bind at 1.
  unfold mediaService at 1, lift at 1. cbn [fst snd].
  destruct (consume roomId userId n caps env (w_media w, l)) as [[cd|e] [s1 l1]].
  - unfold bind at 1. unfold date_now at 1. cbn [fst snd].
    unfold bind at 1. run_step. unfold bind, log, ret. cbn [fst snd].
    by eexists _, _.
  - exists (w_mq w), l. done.
Qed.

(** [StreamService.connectTransport], [consume] and [resumeConsumer] add
    nothing to the call they wrap: each returns or throws exactly what the
    [MediaService] method does, leaves the media service in the state that
    method leaves it in, and touches neither the cache, nor the stream
    collection, nor the timers. *)
Theorem stream_wrappers_are_transparent (roomId userId : string) (n : nat)
    (caps : RtpCapabilities) (env : Env) (w : World) (l : Log) :
  (fst (stream_connectTransport roomId userId n env (w, l))
   = fst (connectTransport roomId userId n env (w_media w, l))
   ∧ w_media (fst (snd (stream_connectTransport roomId userId n env (w, l))))
     = fst (snd (connectTransport roomId userId n env (w_media w, l)))
   ∧ stores (fst (snd (stream_connectTransport roomId userId n env (w, l)))) = stores w)
  ∧ (fst (stream_consume roomId userId n caps env (w, l))
     = fst (consume roomId userId n caps env (w_media w, l))
     ∧ w_media (fst (snd (stream_consume roomId userId n caps env (w, l))))
       = fst (snd (consume roomId userId n caps env (w_media w, l)))
     ∧ stores (fst (snd (stream_consume roomId userId n caps env (w, l)))) = stores w)
  ∧ (fst (stream_resumeConsumer roomId userId n env (w, l))
     = fst (resumeConsumer roomId userId n env (w_media w, l))
     ∧ w_media (fst (snd (stream_resumeConsumer roomId userId n env (w, l))))
       = fst (snd (resumeConsumer roomId userId n env (w_media w, l)))
     ∧ stores (fst (snd (stream_resumeConsumer roomId userId n env (w, l)))) = stores w).
Proof.
  split; [|split].
  - unfold stream_connectTransport, mediaService, lift. eff_unfold. cbn [fst snd].
    destruct (connectTransport roomId userId n env (w_media w, l)) as [[[]|e] [s1 l1]];
      done.
  - destruct (stream_consume_run roomId userId n caps env w l) as (q & l' & ->).
    by destruct (consume roomId userId n caps env (w_media w, l)) as [[cd|e] [s1 l1]].
  - unfold stream_resumeConsumer, mediaService, lift. eff_unfold. cbn [fst snd].
    destruct (resumeConsumer roomId userId n env (w_media w, l)) as [[[]|e] [s1 l1]];
      done.
Qed.

(** [createTransport] accepts the directions [send] and [recv] only: any
    other direction is refused with 'Invalid transport direction' before the
    media service is called, so that nothing changes but the log; with
    [send] or [recv] the call returns or throws what
    [MediaService.createWebRtcTransport] does. *)
Theorem createTransport_checks_direction (roomId userId direction : string)
    (env : Env) (w : World) (l : Log) :
  (direction ≠ "send" → direction ≠ "recv" →
   createTransport roomId userId direction env (w, l)
   = (Throw (Error "Invalid transport direction"),
      (w, l ++ [(LError, MsgFailure "Error creating transport:"
                           (Error "Invalid transport direction"))])))
  ∧ (direction = "send" ∨ direction = "recv" →
     fst (createTransport roomId userId direction env (w, l))
     = fst (createWebRtcTransport roomId userId direction env (w_media w, l))
     ∧ w_media (fst (snd (createTransport roomId userId direction env (w, l))))
       = fst (snd (createWebRtcTransport roomId userId direction env (w_media w, l)))).
Proof.
  split.
  - intros H1 H2. unfold createTransport.
    rewrite bool_decide_eq_false_2.
    + by destruct w.
    + intros Hin. apply list_elem_of_In in Hin. simpl in Hin.
      destruct Hin as [H|[H|H]]; [by apply H1|by apply H2|done].
  - intros Hd. unfold createTransport.
    rewrite bool_decide_eq_true_2.
    + unfold mediaService, lift. eff_unfold. cbn [negb fst snd].
      by destruct (createWebRtcTransport roomId userId direction env (w_media w, l))
        as [[td|e] [s1 l1]].
    + apply list_elem_of_In. simpl. destruct Hd as [-> | ->]; auto.
Qed.

(** *** [produce] and the cached record *)

(** The cache after the guarded update of [StreamService.produce]. *)
Definition produce_cache (t : Z) (roomId : string) (c : Cache) : Cache :=
  let rec := hgetall c (stream_key roomId) in
  if decide (size rec = 0%nat) then c
  else if truthy (field rec "isLive") then c
  else set_c_hashes
         (λ h, <[stream_key roomId :=
                   js_obj [("isLive", JBool true); ("startedAt", JIso t)]
                   ∪ default ∅ (h !! stream_key roomId)]> h) c.

Lemma stream_produce_run roomId userId t rtp kind env w l producer st1 :
  stream_produce roomId userId t rtp kind env (w, l) = (Ok producer, st1) →
  fst (produce roomId userId t rtp kind env (w_media w, l)) = Ok producer
  ∧ w_media (fst st1) = fst (snd (produce roomId userId t rtp kind env (w_media w, l)))
  ∧ w_cache (fst st1) = produce_cache (now env) roomId (w_cache w)
  ∧ w_timers (fst st1) = w_timers w.
Proof.
  unfold stream_produce, publishStreamEvent, publishAnalyticsEvent.
  unfold try_catch at 1. unfold bind at 1.
  unfold mediaService at 1, lift at 1. cbn [fst snd].
  destruct (produce roomId userId t rtp kind env (w_media w, l)) as [[p|e] [s1 l1]];
    [|by unfold bind, log, throw].
  unfold bind at 1. run_step. unfold bind at 1. unfold date_now at 1.
  cbn [fst snd]. unfold bind at 1.
  match goal with
  | |- context [match ?o with Some _ => _ | None => _ end env ?st] =>
      assert (Hupd : ∃ l2, match o with
                           | Some str =>
                               if negb (truthy (field str "isLive"))
                               then cacheService
                                      (cache_updateStream roomId
                                         (js_obj [("isLive", JBool true);
                                                  ("startedAt", JIso (now env))]))
                               else ret tt
                           | None => ret tt
                           end env st
                         = (Ok tt, (set_w_cache (produce_cache (now env) roomId (w_cache w))
                                      (set_w_media s1 w), l2)))
  end.
  { unfold produce_cache. simpl. case_decide.
    - eexists. unfold ret. by destruct w.
    - destruct (truthy _); simpl.
      + eexists. unfold ret. by destruct w.
      + rewrite cache_updateStream_run. by eexists. }
  destruct Hupd as (l2 & ->). cbn [fst snd].
  unfold bind at 1. run_step.
  unfold bind at 1. run_step.
  unfold bind at 1. run_step.
  unfold bind, log, ret. cbn [fst snd]. intros [= <- <-]. done.
Qed.

(** What a returning [produce] does to the cached record of the stream: a
    stream the cache does not know stays unknown; a record that is not live
    becomes live, with the current time as start time and every other field
    as it was; a live record is left alone, start time included.  Nothing
    else in the cache changes. *)
Theorem produce_marks_stream_live (roomId userId : string) (t : nat)
    (rtp kind : string) (env : Env) (w : World) (l : Log) (producer : nat)
    (st1 : World * Log) :
  stream_produce roomId userId t rtp kind env (w, l) = (Ok producer, st1) →
  let before := hgetall (w_cache w) (stream_key roomId) in
  let after_ := hgetall (w_cache (fst st1)) (stream_key roomId) in
  (size before = 0%nat → w_cache (fst st1) = w_cache w)
  ∧ (size before ≠ 0%nat → truthy (field before "isLive") = true →
     w_cache (fst st1) = w_cache w)
  ∧ (size before ≠ 0%nat → truthy (field before "isLive") = false →
     field after_ "isLive" = JBool true
     ∧ field after_ "startedAt" = JIso (now env)
     ∧ (∀ k, k ≠ "isLive" → k ≠ "startedAt" → after_ !! k = before !! k)
     ∧ (∀ key, key ≠ stream_key roomId →
               c_hashes (w_cache (fst st1)) !! key = c_hashes (w_cache w) !! key)
     ∧ c_sets (w_cache (fst st1)) = c_sets (w_cache w)
     ∧ c_lists (w_cache (fst st1)) = c_lists (w_cache w)).
Proof.
  intros Hrun before after_.
  destruct (stream_produce_run _ _ _ _ _ _ _ _ _ _ Hrun) as (_ & _ & Hc & _).
  subst after_. rewrite Hc. unfold produce_cache. fold before.
  split; [|split].
  - intros Hz. by rewrite decide_True.
  - intros Hnz Hlive. rewrite decide_False by done. by rewrite Hlive.
  - intros Hnz Hlive. rewrite decide_False by done. rewrite Hlive.
    unfold hgetall at 1 2 3. simpl. rewrite lookup_insert_eq. simpl.
    fold (hgetall (w_cache w) (stream_key roomId)). fold before.
    split; [|split; [|split; [|split]]]; try done.
    + unfold field. erewrite lookup_union_Some_l; [done|].
      by rewrite lookup_insert_eq.
    + unfold field. erewrite lookup_union_Some_l; [done|].
      rewrite lookup_insert_ne by done. by rewrite lookup_insert_eq.
    + intros k Hk1 Hk2.
      rewrite lookup_union_r; [done|].
      rewrite lookup_insert_ne by done. rewrite lookup_insert_ne by done. done.
    + intros key Hkey. by rewrite lookup_insert_ne.
Qed.

(** *** [endStream] *)

(** The record [endStream] writes and returns. *)
Definition streamUpdate (t : Z) (str finalStats : gmap string JVal) : gmap string JVal :=
  js_obj [("isLive", JBool false);
          ("endedAt", JIso t);
          ("duration", if truthy (field str "startedAt")
                       then elapsed_since t (field str "startedAt")
                       else JNum 0);
          ("maxViewers", js_or (field finalStats "maxViewers") (JNum 0));
          ("totalViews", js_or (field finalStats "views") (JNum 0));
          ("totalChatMessages", js_or (field finalStats "chatMessages") (JNum 0))].

Lemma mediaService_closeParticipant_eq streamId userId env w l :
  mediaService (closeParticipant streamId userId) env (w, l)
  = (Ok tt, (set_w_media (fst (snd (closeParticipant streamId userId env (w_media w, l)))) w,
             snd (snd (closeParticipant streamId userId env (w_media w, l))))).
Proof.
  unfold mediaService, lift. cbn [fst snd].
  pose proof (closeParticipant_total streamId userId env (w_media w, l)) as H.
  destruct (closeParticipant streamId userId env (w_media w, l)) as [r [s1 l1]].
  simpl in H. by subst.
Qed.

Lemma endStream_run streamId userId env w l :
  size (hgetall (w_cache w) (stream_key streamId)) ≠ 0%nat →
  ∃ finalStats st1,
    endStream streamId userId env (w, l)
    = (Ok (streamUpdate (now env) (hgetall (w_cache w) (stream_key streamId)) finalStats),
       st1)
    ∧ hgetall (w_cache (fst st1)) (stream_key streamId)
      = streamUpdate (now env) (hgetall (w_cache w) (stream_key streamId)) finalStats
        ∪ hgetall (w_cache w) (stream_key streamId)
    ∧ w_media (fst st1) = fst (snd (closeParticipant streamId userId env (w_media w, l))).
Proof.
  intros H.
  unfold endStream, publishStreamEvent, publishAnalyticsEvent.
  unfold try_catch at 1. unfold bind at 1. run_step.
  rewrite decide_False by done.
  unfold bind at 1. rewrite mediaService_closeParticipant_eq. cbn [fst snd].
  unfold bind at 1. run_step.
  unfold bind at 1. unfold date_now at 1. cbn [fst snd].
  unfold bind at 1. run_step. unfold bind at 1. run_step.
  unfold bind at 1. run_step. unfold bind at 1. run_step.
  unfold bind, log, setTimeout_deleteStream, date_now, modify, ret. cbn [fst snd].
  eexists _, _. split; [reflexivity|]. cbn [fst snd]. split; [|done].
  unfold hgetall. cbn. rewrite lookup_insert_eq. done.
Qed.

Lemma field_union_l (upd old : gmap string JVal) k v :
  upd !! k = Some v → field (upd ∪ old) k = v.
Proof. intros H. unfold field. by erewrite lookup_union_Some_l. Qed.

(** [endStream] checks that the stream is cached and nothing else: for a
    cached stream it returns for every user, owner of the stream or not.
    The record it returns, and the cached record afterwards, are not live
    and carry the current time as end time; the duration is the time since
    the cached start time, and 0 for a stream that never started.  The user
    is no participant of the room afterwards. *)
Theorem endStream_ends_for_any_user (streamId userId : string) (env : Env)
    (w : World) (l : Log) :
  size (hgetall (w_cache w) (stream_key streamId)) ≠ 0%nat →
  ∃ upd st1,
    endStream streamId userId env (w, l) = (Ok upd, st1)
    ∧ field upd "isLive" = JBool false
    ∧ field upd "endedAt" = JIso (now env)
    ∧ field upd "duration"
      = (if truthy (field (hgetall (w_cache w) (stream_key streamId)) "startedAt")
         then elapsed_since (now env)
                (field (hgetall (w_cache w) (stream_key streamId)) "startedAt")
         else JNum 0)
    ∧ field (hgetall (w_cache (fst st1)) (stream_key streamId)) "isLive" = JBool false
    ∧ field (hgetall (w_cache (fst st1)) (stream_key streamId)) "endedAt"
      = JIso (now env)
    ∧ ∀ room, JsMap.get streamId (rooms (w_media (fst st1))) = Some room →
              JsMap.get userId (r_participants room) = None.
Proof.
  intros H. destruct (endStream_run streamId userId env w l H)
    as (finalStats & st1 & Hrun & Hc & Hm).
  eexists _, st1. split; [exact Hrun|]. rewrite Hc, Hm.
  split; [done|]. split; [done|]. split; [done|].
  split; [by apply field_union_l|]. split; [by apply field_union_l|].
  intros room Hroom.
  pose proof (closeParticipant_gone streamId userId env (w_media w, l)) as Hg.
  by rewrite Hroom in Hg.
Qed.

(** The duration [endStream] reports is measured from the first [produce]:
    when [produce] returns on a cached stream that is not live, an
    [endStream] called later returns the time elapsed between the two
    calls. *)
Theorem endStream_duration_since_produce (roomId userId userId' : string) (t : nat)
    (rtp kind : string) (env env' : Env) (w : World) (l : Log) (producer : nat)
    (st1 : World * Log) :
  size (hgetall (w_cache w) (stream_key roomId)) ≠ 0%nat →
  truthy (field (hgetall (w_cache w) (stream_key roomId)) "isLive") = false →
  stream_produce roomId userId t rtp kind env (w, l) = (Ok producer, st1) →
  ∃ upd st2,
    endStream roomId userId' env' st1 = (Ok upd, st2)
    ∧ field upd "duration" = JNum (now env' - now env).
Proof.
  intros Hnz Hlive Hrun.
  destruct (stream_produce_run _ _ _ _ _ _ _ _ _ _ Hrun) as (_ & _ & Hc & _).
  assert (Hrec : hgetall (w_cache (fst st1)) (stream_key roomId)
                 = js_obj [("isLive", JBool true); ("startedAt", JIso (now env))]
                   ∪ hgetall (w_cache w) (stream_key roomId)).
  { rewrite Hc. unfold produce_cache. rewrite decide_False by done. rewrite Hlive.
    unfold hgetall. simpl. by rewrite lookup_insert_eq. }
  assert (Hnz1 : size (hgetall (w_cache (fst st1)) (stream_key roomId)) ≠ 0%nat).
  { rewrite Hrec. by apply (size_union_left _ _ "isLive" (JBool true)). }
  destruct st1 as [w1 l1]. cbn [fst] in *.
  destruct (endStream_run roomId userId' env' w1 l1 Hnz1) as (fs & st2 & Hend & _ & _).
  eexists _, st2. split; [exact Hend|].
  assert (Hstart : field (hgetall (w_cache w1) (stream_key roomId)) "startedAt"
                   = JIso (now env)).
  { rewrite Hrec. by apply field_union_l. }
  unfold streamUpdate. rewrite Hstart. done.
Qed.

(** *** [handleUserDisconnect] *)

Definition viewers (w : World) (streamId : string) : gset string :=
  default ∅ (c_sets (w_cache w) !! viewers_key streamId).

Lemma handleUserDisconnect_run streamId userId env w l :
  ∃ q l',
    handleUserDisconnect streamId userId env (w, l)
    = (Ok tt,
       (set_w_mq q
          (set_w_media
             (fst (snd (closeParticipant streamId userId env
                          (w_media w, l ++ [(LDebug, MsgText "Viewer removed")]))))
             (set_w_cache (fst (snd (cache_removeViewer streamId userId env (w_cache w, l))))
                w)),
        l')).
Proof.
  unfold handleUserDisconnect, publishUserPresence.
  unfold try_catch at 1. unfold bind at 1.
  assert (Hrm : ∃ n, cacheService (cache_removeViewer streamId userId) env (w, l)
                     = (Ok n,
                        (set_w_cache
                           (fst (snd (cache_removeViewer streamId userId env (w_cache w, l))))
                           w,
                         l ++ [(LDebug, MsgText "Viewer removed")]))).
  { by eexists. }
  destruct Hrm as [n ->].
  unfold bind at 1. rewrite mediaService_closeParticipant_eq. cbn [fst snd].
  unfold bind at 1. unfold date_now at 1. cbn [fst snd].
  unfold bind at 1. run_step.
  unfold log. cbn [fst snd]. simpl. by eexists _, _.
Qed.

Lemma handleUserDisconnect_out streamId userId env w l :
  let w1 := fst (snd (handleUserDisconnect streamId userId env (w, l))) in
  (userId ∉ viewers w1 streamId)
  ∧ (∀ u, u ≠ userId → (u ∈ viewers w1 streamId ↔ u ∈ viewers w streamId))
  ∧ ∀ room, JsMap.get streamId (rooms (w_media w1)) = Some room →
            JsMap.get userId (r_participants room) = None.
Proof.
  intros w1. subst w1.
  destruct (handleUserDisconnect_run streamId userId env w l) as (q & l' & ->).
  cbn [fst snd]. unfold viewers. simpl.
  split; [|split].
  - destruct (c_sets (w_cache w) !! viewers_key streamId) as [vs|] eqn:Hvs.
    + rewrite lookup_insert_eq. simpl.
      apply not_elem_of_difference. right. by apply elem_of_singleton.
    + rewrite Hvs. simpl. apply not_elem_of_empty.
  - intros u Hu. destruct (c_sets (w_cache w) !! viewers_key streamId) as [vs|] eqn:Hvs.
    + rewrite lookup_insert_eq. simpl.
      rewrite elem_of_difference, elem_of_singleton. tauto.
    + rewrite Hvs. done.
  - intros room Hroom.
    pose proof (closeParticipant_gone streamId userId env
                  (w_media w, l ++ [(LDebug, MsgText "Viewer removed")])) as Hg.
    by rewrite Hroom in Hg.
Qed.

(** After [handleUserDisconnect] the user is out of the stream's viewer set
    and is no participant of the stream's room; the other viewers are the
    viewers they were. *)
Theorem disconnect_removes_viewer_and_participant (streamId userId : string)
    (env : Env) (w : World) (l : Log) :
  let w1 := fst (snd (handleUserDisconnect streamId userId env (w, l))) in
  (userId ∉ viewers w1 streamId)
  ∧ (∀ u, u ≠ userId → (u ∈ viewers w1 streamId ↔ u ∈ viewers w streamId))
  ∧ ∀ room, JsMap.get streamId (rooms (w_media w1)) = Some room →
            JsMap.get userId (r_participants room) = None.
Proof. apply handleUserDisconnect_out. Qed.

(** ** [MessageQueue] *)

Inductive mq_reachable : MqClient * Log → Prop :=
| mq_init : mq_reachable (mq_client0, [])
| mq_next st ev env : mq_reachable st → mq_reachable (after (mq_event ev) env st).

(** The reconnections announced in the log. *)
Definition reconnections (l : Log) : nat :=
  length (List.filter
            (λ e, match e with
                  | (LInfo, MsgText "Attempting RabbitMQ reconnection") => true
                  | _ => false
                  end) l).

(** [publishChatMessage] never publishes anything: it returns normally, the
    list of published messages is what it was, and the log has one more
    error entry, with a channel and without one. *)
Theorem publishChatMessage_never_publishes (message : gmap string JVal) (env : Env)
    (q : Mq) (l : Log) :
  ∃ text,
    publishChatMessage message env (q, l) = (Ok tt, (q, l ++ [(LError, text)])).
Proof.
  unfold publishChatMessage, undeclared. eff_unfold. cbn [fst snd].
  destruct (mq_channel q); simpl; by eexists.
Qed.

Lemma reconnections_app l1 l2 :
  reconnections (l1 ++ l2) = (reconnections l1 + reconnections l2)%nat.
Proof. unfold reconnections. by rewrite List.filter_app, length_app. Qed.

(** The counter and the log go together and stay within the bound. *)
Definition mq_inv (n0 : nat) (st : MqClient * Log) : Prop :=
  (mc_reconnectAttempts (fst st) ≤ maxReconnectAttemps)%nat
  ∧ (n0 ≤ mc_reconnectAttempts (fst st))%nat
  ∧ reconnections (snd st) = mc_reconnectAttempts (fst st).

Lemma mq_inv_handleReconnect n0 env st :
  mq_inv n0 st → mq_inv n0 (after handleReconnect env st).
Proof.
  intros (Hle & Hge & Hlog). destruct st as [c l]. simpl in *.
  unfold after, handleReconnect. eff_unfold. cbn [fst snd].
  case_decide; cbn [fst snd]; unfold mq_inv; simpl.
  - rewrite reconnections_app. unfold reconnections at 2. simpl.
    split; [done|]. split; [done|lia].
  - rewrite reconnections_app. unfold reconnections at 2. simpl.
    split; [lia|]. split; [lia|]. lia.
Qed.

Lemma mq_inv_quiet n0 (c : MqClient) (l : Log) (e : LogEntry) :
  reconnections [e] = 0%nat →
  mq_inv n0 (c, l) → mq_inv n0 (c, l ++ [e]).
Proof.
  intros He (Hle & Hge & Hlog). unfold mq_inv in *. simpl in *.
  rewrite reconnections_app, He. split; [done|]. split; [done|lia].
Qed.

Lemma mq_inv_connect n0 env st :
  mq_inv n0 st → mq_inv n0 (after connect env st).
Proof.
  intros H. destruct st as [c l].
  unfold after, connect, amqp_connect. unfold try_catch, bind at 1. cbn [fst snd].
  destruct (mq_fails env).
  - unfold bind at 1. unfold log at 1. cbn [fst snd].
    apply (mq_inv_handleReconnect n0 env
             (c, l ++ [(LError, MsgFailure "RabbitMq connection error"
                                  (Error "event bus failure"))])).
    by apply mq_inv_quiet.
  - eff_unfold. cbn [fst snd].
    apply (mq_inv_quiet n0 _ l (LInfo, MsgText "RabbitMQ connected")); [done|].
    destruct H as (Hle & Hge & Hlog). by unfold mq_inv.
Qed.

Lemma mq_inv_connect_each n0 env due : ∀ st,
  mq_inv n0 st → mq_inv n0 (after (connect_each due) env st).
Proof.
  induction due as [|d due IH]; intros st H; [done|].
  unfold after in *. simpl. unfold bind.
  pose proof (mq_inv_connect n0 env st H) as Hc. unfold after in Hc.
  destruct (connect env st) as [[[]|e] st1]; [by apply IH|done].
Qed.

Lemma mq_inv_event n0 ev env st :
  mq_inv n0 st → mq_inv n0 (after (mq_event ev) env st).
Proof.
  intros H. destruct ev; simpl.
  - by apply mq_inv_connect.
  - unfold after. unfold bind at 1.
    apply (mq_inv_handleReconnect n0 env
             (snd (log LError (MsgText "RabbitMQ connection error:") env st))).
    destruct st as [c l]. by apply mq_inv_quiet.
  - unfold after. unfold bind at 1.
    apply (mq_inv_handleReconnect n0 env
             (snd (log LWarn (MsgText "RabbitMQ connection closed") env st))).
    destruct st as [c l]. by apply mq_inv_quiet.
  - unfold after. unfold bind at 1. unfold date_now at 1. cbn [fst snd].
    unfold bind at 1. unfold get_state at 1. cbn [fst snd].
    unfold bind at 1. unfold put_state at 1. cbn [fst snd].
    apply (mq_inv_connect_each n0 env).
    destruct H as (Hle & Hge & Hlog). by unfold mq_inv.
Qed.

(** [connect] never resets the counter [handleReconnect] reads, so the
    client reconnects at most ten times in its life, however often the
    connection came back in between: in every state the client can reach,
    at most ten reconnections have been announced, and once the counter is
    at ten a lost connection schedules no reconnection at all. *)
Theorem reconnections_are_bounded (st : MqClient * Log) (ev : MqEvent) (env : Env) :
  mq_reachable st →
  (reconnections (snd st) ≤ 10)%nat
  ∧ (mc_reconnectAttempts (fst st) ≤ mc_reconnectAttempts (fst (after (mq_event ev) env st)))%nat
  ∧ (mc_reconnectAttempts (fst st) = 10%nat →
     mc_timers (fst (after handleReconnect env st)) = mc_timers (fst st)
     ∧ mc_reconnectAttempts (fst (after (mq_event ev) env st)) = 10%nat).
Proof.
  intros Hr.
  assert (Hinv : mq_inv 0 st).
  { induction Hr as [|st ev' env' Hr IH].
    - unfold mq_inv, maxReconnectAttemps. simpl. split; [lia|]. split; [lia|done].
    - by apply mq_inv_event. }
  destruct Hinv as (Hle & _ & Hlog). unfold maxReconnectAttemps in Hle.
  split; [lia|]. split.
  - assert (H : mq_inv (mc_reconnectAttempts (fst st)) st).
    { unfold mq_inv, maxReconnectAttemps. lia. }
    apply (mq_inv_event _ ev env) in H. by destruct H as (_ & H & _).
  - intros Hten. split.
    + destruct st as [c l]. unfold after, handleReconnect. eff_unfold. cbn [fst snd].
      simpl in Hten. rewrite decide_True; [done|]. unfold maxReconnectAttemps. lia.
    + assert (H : mq_inv (mc_reconnectAttempts (fst st)) st).
      { unfold mq_inv, maxReconnectAttemps. lia. }
      apply (mq_inv_event _ ev env) in H. destruct H as (H1 & H2 & _).
      unfold maxReconnectAttemps in H1. lia.
Qed.

(** ** [CacheService] *)

Lemma unexpired_lookup {V} t ex (m : gmap string V) k :
  unexpired t ex m !! k = if is_expired t ex k then None else m !! k.
Proof.
  unfold unexpired. destruct (is_expired t ex k) eqn:He.
  - apply map_lookup_filter_None. right. intros x _. simpl. by rewrite He.
  - destruct (m !! k) as [x|] eqn:Hk.
    + apply map_lookup_filter_Some. by split.
    + apply map_lookup_filter_None. by left.
Qed.

Lemma lrange_0 l n : 0 ≤ n → lrange l 0 n = take (Z.to_nat (n + 1)) l.
Proof.
  intros Hn. unfold lrange. simpl.
  destruct (n <? 0) eqn:Hneg; [apply Z.ltb_lt in Hneg; lia|].
  destruct (Z.min n (Z.of_nat (length l) - 1) <? 0) eqn:Hs.
  - apply Z.ltb_lt in Hs. destruct l; [by rewrite take_nil|simpl in Hs; lia].
  - apply Z.ltb_ge in Hs. rewrite drop_0, Z.sub_0_r.
    destruct (decide (n ≤ Z.of_nat (length l) - 1)).
    + by rewrite Z.min_l.
    + rewrite Z.min_r by lia. rewrite !take_ge; [done|lia..].
Qed.

Lemma lrange_all l : lrange l 0 (-1) = l.
Proof.
  unfold lrange. simpl. rewrite Z.min_id.
  destruct (Z.of_nat (length l) - 1 <? 0) eqn:Hs.
  - apply Z.ltb_lt in Hs. destruct l; [done|simpl in Hs; lia].
  - apply Z.ltb_ge in Hs. rewrite drop_0, Z.sub_0_r, take_ge; [done|lia].
Qed.

(** *** [addViewer] *)

Definition viewer_set (c : Cache) (streamId : string) : gset string :=
  default ∅ (c_sets c !! viewers_key streamId).

Lemma cache_addViewer_run streamId userId env c l :
  let c1 := set_c_sets (λ m, <[viewers_key streamId :=
                                 {[userId]} ∪ default ∅ (m !! viewers_key streamId)]> m) c in
  let c2 := fst (snd (pipelined (hincrby (stats_key streamId) "totalViews" 1) env (c1, l))) in
  let count := scard c2 (viewers_key streamId) in
  let c3 := if js_gt (JNum count)
                 (parseInt (js_or (hget c2 (stats_key streamId) "maxViewers") (JNum 0)))
            then set_c_hashes (<[stats_key streamId :=
                                   <["maxViewers" := JNum count]>
                                     (hgetall c2 (stats_key streamId))]>) c2
            else c2 in
  ∃ c4 l',
    cache_addViewer streamId userId env (c, l) = (Ok count, (c4, l'))
    ∧ c_hashes c4 = c_hashes c3 ∧ c_sets c4 = c_sets c3 ∧ c_lists c4 = c_lists c3.
Proof.
  intros c1 c2 count c3.
  unfold cache_addViewer. unfold try_catch at 1. unfold bind at 1.
  assert (H1 : pipelined (sadd (viewers_key streamId) userId) env (c, l) = (Ok tt, (c1, l)))
    by done.
  rewrite H1. unfold bind at 1.
  assert (H2 : ∃ l2, pipelined (hincrby (stats_key streamId) "totalViews" 1) env (c1, l)
                     = (Ok tt, (c2, l2))).
  { subst c2. unfold pipelined, hincrby. eff_unfold. cbn [fst snd].
    repeat (case_match; simplify_eq; cbn [fst snd]; try by eexists). }
  destruct H2 as [l2 H2]. rewrite H2.
  unfold bind at 1. unfold get_state at 1. cbn [fst snd].
  fold count. unfold bind at 1.
  destruct (js_gt (JNum count) _) eqn:Hgt; subst c3; rewrite ?Hgt;
    unfold hset; eff_unfold; cbn [fst snd]; by eexists _, _.
Qed.

Lemma hincrby_sets key field n env c l :
  c_sets (fst (snd (pipelined (hincrby key field n) env (c, l)))) = c_sets c.
Proof.
  unfold pipelined, hincrby. eff_unfold. cbn [fst snd].
  repeat (case_match; simplify_eq; cbn [fst snd]; try done).
Qed.

Lemma hincrby_field key field n env c l :
  hgetall (fst (snd (pipelined (hincrby key field n) env (c, l)))) key !! field
  = match hgetall c key !! field with
    | None => Some (JNum n)
    | Some (JNum k) => Some (JNum (k + n))
    | Some v => Some v
    end.
Proof.
  unfold pipelined, hincrby. eff_unfold. cbn [fst snd].
  destruct (hgetall c key !! field) as [v|] eqn:Hf; [destruct v|]; cbn [fst snd];
    try done; unfold hgetall; simpl; rewrite lookup_insert_eq; simpl;
    by rewrite lookup_insert_eq.
Qed.

Lemma hincrby_other key field field' n env c l :
  field ≠ field' →
  hgetall (fst (snd (pipelined (hincrby key field n) env (c, l)))) key !! field'
  = hgetall c key !! field'.
Proof.
  intros Hne. unfold pipelined, hincrby. eff_unfold. cbn [fst snd].
  destruct (hgetall c key !! field) as [v|] eqn:Hf; [destruct v|]; cbn [fst snd];
    try done; unfold hgetall; simpl; rewrite lookup_insert_eq; simpl;
    by rewrite lookup_insert_ne.
Qed.

Lemma cache_addViewer_facts (streamId userId : string) (env : Env) (c : Cache) (l : Log) :
  ∃ c' l',
    cache_addViewer streamId userId env (c, l)
    = (Ok (Z.of_nat (size (viewer_set c' streamId))), (c', l'))
    ∧ viewer_set c' streamId = {[userId]} ∪ viewer_set c streamId
    ∧ (∀ k, hget c (stats_key streamId) "totalViews" = JNum k →
            hget c' (stats_key streamId) "totalViews" = JNum (k + 1))
    ∧ (hgetall c (stats_key streamId) !! "totalViews" = None →
       hget c' (stats_key streamId) "totalViews" = JNum 1)
    ∧ (∀ m, hget c (stats_key streamId) "maxViewers" = JNum m →
            hget c' (stats_key streamId) "maxViewers"
            = JNum (Z.max m (Z.of_nat (size (viewer_set c' streamId)))))
    ∧ (hgetall c (stats_key streamId) !! "maxViewers" = None →
       hget c' (stats_key streamId) "maxViewers"
       = JNum (Z.of_nat (size (viewer_set c' streamId)))).
Proof.
  destruct (cache_addViewer_run streamId userId env c l) as (c4 & l' & Hrun & Hh & Hs & Hl).
  set (c1 := set_c_sets (λ m, <[viewers_key streamId :=
                                  {[userId]} ∪ default ∅ (m !! viewers_key streamId)]> m) c)
    in *.
  set (c2 := fst (snd (pipelined (hincrby (stats_key streamId) "totalViews" 1) env (c1, l))))
    in *.
  assert (Hsets2 : c_sets c2 = c_sets c1) by apply hincrby_sets.
  assert (Hsets1 : c_sets c1 !! viewers_key streamId
                   = Some ({[userId]} ∪ viewer_set c streamId)).
  { unfold c1, viewer_set. simpl. by rewrite lookup_insert_eq. }
  assert (Hmax2 : hgetall c2 (stats_key streamId) !! "maxViewers"
                  = hgetall c (stats_key streamId) !! "maxViewers").
  { unfold c2. by rewrite hincrby_other. }
  assert (Htot2 : hgetall c2 (stats_key streamId) !! "totalViews"
                  = match hgetall c (stats_key streamId) !! "totalViews" with
                    | None => Some (JNum 1)
                    | Some (JNum k) => Some (JNum (k + 1))
                    | Some v => Some v
                    end).
  { unfold c2. by rewrite hincrby_field. }
  clearbody c2. clearbody c1.
  set (count := scard c2 (viewers_key streamId)) in *.
  assert (Hv : viewer_set c4 streamId = {[userId]} ∪ viewer_set c streamId).
  { unfold viewer_set at 1. rewrite Hs.
    destruct (js_gt _ _); cbn [c_sets set_c_hashes]; by rewrite Hsets2, Hsets1. }
  assert (Hcount : count = Z.of_nat (size (viewer_set c4 streamId))).
  { unfold count, scard. by rewrite Hv, Hsets2, Hsets1. }
  assert (Hpos : 1 ≤ count).
  { rewrite Hcount, Hv.
    assert (size ({[userId]} ∪ viewer_set c streamId) ≠ 0%nat); [|lia].
    intros H0. apply size_empty_iff in H0.
    assert (userId ∈ ({[userId]} ∪ viewer_set c streamId))
      by (apply elem_of_union_l; by apply elem_of_singleton).
    rewrite H0 in H. by apply not_elem_of_empty in H. }
  exists c4, l'. rewrite <- Hcount. split; [exact Hrun|]. split; [exact Hv|].
  assert (Hfield : ∀ f, hgetall c4 (stats_key streamId) !! f
                        = if js_gt (JNum count)
                               (parseInt (js_or (hget c2 (stats_key streamId) "maxViewers")
                                            (JNum 0)))
                          then <["maxViewers" := JNum count]>
                                 (hgetall c2 (stats_key streamId)) !! f
                          else hgetall c2 (stats_key streamId) !! f).
  { intros f. unfold hgetall at 1. rewrite Hh.
    destruct (js_gt _ _); [|done]. cbn [c_hashes set_c_hashes]. by rewrite lookup_insert_eq. }
  assert (Htot4 : hgetall c4 (stats_key streamId) !! "totalViews"
                  = hgetall c2 (stats_key streamId) !! "totalViews").
  { rewrite Hfield. destruct (js_gt _ _); [|done]. by rewrite lookup_insert_ne. }
  clear Hrun Hh Hs Hl Hsets2 Hsets1 Hv Hcount.
  split; [|split; [|split]].
  - intros k Hk. unfold hget in *. rewrite Htot4, Htot2.
    destruct (hgetall c (stats_key streamId) !! "totalViews") as [[]|];
      cbn [from_option id] in *; by simplify_eq.
  - intros Hnone. unfold hget. by rewrite Htot4, Htot2, Hnone.
  - intros m Hm. unfold hget in *. rewrite Hfield, Hmax2.
    destruct (hgetall c (stats_key streamId) !! "maxViewers") as [v|] eqn:Hmv;
      cbn [from_option id] in *; [|done]. subst v.
    unfold js_or, truthy, parseInt, js_gt. destruct (m =? 0) eqn:Hm0; cbn [negb].
    + apply Z.eqb_eq in Hm0. subst m.
      destruct (0 <? count) eqn:Hlt.
      * rewrite lookup_insert_eq. cbn [from_option id]. f_equal. lia.
      * apply Z.ltb_ge in Hlt. lia.
    + destruct (m <? count) eqn:Hlt.
      * rewrite lookup_insert_eq. cbn [from_option id]. apply Z.ltb_lt in Hlt. f_equal. lia.
      * cbn [from_option id]. apply Z.ltb_ge in Hlt. f_equal. lia.
  - intros Hnone. unfold hget in *. rewrite Hfield, Hmax2, Hnone.
    unfold js_or, truthy, parseInt, js_gt. cbn [from_option id negb].
    destruct (0 <? count) eqn:Hlt.
    + by rewrite lookup_insert_eq.
    + apply Z.ltb_ge in Hlt. lia.
Qed.

(** [addViewer] returns the size of the viewer set with the user in it.  It
    counts a view for every call, also when the user was a viewer already,
    and leaves the recorded maximum at the larger of the old maximum and
    the new number of viewers. *)
Theorem addViewer_counts (streamId userId : string) (env : Env) (c : Cache) (l : Log) :
  ∃ c' l',
    cache_addViewer streamId userId env (c, l)
    = (Ok (Z.of_nat (size (viewer_set c' streamId))), (c', l'))
    ∧ viewer_set c' streamId = {[userId]} ∪ viewer_set c streamId
    ∧ (∀ k, hget c (stats_key streamId) "totalViews" = JNum k →
            hget c' (stats_key streamId) "totalViews" = JNum (k + 1))
    ∧ (hgetall c (stats_key streamId) !! "totalViews" = None →
       hget c' (stats_key streamId) "totalViews" = JNum 1)
    ∧ (∀ m, hget c (stats_key streamId) "maxViewers" = JNum m →
            hget c' (stats_key streamId) "maxViewers"
            = JNum (Z.max m (Z.of_nat (size (viewer_set c' streamId)))))
    ∧ (hgetall c (stats_key streamId) !! "maxViewers" = None →
       hget c' (stats_key streamId) "maxViewers"
       = JNum (Z.of_nat (size (viewer_set c' streamId)))).
Proof. apply cache_addViewer_facts. Qed.

(** *** [checkRateLimit] *)

(** The key counts [k] calls and expires at [deadline]. *)
Definition counting (key : string) (k deadline : Z) (r : Redis) : Prop :=
  rd_strings r !! key = Some (JNum k) ∧ rd_expiry r !! key = Some deadline.

Lemma key_exists_string r k v : rd_strings r !! k = Some v → key_exists r k = true.
Proof.
  intros H. unfold key_exists. rewrite H. rewrite (bool_decide_eq_true_2 _); [|by eexists].
  by rewrite !orb_true_r.
Qed.

Lemma checkRateLimit_first key limit windowMs env r l :
  rd_strings r !! key = None ∨ is_expired (now env) (rd_expiry r) key = true →
  ∃ r',
    checkRateLimit key limit windowMs env (r, l) = (Ok (1 <=? limit), (r', l))
    ∧ counting key 1 (now env + ceil_seconds windowMs * 1000) r'.
Proof.
  intros Hfresh. unfold checkRateLimit, at_now.
  unfold bind at 1. unfold date_now at 1. cbn [fst snd].
  unfold bind at 1. unfold modify at 1. cbn [fst snd].
  assert (Hs : rd_strings (purge (now env) r) !! key = None).
  { unfold purge. simpl. rewrite unexpired_lookup.
    destruct Hfresh as [H|H]; rewrite H; [by destruct (is_expired _ _ _)|done]. }
  unfold try_catch, incr. unfold bind at 1. unfold bind at 1.
  unfold get_state at 1. cbn [fst snd]. rewrite Hs.
  unfold bind at 1. unfold modify at 1. cbn [fst snd]. unfold ret at 1.
  unfold bind at 1. rewrite decide_True by done.
  unfold expire. unfold bind at 1. unfold date_now at 1. cbn [fst snd].
  unfold bind at 1. unfold get_state at 1. cbn [fst snd].
  rewrite (key_exists_string _ key (JNum 1)) by (simpl; by rewrite lookup_insert_eq).
  unfold modify, ret. cbn [fst snd].
  eexists. split; [reflexivity|]. unfold counting. simpl.
  by rewrite !lookup_insert_eq.
Qed.

Lemma checkRateLimit_next key limit windowMs env r l k deadline :
  counting key k deadline r → 1 ≤ k → now env < deadline →
  ∃ r',
    checkRateLimit key limit windowMs env (r, l) = (Ok (k + 1 <=? limit), (r', l))
    ∧ counting key (k + 1) deadline r'.
Proof.
  intros [Hk Hd] Hpos Hlive. unfold checkRateLimit, at_now.
  unfold bind at 1. unfold date_now at 1. cbn [fst snd].
  unfold bind at 1. unfold modify at 1. cbn [fst snd].
  assert (He : is_expired (now env) (rd_expiry r) key = false).
  { unfold is_expired. rewrite Hd. apply Z.leb_gt. lia. }
  assert (Hs : rd_strings (purge (now env) r) !! key = Some (JNum k)).
  { unfold purge. simpl. by rewrite unexpired_lookup, He. }
  assert (Hx : rd_expiry (purge (now env) r) !! key = Some deadline).
  { unfold purge. simpl. by rewrite unexpired_lookup, He. }
  unfold try_catch, incr. unfold bind at 1. unfold bind at 1.
  unfold get_state at 1. cbn [fst snd]. rewrite Hs.
  unfold bind at 1. unfold modify at 1. cbn [fst snd]. unfold ret at 1.
  unfold bind at 1. rewrite decide_False by lia.
  unfold ret. cbn [fst snd].
  eexists. split; [reflexivity|]. unfold counting. simpl.
  by rewrite lookup_insert_eq.
Qed.

Lemma map_seq_from {A} n : ∀ (f : nat → A) a,
  map f (seq a n) = map (λ i, f (a + i)%nat) (seq 0 n).
Proof.
  induction n as [|n IH]; intros f a; [done|].
  simpl. rewrite Nat.add_0_r. f_equal.
  rewrite (IH f (S a)), (IH (λ i, f (a + i)%nat) 1%nat).
  apply map_ext. intros i. f_equal. lia.
Qed.

(** The results of calling [checkRateLimit] once at each of the times
    [envs], in this order. *)
Fixpoint rate_limit_calls (key : string) (limit windowMs : Z) (envs : list Env)
    (st : Redis * Log) : list (Result bool) * (Redis * Log) :=
  match envs with
  | [] => ([], st)
  | env :: rest =>
      let r := checkRateLimit key limit windowMs env st in
      let rs := rate_limit_calls key limit windowMs rest (snd r) in
      (fst r :: fst rs, snd rs)
  end.

Lemma rate_limit_calls_counting key limit windowMs deadline envs : ∀ k r l,
  counting key k deadline r → 1 ≤ k →
  Forall (λ env, now env < deadline) envs →
  fst (rate_limit_calls key limit windowMs envs (r, l))
  = map (λ i, Ok (k + 1 + Z.of_nat i <=? limit)) (seq 0 (length envs))
  ∧ counting key (k + Z.of_nat (length envs)) deadline
      (fst (snd (rate_limit_calls key limit windowMs envs (r, l)))).
Proof.
  induction envs as [|env envs IH]; intros k r l Hc Hk Hall.
  - simpl. by rewrite Z.add_0_r.
  - apply Forall_cons in Hall as [Hnow Hall].
    destruct (checkRateLimit_next key limit windowMs env r l k deadline Hc Hk Hnow)
      as (r' & Hrun & Hc').
    cbn [rate_limit_calls]. rewrite Hrun. cbn [fst snd].
    destruct (IH (k + 1) r' l Hc' ltac:(lia) Hall) as [IH1 IH2].
    split.
    + rewrite IH1. cbn [length seq map]. f_equal; [by rewrite Z.add_0_r|].
      rewrite (map_seq_from _ _ 1%nat). apply map_ext. intros i. do 2 f_equal. lia.
    + cbn [length]. by replace (k + Z.of_nat (S (length envs)))
        with (k + 1 + Z.of_nat (length envs)) by lia.
Qed.

(** On a key that is fresh when the first call is made, the calls made
    within the window are allowed up to the limit and refused from then
    on: the [i]-th call returns [true] exactly when [i] is at most [limit].
    A call made when the window is over counts from one again. *)
Theorem checkRateLimit_allows_limit_per_window (key : string) (limit windowMs : Z)
    (env0 env' : Env) (envs : list Env) (r : Redis) (l : Log) :
  rd_strings r !! key = None ∨ is_expired (now env0) (rd_expiry r) key = true →
  Forall (λ env, now env < now env0 + ceil_seconds windowMs * 1000) envs →
  now env0 + ceil_seconds windowMs * 1000 ≤ now env' →
  fst (rate_limit_calls key limit windowMs (env0 :: envs) (r, l))
  = map (λ i, Ok (Z.of_nat i <=? limit)) (seq 1 (S (length envs)))
  ∧ fst (checkRateLimit key limit windowMs env'
           (snd (rate_limit_calls key limit windowMs (env0 :: envs) (r, l))))
    = Ok (1 <=? limit).
Proof.
  intros Hfresh Hall Hlate.
  destruct (checkRateLimit_first key limit windowMs env0 r l Hfresh) as (r1 & Hrun & Hc).
  cbn [rate_limit_calls]. rewrite Hrun. cbn [fst snd].
  destruct (rate_limit_calls_counting key limit windowMs _ envs 1 r1 l Hc ltac:(lia) Hall)
    as [H1 H2].
  split.
  - rewrite H1. cbn [seq map]. f_equal.
    rewrite (map_seq_from _ _ 2%nat). apply map_ext. intros i. do 2 f_equal. lia.
  - destruct (rate_limit_calls key limit windowMs envs (r1, l)) as [rs [r2 l2]].
    cbn [fst snd] in *.
    destruct (checkRateLimit_first key limit windowMs env' r2 l2) as (r3 & Hrun3 & _).
    + right. destruct H2 as [_ Hd]. unfold is_expired. rewrite Hd.
      apply Z.leb_le. lia.
    + by rewrite Hrun3.
Qed.

(** *** The chat buffer *)

Definition chat_list (r : Redis) (streamId : string) : list string :=
  default [] (c_lists (rd_cache r) !! chat_key streamId).

Lemma key_exists_list r k x l :
  c_lists (rd_cache r) !! k = Some (x :: l) → key_exists r k = true.
Proof.
  intros H. unfold key_exists. rewrite H. simpl. by rewrite !orb_true_r.
Qed.

Lemma pipelined_hincrby_lists key field n env r l :
  ∃ r',
    pipelined (lift rd_cache set_rd_cache (hincrby key field n)) env (r, l) = (Ok tt, (r', l))
    ∧ c_lists (rd_cache r') = c_lists (rd_cache r)
    ∧ rd_expiry r' = rd_expiry r
    ∧ rd_strings r' = rd_strings r.
Proof.
  unfold pipelined, lift, hincrby. eff_unfold. cbn [fst snd].
  destruct (hgetall (rd_cache r) key !! field) as [[]|]; cbn [fst snd];
    eexists; (split; [reflexivity|]); try done; by destruct r.
Qed.

Section ChatFacts.

Variable stringify : gmap string JVal → string.
Variable parse : string → option (gmap string JVal).

Definition decode (t : Z) (msg : string) : gmap string JVal :=
  match parse msg with
  | Some o => o
  | None => js_obj [("content", JStr msg); ("timestamp", JNum t)]
  end.

Lemma cache_getChatMessages_run streamId limit env r l :
  cache_getChatMessages parse streamId limit env (r, l)
  = (Ok (rev (map (decode (now env))
                (lrange (chat_list (purge (now env) r) streamId) 0 (limit - 1)))),
     (purge (now env) r, l)).
Proof. done. Qed.

(** The state of the chat list once [addChatMessage] has run at time [t]
    on a list [old]. *)
Lemma cache_addChatMessage_run streamId message maxMessage env r l :
  1 ≤ maxMessage →
  ∃ r' l',
    cache_addChatMessage stringify streamId message maxMessage env (r, l) = (Ok tt, (r', l'))
    ∧ chat_list r' streamId
      = take (Z.to_nat maxMessage)
          (stringify message :: chat_list (purge (now env) r) streamId)
    ∧ rd_expiry r' !! chat_key streamId = Some (now env + 86400 * 1000).
Proof.
  intros Hmax. unfold cache_addChatMessage, at_now.
  unfold bind at 1. unfold date_now at 1. cbn [fst snd].
  unfold bind at 1. unfold modify at 1. cbn [fst snd].
  generalize (purge (now env) r). intros r0.
  unfold try_catch at 1. unfold bind at 1.
  set (l1 := stringify message :: chat_list r0 streamId).
  set (r1 := set_rd_cache (set_c_lists (<[chat_key streamId := l1]>) (rd_cache r0)) r0).
  assert (H1 : pipelined (lift rd_cache set_rd_cache
                            (lpush (chat_key streamId) (stringify message))) env (r0, l)
               = (Ok tt, (r1, l))) by done.
  rewrite H1. unfold bind at 1.
  set (l2 := take (Z.to_nat maxMessage) l1).
  set (r2 := set_rd_cache (set_c_lists (<[chat_key streamId := l2]>) (rd_cache r1)) r1).
  assert (H2 : pipelined (lift rd_cache set_rd_cache
                            (ltrim (chat_key streamId) 0 (maxMessage - 1))) env (r1, l)
               = (Ok tt, (r2, l))).
  { unfold pipelined, lift, ltrim. eff_unfold. cbn [fst snd].
    unfold r2, r1, set_rd_cache, set_c_lists. simpl. rewrite lookup_insert_eq. rewrite lrange_0 by lia.
    unfold l2. by replace (maxMessage - 1 + 1) with maxMessage by lia. }
  rewrite H2. unfold bind at 1.
  assert (Hl2 : ∃ rest, l2 = stringify message :: rest).
  { unfold l2, l1. destruct (Z.to_nat maxMessage) as [|n] eqn:Hn; [lia|].
    simpl. by eexists. }
  destruct Hl2 as [rest Hl2].
  assert (Hlist2 : c_lists (rd_cache r2) !! chat_key streamId = Some l2).
  { unfold r2. simpl. by rewrite lookup_insert_eq. }
  set (r3 := set_rd_expiry (<[chat_key streamId := now env + 86400 * 1000]>) r2).
  assert (H3 : pipelined (expire (chat_key streamId) 86400) env (r2, l) = (Ok tt, (r3, l))).
  { unfold pipelined, expire. eff_unfold. cbn [fst snd].
    rewrite (key_exists_list r2 _ (stringify message) rest) by (by rewrite Hlist2, Hl2).
    done. }
  rewrite H3. unfold bind at 1.
  destruct (pipelined_hincrby_lists (stats_key streamId) "chatMessages" 1 env r3 l)
    as (r4 & H4 & Hlists4 & Hexp4 & _).
  rewrite H4. unfold bind, modify, log. cbn [fst snd].
  assert (Hlist4 : c_lists (rd_cache r4) !! chat_key streamId = Some l2).
  { rewrite Hlists4. exact Hlist2. }
  eexists _, _. split; [reflexivity|]. cbn [fst snd]. split.
  - unfold chat_list.
    change (c_lists (rd_cache (settle r4))) with (c_lists (rd_cache r4)).
    by rewrite Hlist4.
  - change (rd_expiry (settle r4))
      with (filter (λ kv, key_exists r4 (fst kv) = true) (rd_expiry r4)).
    apply map_lookup_filter_Some. split.
    + rewrite Hexp4. unfold r3. simpl. by rewrite lookup_insert_eq.
    + simpl. apply (key_exists_list r4 _ (stringify message) rest).
      by rewrite Hlist4, Hl2.
Qed.

(** With a bound of at least one, [addChatMessage] puts the message at the
    head of the list and keeps the list within the bound.  Until the list
    expires a day later, [getChatMessages] with a limit of at least one
    returns at most [limit] messages, oldest first, and the last of them is
    the message just added, provided it survives the round trip through
    JSON. *)
Theorem chat_keeps_the_latest (streamId : string) (message : gmap string JVal)
    (maxMessage limit : Z) (env env' : Env) (r : Redis) (l : Log) :
  1 ≤ maxMessage → 1 ≤ limit →
  parse (stringify message) = Some message →
  now env' < now env + 86400 * 1000 →
  ∃ st1 msgs st2,
    cache_addChatMessage stringify streamId message maxMessage env (r, l) = (Ok tt, st1)
    ∧ Z.of_nat (length (chat_list (fst st1) streamId)) ≤ maxMessage
    ∧ cache_getChatMessages parse streamId limit env' st1 = (Ok msgs, st2)
    ∧ Z.of_nat (length msgs) ≤ Z.min limit maxMessage
    ∧ last msgs = Some message.
Proof.
  intros Hmax Hlimit Hjson Hlive.
  destruct (cache_addChatMessage_run streamId message maxMessage env r l Hmax)
    as (r' & l' & Hrun & Hlist & Hexp).
  eexists (r', l'), _, _. split; [exact Hrun|]. cbn [fst].
  split.
  { rewrite Hlist, length_take. lia. }
  rewrite cache_getChatMessages_run. split; [reflexivity|].
  assert (Hkeep : chat_list (purge (now env') r') streamId = chat_list r' streamId).
  { unfold chat_list, purge. simpl. rewrite unexpired_lookup.
    unfold is_expired. rewrite Hexp.
    by rewrite (proj2 (Z.leb_gt _ _)) by lia. }
  rewrite Hkeep, Hlist, lrange_0 by lia.
  replace (limit - 1 + 1) with limit by lia.
  split.
  - rewrite length_rev, length_map, !length_take. lia.
  - destruct (Z.to_nat maxMessage) as [|n] eqn:Hn; [lia|].
    destruct (Z.to_nat limit) as [|m] eqn:Hm; [lia|].
    simpl. rewrite last_snoc. unfold decode. by rewrite Hjson.
Qed.

(** A bound of zero is no bound: [LTRIM key 0 -1] keeps the whole list, so
    with [maxMessage = 0] the list grows by one message at every call; and
    [getChatMessages] with a limit of zero returns every message of the
    list, for the same reason. *)
Theorem chat_bound_zero_keeps_everything (streamId : string)
    (message : gmap string JVal) (env : Env) (r : Redis) (l : Log) :
  chat_list (fst (snd (cache_addChatMessage stringify streamId message 0 env (r, l))))
    streamId
  = stringify message :: chat_list (purge (now env) r) streamId
  ∧ fst (cache_getChatMessages parse streamId 0 env (r, l))
    = Ok (rev (map (decode (now env)) (chat_list (purge (now env) r) streamId))).
Proof.
  split.
  - unfold cache_addChatMessage, at_now.
    unfold bind at 1. unfold date_now at 1. cbn [fst snd].
    unfold bind at 1. unfold modify at 1. cbn [fst snd].
    generalize (purge (now env) r). intros r0.
    unfold try_catch at 1. unfold bind at 1.
    set (l1 := stringify message :: chat_list r0 streamId).
    set (r1 := set_rd_cache (set_c_lists (<[chat_key streamId := l1]>) (rd_cache r0)) r0).
    assert (H1 : pipelined (lift rd_cache set_rd_cache
                              (lpush (chat_key streamId) (stringify message))) env (r0, l)
                 = (Ok tt, (r1, l))) by done.
    rewrite H1. unfold bind at 1.
    set (r2 := set_rd_cache (set_c_lists (<[chat_key streamId := l1]>) (rd_cache r1)) r1).
    assert (H2 : pipelined (lift rd_cache set_rd_cache
                              (ltrim (chat_key streamId) 0 (0 - 1))) env (r1, l)
                 = (Ok tt, (r2, l))).
    { unfold pipelined, lift, ltrim. eff_unfold. cbn [fst snd].
      unfold r2, r1, set_rd_cache, set_c_lists. simpl. rewrite lookup_insert_eq. by rewrite lrange_all. }
    rewrite H2. unfold bind at 1.
    assert (Hlist2 : c_lists (rd_cache r2) !! chat_key streamId = Some l1).
    { unfold r2. simpl. by rewrite lookup_insert_eq. }
    set (r3 := set_rd_expiry (<[chat_key streamId := now env + 86400 * 1000]>) r2).
    assert (H3 : pipelined (expire (chat_key streamId) 86400) env (r2, l)
                 = (Ok tt, (r3, l))).
    { unfold pipelined, expire. eff_unfold. cbn [fst snd].
      by rewrite (key_exists_list r2 _ (stringify message) (chat_list r0 streamId)). }
    rewrite H3. unfold bind at 1.
    destruct (pipelined_hincrby_lists (stats_key streamId) "chatMessages" 1 env r3 l)
      as (r4 & H4 & Hlists4 & _).
    rewrite H4. unfold bind, modify, log. cbn [fst snd].
    unfold chat_list.
    change (c_lists (rd_cache (settle r4))) with (c_lists (rd_cache r4)).
    rewrite Hlists4.
    change (c_lists (rd_cache r3)) with (c_lists (rd_cache r2)).
    by rewrite Hlist2.
  - rewrite cache_getChatMessages_run. cbn [fst]. by rewrite lrange_all.
Qed.

End ChatFacts.

(** ** [StreamService.joinStream] *)



Lemma at_now_ok {A} (m : Eff Redis A) x :
  (∀ env st, fst (m env st) = Ok x) → ∀ env st, fst (at_now m env st) = Ok x.
Proof. intros H env st. unfold at_now. eff_unfold. cbn [fst snd]. apply H. Qed.

Lemma findOne_run streamId env s l :
  fst (world (database (db_findOne streamId)) env (s, l))
  = if db_fails env then Throw (Error "persistence failure")
    else Ok (w_db (sv_world s) !! streamId).
Proof.
  unfold world, database, lift, db_findOne. cbn [fst snd]. by destruct (db_fails env).
Qed.

Section JoinFacts.

Variable cache_createStream :
  string → gmap string JVal → Z → Cache → Result unit * Cache * Log.
Variable isoDay : Z → string.
Variable parse : string → option (gmap string JVal).







(** What the look-up finds: a cached stream comes from the cache; a stream
    that the cache does not hold but the collection does is found there,
    also when [cacheService.createStream] throws, as it does with the class
    as it stands; with persistence down, or with a stream unknown to both,
    nothing is found. *)
Theorem find_stream_falls_back_to_collection (streamId : string) (env : Env)
    (s : Service) (l : Log) :
  let rec := hgetall (rd_cache (purge (now env) (sv_redis s))) (stream_key streamId) in
  (size rec ≠ 0%nat →
   fst (find_stream cache_createStream streamId env (s, l)) = Ok (Some rec))
  ∧ (size rec = 0%nat → db_fails env = false →
     fst (find_stream cache_createStream streamId env (s, l))
     = Ok (w_db (sv_world s) !! streamId))
  ∧ (size rec = 0%nat → db_fails env = true →
     fst (find_stream cache_createStream streamId env (s, l)) = Ok None).
Proof.
  intros rec.
  assert (Hget : cache (redis (cache_getStream streamId)) env (s, l)
                 = (Ok (if decide (size rec = 0%nat) then None else Some rec),
                    (set_sv_redis (settle (purge (now env) (sv_redis s))) s, l))).
  { unfold cache, redis, at_now, lift, cache_getStream. eff_unfold. cbn [fst snd].
    fold rec. case_decide; cbn [fst snd]; do 3 f_equal;
      by destruct (purge (now env) (sv_redis s)). }
  split; [|split].
  - intros Hnz. unfold find_stream. unfold bind at 1. rewrite Hget.
    by rewrite decide_False.
  - intros Hz Hdb. unfold find_stream. unfold bind at 1. rewrite Hget.
    rewrite decide_True by done.
    pose proof (findOne_run streamId env
                  (set_sv_redis (settle (purge (now env) (sv_redis s))) s) l) as Hf.
    rewrite Hdb in Hf.
    change (w_db (sv_world (set_sv_redis (settle (purge (now env) (sv_redis s))) s)))
      with (w_db (sv_world s)) in Hf.
    unfold bind at 1. unfold try_catch at 1.
    destruct (world (database (db_findOne streamId)) env _) as [r st1].
    cbn [fst] in Hf. subst r.
    destruct (w_db (sv_world s) !! streamId) as [doc|]; [|done].
    unfold bind. unfold try_catch.
    match goal with
    | |- context [cache ?m env st1] => by destruct (cache m env st1) as [[[]|e] st2]
    end.
  - intros Hz Hdb. unfold find_stream. unfold bind at 1. rewrite Hget.
    rewrite decide_True by done.
    pose proof (findOne_run streamId env
                  (set_sv_redis (settle (purge (now env) (sv_redis s))) s) l) as Hf.
    rewrite Hdb in Hf.
    unfold bind at 1. unfold try_catch at 1.
    destruct (world (database (db_findOne streamId)) env _) as [r st1].
    cbn [fst] in Hf. subst r. by unfold bind, log, ret.
Qed.

End JoinFacts.

(** ** [ChatService] *)


Section ChatServiceFacts.

Variable stringify : gmap string JVal → string.
Variable same_user : ChatDoc → string → bool.

Lemma setex_run key seconds v env r l :
  setex key seconds v env (r, l)
  = (Ok tt,
     (set_rd_expiry (<[key := now env + seconds * 1000]>)
        (set_rd_strings (<[key := v]>) (purge (now env) r)), l)).
Proof. done. Qed.

Lemma isUserTimedOut_run userId env c l :
  isUserTimedOut userId env (c, l)
  = (Ok (truthy (default JNull
                   (rd_strings (purge (now env) (ch_redis c)) !! timeout_key userId))),
     (set_ch_redis (purge (now env) (ch_redis c)) c, l)).
Proof. done. Qed.

(** The action [timeout] of [moderateMessage] silences the author of the
    message for 300 seconds: when the call has returned, [isUserTimedOut]
    answers [true] for the author until 300 seconds have passed, and
    [false] from then on. *)
Theorem moderation_timeout_lasts_300_seconds (eventId systemId messageId moderatorId
    reason : string) (env env' : Env) (c : Chat) (l : Log) (message : ChatDoc) :
  db_fails env = false →
  ch_db c !! messageId = Some message →
  ∃ event st1,
    moderateMessage stringify same_user eventId systemId messageId "timeout" moderatorId
      reason env (c, l) = (Ok event, st1)
    ∧ ch_db (fst st1) = ch_db c
    ∧ (now env' < now env + 300 * 1000 →
       fst (isUserTimedOut (cm_userId message) env' st1) = Ok true)
    ∧ (now env + 300 * 1000 ≤ now env' →
       fst (isUserTimedOut (cm_userId message) env' st1) = Ok false).
Proof.
  intros Hdb Hmsg. unfold moderateMessage. unfold try_catch at 1.
  rewrite bool_decide_eq_true_2 by (apply list_elem_of_In; simpl; auto). cbn [negb].
  unfold bind at 1. unfold chat_db at 1, lift at 1, chat_findOne. cbn [fst snd].
  rewrite Hdb, Hmsg. cbn [fst snd].
  unfold bind at 1. unfold date_now at 1. cbn [fst snd].
  rewrite decide_False by done. rewrite decide_True by done.
  unfold bind at 1. unfold chat_cache at 1, lift at 1. cbn [fst snd].
  rewrite setex_run. cbn [fst snd].
  unfold publishAnalyticsEvent.
  set (r1 := set_rd_expiry _ _).
  assert (Hq : ∃ q l', chat_mq (publish_via "analytics.events" "chat.moderation" "eventType"
                                  (JStr "chat.moderation")
                                  (js_obj [("id", JStr eventId); ("messageId", JStr messageId);
                                           ("userId", JStr (cm_userId message));
                                           ("streamId", JStr (cm_streamId message));
                                           ("action", JStr "timeout");
                                           ("moderatorId", JStr moderatorId);
                                           ("reason", JStr reason);
                                           ("timestamp", JIso (now env))])
                                  "Cannot publish: RabbitMQ channel not available"
                                  "Analytics event published"
                                  "Error publishing analytics event:")
                       env (set_ch_redis r1 (set_ch_db (ch_db c) c), l)
                     = (Ok tt, (set_ch_mq q (set_ch_redis r1 (set_ch_db (ch_db c) c)), l'))).
  { unfold chat_mq, lift. cbn [fst snd].
    match goal with
    | |- context [publish_via ?a ?b ?c0 ?d ?e ?f ?g ?h env ?st] =>
        pose proof (publish_via_ok a b c0 d e f g h env st) as Hok;
        destruct (publish_via a b c0 d e f g h env st) as [r [q l']]
    end.
    simpl in Hok. subst r. by eexists _, _. }
  destruct Hq as (q & l' & Hq).
  unfold bind at 1. rewrite Hq. unfold bind, log, ret. cbn [fst snd].
  eexists _, _. split; [reflexivity|]. cbn [fst snd]. split; [done|].
  assert (Hs : rd_strings r1 !! timeout_key (cm_userId message) = Some (JStr "true")).
  { unfold r1. simpl. by rewrite lookup_insert_eq. }
  assert (Hx : rd_expiry r1 !! timeout_key (cm_userId message)
               = Some (now env + 300 * 1000)).
  { unfold r1. simpl. by rewrite lookup_insert_eq. }
  split.
  - intros Hlive. rewrite isUserTimedOut_run. cbn [fst snd].
    unfold purge at 1. cbn [rd_strings]. rewrite unexpired_lookup.
    unfold is_expired. cbn [ch_redis set_ch_mq set_ch_redis]. rewrite Hx.
    rewrite (proj2 (Z.leb_gt _ _)) by lia. by rewrite Hs.
  - intros Hover. rewrite isUserTimedOut_run. cbn [fst snd].
    unfold purge at 1. cbn [rd_strings]. rewrite unexpired_lookup.
    unfold is_expired. cbn [ch_redis set_ch_mq set_ch_redis]. rewrite Hx.
    by rewrite (proj2 (Z.leb_le _ _)) by lia.
Qed.

End ChatServiceFacts.

(** ** The socket server *)

(** The user is neither a viewer of the stream nor a participant of its
    room. *)
Definition user_out (w : World) (userId streamId : string) : Prop :=
  (userId ∉ viewers w streamId)
  ∧ ∀ room, JsMap.get streamId (rooms (w_media w)) = Some room →
            JsMap.get userId (r_participants room) = None.

Lemma closeParticipant_other_rooms roomId userId env st r :
  r ≠ roomId →
  JsMap.get r (rooms (fst (snd (closeParticipant roomId userId env st))))
  = JsMap.get r (rooms (fst st)).
Proof.
  intros Hne. destruct st as [s l].
  destruct (JsMap.get roomId (rooms s)) as [room|] eqn:H1;
    [|by rewrite closeParticipant_no_room].
  destruct (JsMap.get userId (r_participants room)) as [a|] eqn:H2;
    [|by erewrite closeParticipant_no_participant].
  destruct (decide (JsMap.size (JsMap.delete userId (r_participants room)) = 0%nat)).
  - erewrite closeParticipant_last by done. cbn [fst snd]. simpl.
    rewrite jsmap_get_delete_ne by done.
    rewrite (registry_rooms _ _ (registry_router_close _ _)).
    erewrite rooms_participant_removed by done.
    by rewrite jsmap_get_set_ne.
  - erewrite closeParticipant_others by done. cbn [fst snd].
    erewrite rooms_participant_removed by done.
    by rewrite jsmap_get_set_ne.
Qed.

Lemma user_out_handleUserDisconnect streamId userId env w l s :
  s = streamId ∨ user_out w userId s →
  user_out (fst (snd (handleUserDisconnect streamId userId env (w, l)))) userId s.
Proof.
  intros Hs.
  destruct (handleUserDisconnect_out streamId userId env w l)
    as (Hv & Hother & Hp).
  destruct (decide (s = streamId)) as [->|Hne]; [by split|].
  destruct Hs as [->|[Hout1 Hout2]]; [done|].
  destruct (handleUserDisconnect_run streamId userId env w l) as (q & l' & Hrun).
  rewrite Hrun in *. cbn [fst snd] in *. split.
  - unfold viewers in *. simpl in *.
    destruct (c_sets (w_cache w) !! viewers_key streamId) as [vs|] eqn:Hvs; [|done].
    destruct (decide (viewers_key streamId = viewers_key s)) as [Hk|Hk].
    + rewrite <- Hk, lookup_insert_eq. simpl.
      apply not_elem_of_difference. right. by apply elem_of_singleton.
    + by rewrite lookup_insert_ne.
  - intros room Hroom. simpl in Hroom.
    rewrite closeParticipant_other_rooms in Hroom by done. by apply Hout2.
Qed.

Lemma on_disconnecting_body_run roomId streamId userId env sv l :
  ∃ l',
    try_catch
      (run streamService (handleUserDisconnect streamId userId);
       emit_to roomId "viewer-left" userId)
      (λ error, log LError (MsgFailure "Error handling disconnect from room" error))
      env (sv, l)
    = (Ok tt,
       (mkServer (fst (snd (handleUserDisconnect streamId userId env (srv_world sv, l))))
          (srv_emitted sv ++ [(roomId, "viewer-left", userId)]), l')).
Proof.
  unfold try_catch, bind, streamService, lift, emit_to, modify. cbn [fst snd].
  pose proof (handleUserDisconnect_total streamId userId env (srv_world sv, l)) as Hok.
  destruct (handleUserDisconnect streamId userId env (srv_world sv, l)) as [r [w1 l1]].
  simpl in Hok. subst r. cbn [fst snd]. by eexists.
Qed.

(** The rooms of the socket that stand for a stream, in order. *)
Definition stream_rooms (socketRooms : list string) : list (string * string) :=
  omap (λ roomId, (λ streamId, (roomId, streamId)) <$> strip_prefix "room:" roomId)
    socketRooms.

Lemma stream_rooms_cons roomId rest :
  stream_rooms (roomId :: rest)
  = match strip_prefix "room:" roomId with
    | Some streamId => (roomId, streamId) :: stream_rooms rest
    | None => stream_rooms rest
    end.
Proof.
  unfold stream_rooms. cbn [omap list_omap].
  by destruct (strip_prefix "room:" roomId).
Qed.

Lemma on_disconnecting_loop userId env socketRooms : ∀ sv l,
  ∃ st1,
    for_each socketRooms (disconnect_body userId) env (sv, l) = (Ok tt, st1)
    ∧ srv_emitted (fst st1)
      = srv_emitted sv
          ++ map (λ rs, (fst rs, "viewer-left", userId)) (stream_rooms socketRooms)
    ∧ ∀ streamId,
        user_out (srv_world sv) userId streamId
        ∨ (∃ roomId, In roomId socketRooms ∧ strip_prefix "room:" roomId = Some streamId) →
        user_out (srv_world (fst st1)) userId streamId.
Proof.
  induction socketRooms as [|roomId rest IH]; intros sv l.
  - exists (sv, l). split; [done|]. split; [by rewrite app_nil_r|].
    intros streamId [H|(roomId & [] & _)]. done.
  - cbn [for_each]. unfold bind at 1. unfold disconnect_body at 1.
    destruct (strip_prefix "room:" roomId) as [streamId0|] eqn:Hstrip.
    + destruct (on_disconnecting_body_run roomId streamId0 userId env sv l)
        as [l' Hbody].
      rewrite Hbody.
      match goal with
      | |- context [for_each rest _ env (?sv1, l')] =>
          destruct (IH sv1 l') as (st1 & H1 & H2 & H3)
      end.
      exists st1. split; [exact H1|]. split.
      * rewrite H2. cbn [srv_emitted]. rewrite stream_rooms_cons, Hstrip.
        cbn [map fst]. by rewrite <- app_assoc.
      * intros streamId Hs. apply H3. cbn [srv_world].
        destruct Hs as [Hs|(rid & [<-|Hin] & Hrid)].
        -- left. apply user_out_handleUserDisconnect. by right.
        -- left. apply user_out_handleUserDisconnect. left. congruence.
        -- right. by exists rid.
    + unfold ret at 1.
      destruct (IH sv l) as (st1 & H1 & H2 & H3).
      exists st1. split; [exact H1|]. split.
      * rewrite H2. by rewrite stream_rooms_cons, Hstrip.
      * intros streamId Hs. apply H3.
        destruct Hs as [Hs|(rid & [<-|Hin] & Hrid)]; [by left|congruence|].
        right. by exists rid.
Qed.

(** When a client goes away, the handler of [disconnecting] runs
    [handleUserDisconnect] for every room of the socket whose name starts
    with [room:], on the stream named behind the prefix, and for no other
    room.  It never throws; afterwards the user is neither viewer nor
    participant of any of these streams, and one [viewer-left] has been
    emitted to each of these rooms, in the order of the rooms. *)
Theorem disconnecting_leaves_every_stream (socketRooms : list string) (userId : string)
    (env : Env) (sv : Server) (l : Log) :
  let r := on_disconnecting socketRooms userId env (sv, l) in
  fst r = Ok tt
  ∧ srv_emitted (fst (snd r))
    = srv_emitted sv
        ++ map (λ rs, (fst rs, "viewer-left", userId)) (stream_rooms socketRooms)
  ∧ ∀ roomId streamId,
      In roomId socketRooms → strip_prefix "room:" roomId = Some streamId →
      user_out (srv_world (fst (snd r))) userId streamId.
Proof.
  intros r.
  destruct (on_disconnecting_loop userId env socketRooms sv
              (l ++ [(LInfo, MsgText "Client disconnecting")])) as (st1 & H0 & H2 & H3).
  assert (Hr : r = (Ok tt, st1)).
  { subst r. unfold on_disconnecting. unfold bind at 1. unfold log at 1.
    cbn [fst snd]. exact H0. }
  rewrite Hr. cbn [fst snd].
  split; [done|]. split; [exact H2|].
  intros roomId streamId Hin Hstrip. apply H3. right. by exists roomId.
Qed.

(** * The further theorems at concrete inputs *)

Lemma failed_call_changes_nothing_witness :
  snd (produce "r1" "A" 7 "video/VP8" "video" env0 st_scene) = st_scene
  ∧ snd (resumeConsumer "r1" "B" 0 env0 st_scene) = st_scene.
Proof.
  destruct (failed_call_changes_nothing "r1" "A" 7 "video/VP8" "video" [] env0 st_scene)
    as (_ & Hp & _ & _).
  destruct (failed_call_changes_nothing "r1" "B" 0 "" "" [] env0 st_scene)
    as (_ & _ & _ & Hr).
  split.
  - apply (Hp (Error "Transport not found")). vm_compute. reflexivity.
  - apply (Hr (Error "Consumer not found")). vm_compute. reflexivity.
Defined.

Lemma respawn_leaves_room_on_closed_router_witness :
  let st' := after (on_worker_died 1) env0 (fst st_four_rooms, snd st_four_rooms) in
  workers (fst st') !! 1%nat = Some (Some (e_workers (engine (fst st_four_rooms))))
  ∧ (∃ ro', e_routers (engine (fst st')) !! r_router (mkRoom "b" 1 [] 1000 1) = Some ro'
            ∧ ro_worker ro' = 1%nat ∧ ro_closed ro' = true)
  ∧ ∀ env', createRoom "b" env' st' = (Ok (mkRoom "b" 1 [] 1000 1), st').
Proof.
  apply (respawn_leaves_room_on_closed_router 1 env0 (fst st_four_rooms)
           (snd st_four_rooms) 1 "b" (mkRoom "b" 1 [] 1000 1) (mkRouter 1 false));
    vm_compute; reflexivity.
Defined.

Lemma createRoom_on_empty_pool_breaks_service_witness :
  fst (createRoom "a" env0 (mstate0, [])) = Throw no_worker_error
  ∧ workerIndex (fst (snd (createRoom "a" env0 (mstate0, [])))) = NaN
  ∧ fst (createRoom "b" env0
           (after (initialize 4) env0 (after (createRoom "a") env0 (mstate0, []))))
    = Throw no_worker_error.
Proof.
  destruct (createRoom_on_empty_pool_breaks_service "a" env0 mstate0 [])
    as [H1 _]; [vm_compute; reflexivity|].
  destruct H1 as [H1 H2]; [vm_compute; reflexivity|].
  split; [exact H1|]. split; [exact H2|].
  destruct (createRoom_on_empty_pool_breaks_service "b" env0
              (fst (after (initialize 4) env0 (after (createRoom "a") env0 (mstate0, []))))
              (snd (after (initialize 4) env0 (after (createRoom "a") env0 (mstate0, [])))))
    as [_ H3]; [vm_compute; reflexivity|].
  destruct H3 as [H3 _]; [vm_compute; reflexivity|].
  exact H3.
Defined.

Lemma cleanup_shuts_down_witness :
  fst (cleanup env0 st_four_rooms) = Ok tt
  ∧ rooms (fst (snd (cleanup env0 st_four_rooms))) = []
  ∧ (∃ ro', e_routers (engine (fst (snd (cleanup env0 st_four_rooms)))) !! 2%nat = Some ro'
            ∧ ro_closed ro' = true)
  ∧ fst (getRouterCapabilities env0 (snd (cleanup env0 st_four_rooms)))
    = Throw (Error "No workers available").
Proof.
  destruct (cleanup_shuts_down env0 st_four_rooms) as (H1 & H2 & _ & H4 & _ & H6 & _).
  split; [exact H1|]. split; [exact H2|]. split; [|apply H6].
  apply (H4 "c" (mkRoom "c" 2 [] 1000 2) (mkRouter 2 false)); vm_compute; reflexivity.
Defined.

Lemma createTransport_checks_direction_witness :
  createTransport "s1" "u1" "both" env0 st_stream
  = (Throw (Error "Invalid transport direction"),
     (fst st_stream,
      snd st_stream ++ [(LError, MsgFailure "Error creating transport:"
                                   (Error "Invalid transport direction"))]))
  ∧ fst (createTransport "s1" "u1" "recv" env0 (fst st_stream, snd st_stream))
    = fst (createWebRtcTransport "s1" "u1" "recv" env0
             (w_media (fst st_stream), snd st_stream)).
Proof.
  destruct (createTransport_checks_direction "s1" "u1" "both" env0 (fst st_stream)
              (snd st_stream)) as [H1 _].
  destruct (createTransport_checks_direction "s1" "u1" "recv" env0 (fst st_stream)
              (snd st_stream)) as [_ H2].
  split.
  - apply H1; vm_compute; discriminate.
  - apply H2. by right.
Defined.

Lemma produce_marks_stream_live_witness :
  field (hgetall (w_cache (fst st_video)) (stream_key "s1")) "isLive" = JBool true
  ∧ field (hgetall (w_cache (fst st_video)) (stream_key "s1")) "startedAt" = JIso 1000
  ∧ w_cache (fst st_video_audio) = w_cache (fst st_video).
Proof.
  destruct (produce_marks_stream_live "s1" "u1" 0 "video/VP8" "video"
              (mkEnv 1000 false false) (fst st_stream) (snd st_stream) 0 st_video)
    as (_ & _ & H3); [vm_compute; reflexivity|].
  destruct H3 as (Ha & Hb & _); [vm_compute; lia|vm_compute; reflexivity|].
  destruct (produce_marks_stream_live "s1" "u1" 0 "audio/opus" "audio"
              (mkEnv 5000 false false) (fst st_video) (snd st_video) 1 st_video_audio)
    as (_ & H2 & _); [vm_compute; reflexivity|].
  split; [exact Ha|]. split; [exact Hb|].
  apply H2; [vm_compute; lia|vm_compute; reflexivity].
Defined.

Lemma endStream_ends_for_any_user_witness :
  ∃ upd st1,
    endStream "s1" "somebody else" env_late (fst st_video, snd st_video) = (Ok upd, st1)
    ∧ field upd "isLive" = JBool false
    ∧ field upd "duration" = JNum 30000.
Proof.
  destruct (endStream_ends_for_any_user "s1" "somebody else" env_late (fst st_video)
              (snd st_video)) as (upd & st1 & H1 & H2 & _ & H4 & _);
    [vm_compute; lia|].
  exists upd, st1. split; [exact H1|]. split; [exact H2|].
  rewrite H4. vm_compute. reflexivity.
Defined.

Lemma endStream_duration_since_produce_witness :
  ∃ upd st2,
    endStream "s1" "u1" env_late st_video = (Ok upd, st2)
    ∧ field upd "duration" = JNum (31000 - 1000).
Proof.
  apply (endStream_duration_since_produce "s1" "u1" "u1" 0 "video/VP8" "video"
           (mkEnv 1000 false false) env_late (fst st_stream) (snd st_stream) 0 st_video).
  - vm_compute. lia.
  - vm_compute. reflexivity.
  - vm_compute. reflexivity.
Defined.

Lemma disconnect_removes_viewer_and_participant_witness :
  JsMap.get "s1" (rooms (w_media (fst st_stream))) ≠ None
  ∧ JsMap.get "s1"
      (rooms (w_media (fst (snd (handleUserDisconnect "s1" "u1" env0
                                   (fst st_stream, snd st_stream)))))) = None.
Proof.
  split; [vm_compute; discriminate|].
  destruct (disconnect_removes_viewer_and_participant "s1" "u1" env0 (fst st_stream)
              (snd st_stream)) as (_ & _ & H).
  destruct (JsMap.get "s1" (rooms (w_media (fst (snd (handleUserDisconnect "s1" "u1" env0
              (fst st_stream, snd st_stream))))))) as [room|] eqn:Hroom; [|done].
  specialize (H room eq_refl). revert Hroom. vm_compute. discriminate.
Defined.

Definition mq_lost_twice : MqClient * Log :=
  after (mq_event MqConnClose) env0
    (after (mq_event MqConnect) (mkEnv 1000 false true) (mq_client0, [])).

Lemma reconnections_are_bounded_witness :
  (reconnections (snd mq_lost_twice) ≤ 10)%nat
  ∧ mc_reconnectAttempts (fst mq_lost_twice) = 2%nat
  ∧ (2 ≤ mc_reconnectAttempts (fst (after (mq_event MqConnect) env0 mq_lost_twice)))%nat.
Proof.
  destruct (reconnections_are_bounded mq_lost_twice MqConnect env0) as (H1 & H2 & _).
  - do 2 apply mq_next. apply mq_init.
  - split; [exact H1|]. split; [vm_compute; reflexivity|]. exact H2.
Defined.

Definition cache_two_viewers : Cache :=
  mkCache {[ stats_key "s1" := js_obj [("maxViewers", JNum 5); ("totalViews", JNum 7)] ]}
    {[ viewers_key "s1" := {[ "u1"; "u2" ]} ]} ∅ [].

Lemma addViewer_counts_witness :
  ∃ c' l',
    cache_addViewer "s1" "u1" env0 (cache_two_viewers, []) = (Ok 2, (c', l'))
    ∧ hget c' (stats_key "s1") "totalViews" = JNum 8
    ∧ hget c' (stats_key "s1") "maxViewers" = JNum 5.
Proof.
  destruct (addViewer_counts "s1" "u1" env0 cache_two_viewers [])
    as (c' & l' & H1 & H2 & H3 & _ & H5 & _).
  exists c', l'.
  assert (Hsize : size (viewer_set c' "s1") = 2%nat).
  { rewrite H2. vm_compute. reflexivity. }
  split; [by rewrite H1, Hsize|]. split.
  - apply (H3 7). vm_compute. reflexivity.
  - rewrite (H5 5), Hsize; [done|]. vm_compute. reflexivity.
Defined.

Definition rate_envs : list Env :=
  [mkEnv 1500 false false; mkEnv 2000 false false; mkEnv 60999 false false].

Lemma checkRateLimit_allows_limit_per_window_witness :
  fst (rate_limit_calls "chat:ratelimit:u1" 3 60000 (env0 :: rate_envs) (redis0, []))
  = [Ok true; Ok true; Ok true; Ok false]
  ∧ fst (checkRateLimit "chat:ratelimit:u1" 3 60000 (mkEnv 61000 false false)
           (snd (rate_limit_calls "chat:ratelimit:u1" 3 60000 (env0 :: rate_envs)
                   (redis0, []))))
    = Ok true.
Proof.
  apply (checkRateLimit_allows_limit_per_window "chat:ratelimit:u1" 3 60000 env0
           (mkEnv 61000 false false) rate_envs redis0 []).
  - left. vm_compute. reflexivity.
  - repeat constructor; vm_compute; reflexivity.
  - vm_compute. discriminate.
Defined.

(** A codec for the one message of the example. *)
Definition hello : gmap string JVal := js_obj [("content", JStr "hello")].
Definition stringify_hello (m : gmap string JVal) : string := "{content:hello}".
Definition parse_hello (s : string) : option (gmap string JVal) :=
  if decide (s = "{content:hello}") then Some hello else None.

Lemma chat_keeps_the_latest_witness :
  ∃ st1 msgs st2,
    cache_addChatMessage stringify_hello "s1" hello 100 env0 (redis0, []) = (Ok tt, st1)
    ∧ Z.of_nat (length (chat_list (fst st1) "s1")) ≤ 100
    ∧ cache_getChatMessages parse_hello "s1" 50 env_late st1 = (Ok msgs, st2)
    ∧ Z.of_nat (length msgs) ≤ Z.min 50 100
    ∧ last msgs = Some hello.
Proof.
  apply (chat_keeps_the_latest stringify_hello parse_hello "s1" hello 100 50 env0 env_late
           redis0 []).
  - lia.
  - lia.
  - vm_compute. reflexivity.
  - vm_compute. reflexivity.
Defined.


Lemma resumeConsumer_starts_the_flow_witness :
  ∃ st3 co',
    resumeConsumer "r1" "B" 0 env0 st_consuming = (Ok tt, st3)
    ∧ e_consumers (engine (fst st3)) !! 0%nat = Some co'
    ∧ co_paused co' = false ∧ co_closed co' = false ∧ co_producer co' = 0%nat.
Proof.
  destruct (resumeConsumer_starts_the_flow "r1" "B" 0 ["video/VP8"] env0 env0
              (fst (mstep (OpCreateTransport "r1" "B" "recv") env0 st_scene))
              (snd (mstep (OpCreateTransport "r1" "B" "recv") env0 st_scene))
              (mkRoom "r1" 0 [("A", 0%nat); ("B", 1%nat)] 1000 0) 1
              (mkParticipant "B" [(1%nat, 1%nat); (2%nat, 2%nat)] [] [] 1000)
              (mkConsumerData 0 "video" "video/VP8" 0) st_consuming)
    as [_ H]; try (vm_compute; reflexivity).
  exact H.
Defined.


(** A private stream of [owner] in the cache, and a stream that only the
    collection knows. *)
Definition sv_private : Service * Log :=
  (mkService
     (mkWorld mstate0
        (mkCache {[ stream_key "p1" := js_obj [("id", JStr "p1"); ("userId", JStr "owner");
                                                ("isPrivate", JBool true)] ]} ∅ ∅ [])
        {[ "s9" := js_obj [("id", JStr "s9"); ("userId", JStr "owner")] ]}
        (mkMq true []) [])
     ∅ ∅, []).



Lemma find_stream_falls_back_to_collection_witness :
  fst (find_stream cache_createStream_missing "s9" env0 (fst sv_private, snd sv_private))
  = Ok (w_db (sv_world (fst sv_private)) !! "s9")
  ∧ w_db (sv_world (fst sv_private)) !! "s9"
    = Some (js_obj [("id", JStr "s9"); ("userId", JStr "owner")])
  ∧ fst (find_stream cache_createStream_missing "s9" env_failing
           (fst sv_private, snd sv_private)) = Ok None.
Proof.
  split; [|split].
  - apply (find_stream_falls_back_to_collection cache_createStream_missing "s9" env0
             (fst sv_private) (snd sv_private)); vm_compute; reflexivity.
  - vm_compute. reflexivity.
  - apply (find_stream_falls_back_to_collection cache_createStream_missing "s9" env_failing
             (fst sv_private) (snd sv_private)); vm_compute; reflexivity.
Defined.



Definition chat_one : Chat :=
  mkChat {[ "m1" := mkChatDoc "u7" "s1" "hi" "text" 900 false None None ∅ ]}
    redis0 (mkMq true []).

Definition same_author (d : ChatDoc) (userId : string) : bool :=
  bool_decide (cm_userId d = userId).

Lemma moderation_timeout_lasts_300_seconds_witness :
  ∃ event st1,
    moderateMessage stringify_hello same_author "e1" "sys1" "m1" "timeout" "mod" "spam"
      env0 (chat_one, []) = (Ok event, st1)
    ∧ fst (isUserTimedOut "u7" (mkEnv 300999 false false) st1) = Ok true
    ∧ fst (isUserTimedOut "u7" (mkEnv 301000 false false) st1) = Ok false.
Proof.
  destruct (moderation_timeout_lasts_300_seconds stringify_hello same_author "e1" "sys1"
              "m1" "mod" "spam" env0 (mkEnv 300999 false false) chat_one []
              (mkChatDoc "u7" "s1" "hi" "text" 900 false None None ∅))
    as (event & st1 & Hrun & _ & Hin & _); [vm_compute; reflexivity..|].
  destruct (moderation_timeout_lasts_300_seconds stringify_hello same_author "e1" "sys1"
              "m1" "mod" "spam" env0 (mkEnv 301000 false false) chat_one []
              (mkChatDoc "u7" "s1" "hi" "text" 900 false None None ∅))
    as (event' & st1' & Hrun' & _ & _ & Hout); [vm_compute; reflexivity..|].
  rewrite Hrun in Hrun'. injection Hrun' as <- <-.
  exists event, st1. split; [exact Hrun|]. split.
  - apply Hin. vm_compute. reflexivity.
  - apply Hout. vm_compute. discriminate.
Defined.

Lemma disconnecting_leaves_every_stream_witness :
  user_out
    (srv_world (fst (snd (on_disconnecting ["socket-1"; "room:s1"] "u1" env0
                            (mkServer (fst st_stream) [], snd st_stream)))))
    "u1" "s1"
  ∧ srv_emitted (fst (snd (on_disconnecting ["socket-1"; "room:s1"] "u1" env0
                             (mkServer (fst st_stream) [], snd st_stream))))
    = [("room:s1", "viewer-left", "u1")].
Proof.
  destruct (disconnecting_leaves_every_stream ["socket-1"; "room:s1"] "u1" env0
              (mkServer (fst st_stream) []) (snd st_stream)) as (_ & H2 & H3).
  split.
  - apply (H3 "room:s1" "s1"); [right; by left|vm_compute; reflexivity].
  - rewrite H2. vm_compute. reflexivity.
Defined.
